(** * Rescale Job Management Dashboard: the React client, embedded and verified

    The development follows the front end of the repository:

    - [types.ts]            the data model ([Job], [PaginatedResponse], ...);
    - [api/jobs.ts]         the fetch layer ([handleResponse], [fetchJobs], ...);
    - [CreateJobForm.tsx]   the create form and its validation;
    - [JobCard.tsx]         one job row, its status menu and history panel;
    - [JobList.tsx]         the paginated list.  The sources hold two
                            revisions of this component: an earlier one that
                            filters and sorts the loaded pages in memory,
                            and the one that sends filter and sort to the
                            backend, which is the one the [api/jobs.ts] of
                            the sources serves.  Both are embedded, as
                            [JobListMem] and [JobListSrv];
    - [App.tsx]             the shared [QueryClient] and its retry options.

    The Django backend is not among the sources.  Where a property of the
    list depends on what the backend answers, the backend is the Query
    Engine of the specification ([Module QueryEngine]).

    TanStack Query is a dependency of the client, not part of it; the slice
    of it the components rely on (query keys, invalidation, infinite
    queries, retries) is embedded in [Module Query].

    Part I holds the definitions, Part II the lemmas and theorems about
    the list, the form, the card and the API layer, Part III further
    properties of the same code. *)

From stdpp Require Import base list strings pretty gmap.
From Stdlib Require Import ZArith Permutation Sorted.

Set Warnings "-register-all".

Local Open Scope string_scope.
Local Open Scope list_scope.
Local Open Scope Z_scope.

(* ===================================================================== *)
(** * Part I. The embedding                                               *)
(* ===================================================================== *)

(** ** JavaScript values the client manipulates *)

Module JS.

(** A JavaScript string is a sequence of UTF-16 code units.  Text typed by
    the user (a job name) is kept in that form, because [String.prototype.trim]
    is defined on code units, and so are the strings inside JSON bodies;
    literals of the program and strings the client never looks into
    (timestamps, links, query parameters) are Rocq strings. *)
Abbreviation text := (list N).

Definition lit (s : string) : text :=
  map Ascii.N_of_ascii (String.list_ascii_of_string s).

(** ECMAScript [WhiteSpace] and [LineTerminator] code points, which are what
    [trim] strips: TAB, LF, VT, FF, CR, SPACE, NBSP, the Unicode
    [Space_Separator] category, LS, PS and the BOM. *)
Definition isWhiteSpace (c : N) : bool :=
  ((9 <=? c) && (c <=? 13) ||
   (c =? 32) || (c =? 160) || (c =? 5760) ||
   ((8192 <=? c) && (c <=? 8202)) ||
   (c =? 8232) || (c =? 8233) || (c =? 8239) || (c =? 8287) ||
   (c =? 12288) || (c =? 65279))%N.

Fixpoint trimStart (s : text) : text :=
  match s with
  | c :: s' => if isWhiteSpace c then trimStart s' else s
  | [] => []
  end.

Definition trimEnd (s : text) : text := reverse (trimStart (reverse s)).

(** [s.trim()] *)
Definition trim (s : text) : text := trimEnd (trimStart s).

(** Truthiness of a string: only the empty string is falsy. *)
Definition truthy (s : text) : bool :=
  match s with [] => false | _ => true end.

(** The outcome of a promise once it has settled. *)
Inductive Promise (A E : Type) : Type :=
| Resolved (a : A)
| Rejected (e : E).
Global Arguments Resolved {A E} a.
Global Arguments Rejected {A E} e.

Definition then_ {A B E} (p : Promise A E) (k : A -> Promise B E) : Promise B E :=
  match p with
  | Resolved a => k a
  | Rejected e => Rejected e
  end.

Definition isRejected {A E} (p : Promise A E) : bool :=
  match p with Rejected _ => true | Resolved _ => false end.

End JS.

(** ** [types.ts] *)

Module Types.
Import JS.

Inductive StatusType := PENDING | RUNNING | COMPLETED | FAILED.

Global Instance StatusType_eq_dec : EqDecision StatusType.
Proof. solve_decision. Defined.

(** The string each status is on the wire and in the DOM. *)
Definition StatusType_str (s : StatusType) : string :=
  match s with
  | PENDING => "PENDING"
  | RUNNING => "RUNNING"
  | COMPLETED => "COMPLETED"
  | FAILED => "FAILED"
  end.

Record Job := {
  id : Z;
  name : text;
  created_at : string;
  updated_at : string;
  current_status : option StatusType   (* [None] is [null] *)
}.

(** A parsed absolute URL: what [new URL(s)] exposes of the string [s].  The
    pagination links of the backend are absolute URLs ([types.ts]: "URL of
    the next page, or null"); an absolute URL is never the empty string, so
    the test [!page.next] of the client is a test for [null]. *)
Record URL := {
  href : string;
  searchParams : list (string * string)
}.

Record PaginatedResponse (T : Type) := {
  count : Z;
  next : option URL;
  previous : option URL;
  results : list T
}.
Global Arguments count {T} _.
Global Arguments next {T} _.
Global Arguments previous {T} _.
Global Arguments results {T} _.

Record CreateJobPayload := { payload_name : text }.

Record UpdateJobStatusPayload := { status_type : StatusType }.

Record JobStatusEntry := {
  entry_id : Z;
  entry_status_type : StatusType;
  timestamp : string
}.

Definition ALL_STATUSES : list StatusType := [PENDING; RUNNING; COMPLETED; FAILED].

Definition STATUS_LABELS (s : StatusType) : string :=
  match s with
  | PENDING => "Pending"
  | RUNNING => "Running"
  | COMPLETED => "Completed"
  | FAILED => "Failed"
  end.

End Types.

(** ** Built-ins of the JavaScript platform

    The client calls a few built-ins whose exact tables (number syntax,
    number printing, date parsing, locale collation) live in the engine.
    They are taken as they are, as the operations of a class; the client's
    own code is written over them. *)

Class Platform := {
  (** the type of JavaScript numbers that serve as page parameters *)
  JSNumber : Type;
  (** the literal [1] *)
  num1 : JSNumber;
  (** [Number(x)] for [x : string | null] *)
  Number_ : option string -> JSNumber;
  (** [String(n)] *)
  String_ : JSNumber -> string;
  (** [new Date(s).getTime()] on the ISO 8601 timestamps the backend emits *)
  Date_getTime : string -> Z;
  (** [a.localeCompare(b)]: negative, zero or positive *)
  localeCompare : JS.text -> JS.text -> Z
}.

(** What [Array.prototype.sort] asks of a comparator ("consistent
    comparator"): the sign of [cmp a b] is a total preorder. *)
Class Consistent {A} (cmp : A -> A -> Z) : Prop := {
  cmp_antisym : forall a b, cmp a b < 0 <-> 0 < cmp b a;
  cmp_trans : forall a b c, cmp a b <= 0 -> cmp b c <= 0 -> cmp a c <= 0
}.

(** ** [api/jobs.ts] *)

Module Api.
Import JS Types.

(** A parsed JSON document.  Numbers are decimal literals
    [mantissa * 10 ^ exponent]; an object lists its members in the order of
    the document. *)
Inductive JSON :=
| JNull
| JBool (b : bool)
| JNum (mantissa exponent : Z)
| JStr (s : text)
| JArr (items : list JSON)
| JObj (members : list (text * JSON)).

(** [v.k] for a parsed JSON [v] that is not [null]: the own property [k] of
    an object ([JSON.parse] keeps the last of duplicate members), and
    [undefined] ([None]) on anything else: neither strings, numbers,
    booleans nor arrays have a property called [error] or [detail]. *)
Definition member (v : JSON) (k : text) : option JSON :=
  match v with
  | JObj ms => snd <$> List.find (fun m => bool_decide (fst m = k)) (reverse ms)
  | _ => None
  end.

(** [v?.k] where [v] may be [null] *)
Definition opt_member (v : JSON) (k : text) : option JSON :=
  match v with
  | JNull => None
  | _ => member v k
  end.

(** [a ?? b]: [b] when [a] is [undefined] or [null], else [a] *)
Definition coalesce (a : option JSON) (b : JSON) : JSON :=
  match a with
  | None | Some JNull => b
  | Some v => v
  end.

(** An HTTP response as the client sees it: the status code and what
    [res.json()] yields, [None] when the body is not valid JSON and
    [res.json()] rejects. *)
Record Response := {
  status : Z;
  json : option JSON
}.

(** [res.ok] *)
Definition ok (res : Response) : bool :=
  (200 <=? status res) && (status res <=? 299).

(** An integer inside a template literal ([`${res.status}`], [`${id}`]) is
    printed in decimal.  (JavaScript does so for integers below 10^21, far
    above any status code or any id a backend issues.) *)
Definition show_int (n : Z) : string :=
  pretty n.

(** What a rejected promise of the API layer carries.  [Error_ v] is
    [new Error(v)], which stores the string conversion of [v] as its message
    (a string unchanged); [SyntaxError_] is the rejection of [res.json()] on
    a body that is not JSON; [NetworkError] is the rejection of [fetch]
    itself. *)
Inductive JSError :=
| Error_ (message : JSON)
| SyntaxError_
| NetworkError.

Definition generic_message (prefix : string) (res : Response) : JSON :=
  JStr (lit (String.append prefix (show_int (status res)))).

(** [body?.error ?? body?.detail ?? `<prefix> ${res.status}`], where [body]
    is [await res.json().catch(() => null)]. *)
Definition error_message (prefix : string) (res : Response) : JSON :=
  let body := default JNull (json res) in
  coalesce (opt_member body (lit "error"))
    (coalesce (opt_member body (lit "detail"))
       (generic_message prefix res)).

Section HandleResponse.
Context {T : Type}.
(** The TypeScript cast [as Promise<T>]: the parsed value read at type [T]. *)
Variable cast : JSON -> T.

Definition handleResponse (res : Response) : Promise T JSError :=
  if negb (ok res) then
    Rejected (Error_ (error_message "Request failed with status " res))
  else
    match json res with
    | Some v => Resolved (cast v)
    | None => Rejected SyntaxError_
    end.

End HandleResponse.

(** Requests.  The URL is kept in parts: the path below [BASE] and the
    entries of the [URLSearchParams], in order. *)
Inductive Method := GET | POST | PATCH | DELETE.

Inductive Body :=
| NoBody
| CreateBody (p : CreateJobPayload)
| UpdateBody (p : UpdateJobStatusPayload).

Record Request := {
  method : Method;
  path : list string;
  query : list (string * string);
  body : Body
}.

Definition BASE : string := "/api".

(** [params.set(k, v)]: overwrite the first entry named [k] and drop the
    others, or append. *)
Fixpoint params_set (k v : string) (ps : list (string * string)) : list (string * string) :=
  match ps with
  | [] => [(k, v)]
  | (k', v') :: ps' =>
      if bool_decide (k' = k)
      then (k, v) :: List.filter (fun p => negb (bool_decide (fst p = k))) ps'
      else (k', v') :: params_set k v ps'
  end.

(** [params.get(k)]: the first entry named [k], or [null]. *)
Definition params_get (k : string) (ps : list (string * string)) : option string :=
  snd <$> List.find (fun p => bool_decide (fst p = k)) ps.

Section Calls.
Context `{Platform}.
(** [fetch]: the backend as seen through the network. *)
Variable fetch : Request -> Promise Response JSError.
Variable asPage : JSON -> PaginatedResponse Job.
Variable asJob : JSON -> Job.
Variable asHistory : JSON -> list JobStatusEntry.

Record FetchJobsArgs := {
  pageParam : JSNumber;
  arg_filter : string;
  arg_sort : string
}.

(** [GET /api/jobs/?page=N&sort=...&status=...] *)
Definition fetchJobs_request (a : FetchJobsArgs) : Request :=
  let params := [("page", String_ (pageParam a)); ("sort", arg_sort a)] in
  let params :=
    if bool_decide (arg_filter a <> "ALL")
    then params_set "status" (arg_filter a) params
    else params in
  {| method := GET; path := [BASE; "jobs"]; query := params; body := NoBody |}.

Definition fetchJobs (a : FetchJobsArgs) : Promise (PaginatedResponse Job) JSError :=
  then_ (fetch (fetchJobs_request a)) (handleResponse asPage).

(** [POST /api/jobs/] with the payload as JSON body *)
Definition createJob_request (p : CreateJobPayload) : Request :=
  {| method := POST; path := [BASE; "jobs"]; query := []; body := CreateBody p |}.

Definition createJob (p : CreateJobPayload) : Promise Job JSError :=
  then_ (fetch (createJob_request p)) (handleResponse asJob).

(** [PATCH /api/jobs/<id>/]; the id is interpolated into the path in
    decimal. *)
Definition updateJobStatus_request (id : Z) (p : UpdateJobStatusPayload) : Request :=
  {| method := PATCH; path := [BASE; "jobs"; show_int id]; query := []; body := UpdateBody p |}.

Definition updateJobStatus (id : Z) (p : UpdateJobStatusPayload) : Promise Job JSError :=
  then_ (fetch (updateJobStatus_request id p)) (handleResponse asJob).

(** [GET /api/jobs/<id>/history/] *)
Definition fetchJobHistory_request (id : Z) : Request :=
  {| method := GET; path := [BASE; "jobs"; show_int id; "history"]; query := []; body := NoBody |}.

Definition fetchJobHistory (id : Z) : Promise (list JobStatusEntry) JSError :=
  then_ (fetch (fetchJobHistory_request id)) (handleResponse asHistory).

(** [DELETE /api/jobs/<id>/] *)
Definition deleteJob_request (id : Z) : Request :=
  {| method := DELETE; path := [BASE; "jobs"; show_int id]; query := []; body := NoBody |}.

(** What [deleteJob] does with the response: the body of a 2xx answer
    (204 No Content) is never read. *)
Definition deleteJob_response (res : Response) : Promise unit JSError :=
  if negb (ok res) then
    Rejected (Error_ (error_message "Delete failed with status " res))
  else Resolved tt.

Definition deleteJob (id : Z) : Promise unit JSError :=
  then_ (fetch (deleteJob_request id)) deleteJob_response.

End Calls.

End Api.

(** ** [Array.prototype.sort]

    ECMAScript fixes the result of [sort] for a consistent comparator: the
    elements in ascending order of the comparator, equal elements in their
    original order (the sort is stable).  Insertion from the right computes
    that list: each element is put in front of the first element of the
    sorted rest that is not smaller. *)

Module ArraySort.

Section Sort.
Context {A : Type}.
Variable cmp : A -> A -> Z.

Fixpoint insert (x : A) (l : list A) : list A :=
  match l with
  | [] => [x]
  | y :: l' => if 0 <? cmp x y then y :: insert x l' else x :: l
  end.

Definition sort (l : list A) : list A := foldr insert [] l.

End Sort.

End ArraySort.

(** ** The slice of TanStack Query the client uses

    TanStack Query (v5) is a dependency of the client.  This module holds
    what its documentation says of the operations the components call:
    [invalidateQueries] matches keys by prefix and marks the matching
    queries, a marked query is stale whatever its [staleTime], a stale query
    is fetched again when it is read, an infinite query is refetched page by
    page from its first page parameter, [fetchNextPage] appends the page
    that [getNextPageParam] names, a disabled query does not fetch, and a
    failed fetch is repeated [retry] times.  A fetch is taken at the moment
    it settles; [queryFn p] is how the fetch of page [p] ends, after the
    retries of the client. *)

Module Query.
Import JS Types Api.

(** Query keys are arrays of strings and numbers. *)
Inductive KeyPart := KStr (s : string) | KNum (n : Z).

Global Instance KeyPart_eq_dec : EqDecision KeyPart.
Proof. solve_decision. Defined.

Global Instance KeyPart_countable : Countable KeyPart.
Proof.
  refine (inj_countable'
            (fun k => match k with KStr s => inl s | KNum n => inr n end)
            (fun x => match x with inl s => KStr s | inr n => KNum n end) _).
  by intros [].
Defined.

Abbreviation QueryKey := (list KeyPart).

(** [partialMatchKey(key, filterKey)]: on arrays, every index of the
    filter key must hold the same part in the query key, so the filter key
    is a prefix. *)
Fixpoint partialMatchKey (key filterKey : QueryKey) {struct filterKey} : bool :=
  match filterKey, key with
  | [], _ => true
  | f :: filterKey', k :: key' => bool_decide (k = f) && partialMatchKey key' filterKey'
  | _ :: _, [] => false
  end.

(** *** Retries *)

(** The [retry] option as the repository writes it: a count, or [false]. *)
Inductive RetryValue := RetryFalse | RetryNumber (n : nat).

Record QueryDefaults := {
  retry : option RetryValue;
  staleTime : option Z
}.

Record MutationDefaults := {
  mutation_retry : option RetryValue
}.

Record DefaultOptions := {
  queries : option QueryDefaults;
  mutations : option MutationDefaults
}.

Definition retryCount (fallback : nat) (r : option RetryValue) : nat :=
  match r with
  | None => fallback
  | Some RetryFalse => 0%nat
  | Some (RetryNumber n) => n
  end.

(** In the browser a query without [retry] option is retried 3 times, a
    mutation without [retry] option is not retried ([retry ?? 0]). *)
Definition queryRetry (o : DefaultOptions) : nat :=
  retryCount 3 (queries o ≫= retry).

Definition mutationRetry (o : DefaultOptions) : nat :=
  retryCount 0 (mutations o ≫= mutation_retry).

Definition queryStaleTime (o : DefaultOptions) : Z :=
  default 0 (queries o ≫= staleTime).

Section Retryer.
Context {A E : Type}.
(** [fn k]: how the [k]-th call of the fetch function settles ([k] counts
    from 0). *)
Variable fn : nat -> Promise A E.

(** The retryer: after a failure the call is repeated while
    [failureCount < retry]. The result is paired with the number of calls
    made. *)
Fixpoint run (failureCount remaining : nat) : Promise A E * nat :=
  match fn failureCount with
  | Resolved a => (Resolved a, S failureCount)
  | Rejected e =>
      match remaining with
      | O => (Rejected e, S failureCount)
      | S r => run (S failureCount) r
      end
  end.

Definition createRetryer (retry : nat) : Promise A E * nat := run 0 retry.

End Retryer.

(** *** The query cache *)

Abbreviation Page := (PaginatedResponse Job).

Section Cache.
Context `{Platform}.

Inductive Data :=
| InfiniteData (pages : list Page) (pageParams : list JSNumber)
| HistoryData (entries : list JobStatusEntry).

Inductive Status := pending | error | success.

(** [fetchStatus], with the direction of an infinite fetch. *)
Inductive FetchStatus := idle | fetching | fetchingNextPage.

Record QueryState := {
  data : option Data;
  dataUpdatedAt : Z;
  failure : option JSError;
  status : Status;
  fetchStatus : FetchStatus;
  isInvalidated : bool
}.

Definition newQuery : QueryState :=
  {| data := None; dataUpdatedAt := 0; failure := None; status := pending;
     fetchStatus := idle; isInvalidated := false |}.

Definition setData (now : Z) (d : Data) : QueryState :=
  {| data := Some d; dataUpdatedAt := now; failure := None; status := success;
     fetchStatus := idle; isInvalidated := false |}.

(** A failed fetch keeps the data and marks the query: "flag existing data
    as invalidated if we get a background error". *)
Definition setError (e : JSError) (q : QueryState) : QueryState :=
  {| data := data q; dataUpdatedAt := dataUpdatedAt q; failure := Some e;
     status := error; fetchStatus := idle; isInvalidated := true |}.

Definition invalidate (q : QueryState) : QueryState :=
  {| data := data q; dataUpdatedAt := dataUpdatedAt q; failure := failure q;
     status := status q; fetchStatus := fetchStatus q; isInvalidated := true |}.

Definition isStale (now staleTime : Z) (q : QueryState) : bool :=
  isInvalidated q ||
  match data q with
  | None => true
  | Some _ => dataUpdatedAt q + staleTime <=? now
  end.

Definition entry (c : gmap QueryKey QueryState) (k : QueryKey) : QueryState :=
  default newQuery (c !! k).

(** [queryClient.invalidateQueries({ queryKey: filterKey })] marks every
    query whose key matches. *)
Definition invalidateQueries (filterKey : QueryKey) (c : gmap QueryKey QueryState)
  : gmap QueryKey QueryState :=
  map_imap (fun k q => Some (if partialMatchKey k filterKey then invalidate q else q)) c.

(** *** Infinite queries *)

Record InfiniteOptions := {
  queryKey : QueryKey;
  queryFn : JSNumber -> Promise Page JSError;
  initialPageParam : JSNumber;
  getNextPageParam : Page -> option JSNumber  (* [None] is [undefined] *)
}.

Section Infinite.
Variable opts : InfiniteOptions.

Definition nextPageParam (pages : list Page) : option JSNumber :=
  last pages ≫= getNextPageParam opts.

Definition hasNextPage (d : option Data) : bool :=
  match d with
  | Some (InfiniteData pages _) => bool_decide (is_Some (nextPageParam pages))
  | _ => false
  end.

Definition fetchPage (acc : list Page * list JSNumber) (param : JSNumber)
  : Promise (list Page * list JSNumber) JSError :=
  then_ (queryFn opts param) (fun page => Resolved (acc.1 ++ [page], acc.2 ++ [param])).

(** One more page after the loaded ones. *)
Definition fetchNext (acc : list Page * list JSNumber)
  : Promise (list Page * list JSNumber) JSError :=
  match nextPageParam acc.1 with
  | None => Resolved acc
  | Some p => fetchPage acc p
  end.

Fixpoint fetchRemaining (n : nat) (acc : list Page * list JSNumber)
  : Promise (list Page * list JSNumber) JSError :=
  match n with
  | O => Resolved acc
  | S n' =>
      match nextPageParam acc.1 with
      | None => Resolved acc
      | Some p => then_ (fetchPage acc p) (fetchRemaining n')
      end
  end.

(** A fetch without direction (first load, or refetch of a stale query)
    starts from an empty result at the first page parameter and loads as
    many pages as were loaded before, one after the other. *)
Definition refetchAll (old : list Page * list JSNumber)
  : Promise (list Page * list JSNumber) JSError :=
  then_ (fetchPage ([], []) (default (initialPageParam opts) (head old.2)))
        (fetchRemaining (pred (length old.1))).

Definition loaded (q : QueryState) : list Page * list JSNumber :=
  match data q with
  | Some (InfiniteData pages params) => (pages, params)
  | _ => ([], [])
  end.

(** Every page of a result is the answer of the query function to the page
    parameter stored beside it. *)
Definition fresh (r : list Page * list JSNumber) : Prop :=
  Forall2 (fun page p => queryFn opts p = Resolved page) r.1 r.2.

(** Every loaded page has its page parameter stored beside it, and the
    first loaded page, if any, was asked for with the initial page
    parameter. *)
Definition starts_at_first_page (q : QueryState) : Prop :=
  List.length (loaded q).1 = List.length (loaded q).2 /\
  default (initialPageParam opts) (head (loaded q).2) = initialPageParam opts.

(** Every page parameter after the first is what [getNextPageParam] reads
    off the page before it. *)
Definition chained (r : list Page * list JSNumber) : Prop :=
  forall (i : nat) (page : Page) (p : JSNumber),
    r.1 !! i = Some page -> r.2 !! S i = Some p ->
    getNextPageParam opts page = Some p.

(** What the fetches of an infinite query keep true of what is loaded:
    every page is the answer to the page parameter beside it, the first page
    parameter is the initial one, and each further one was read off the page
    before it. *)
Definition well_loaded (r : list Page * list JSNumber) : Prop :=
  fresh r /\
  List.length r.1 = List.length r.2 /\
  default (initialPageParam opts) (head r.2) = initialPageParam opts /\
  chained r.

Definition settle (now : Z) (q : QueryState)
    (r : Promise (list Page * list JSNumber) JSError) : QueryState :=
  match r with
  | Resolved (pages, params) => setData now (InfiniteData pages params)
  | Rejected e => setError e q
  end.

Definition fetchInfiniteQuery (now : Z) (c : gmap QueryKey QueryState)
  : gmap QueryKey QueryState :=
  let q := entry c (queryKey opts) in
  <[queryKey opts := settle now q (refetchAll (loaded q))]> c.

Definition fetchNextPage (now : Z) (c : gmap QueryKey QueryState)
  : gmap QueryKey QueryState :=
  let q := entry c (queryKey opts) in
  <[queryKey opts := settle now q (fetchNext (loaded q))]> c.

(** A read of the query by a mounted component: a stale query is fetched
    again, a fresh one is served from the cache. *)
Definition readInfiniteQuery (now staleTime : Z) (c : gmap QueryKey QueryState)
  : gmap QueryKey QueryState :=
  if isStale now staleTime (entry c (queryKey opts))
  then fetchInfiniteQuery now c
  else c.

End Infinite.

(** What [useInfiniteQuery] hands to the component. *)
Record InfiniteQueryResult := {
  result_pages : option (list Page);
  result_hasNextPage : bool;
  isFetchingNextPage : bool;
  isLoading : bool;
  isError : bool;
  result_error : option JSError
}.

Definition useInfiniteQuery (opts : InfiniteOptions) (c : gmap QueryKey QueryState)
  : InfiniteQueryResult :=
  let q := entry c (queryKey opts) in
  {| result_pages :=
       match data q with Some (InfiniteData pages _) => Some pages | _ => None end;
     result_hasNextPage := hasNextPage opts (data q);
     isFetchingNextPage :=
       match fetchStatus q with fetchingNextPage => true | _ => false end;
     isLoading :=
       match status q, fetchStatus q with
       | pending, (fetching | fetchingNextPage) => true
       | _, _ => false
       end;
     isError := match status q with error => true | _ => false end;
     result_error := failure q |}.

(** *** Plain queries (the history of one job) *)

Record QueryOptions := {
  plain_queryKey : QueryKey;
  (** how a call of the query function settles *)
  plain_queryFn : Promise (list JobStatusEntry) JSError;
  enabled : bool
}.

Definition fetchQuery (now : Z) (o : QueryOptions) (c : gmap QueryKey QueryState)
  : gmap QueryKey QueryState :=
  let q := entry c (plain_queryKey o) in
  <[plain_queryKey o :=
      match plain_queryFn o with
      | Resolved h => setData now (HistoryData h)
      | Rejected e => setError e q
      end]> c.

(** A disabled query is never fetched on its own. *)
Definition shouldFetch (now staleTime : Z) (o : QueryOptions) (c : gmap QueryKey QueryState) : bool :=
  enabled o && isStale now staleTime (entry c (plain_queryKey o)).

Definition readQuery (now staleTime : Z) (o : QueryOptions) (c : gmap QueryKey QueryState)
  : gmap QueryKey QueryState :=
  if shouldFetch now staleTime o c then fetchQuery now o c else c.

Record QueryResult := {
  query_data : option (list JobStatusEntry);
  query_isLoading : bool
}.

Definition useQuery (o : QueryOptions) (c : gmap QueryKey QueryState) : QueryResult :=
  let q := entry c (plain_queryKey o) in
  {| query_data :=
       match data q with Some (HistoryData h) => Some h | _ => None end;
     query_isLoading :=
       match status q, fetchStatus q with
       | pending, (fetching | fetchingNextPage) => true
       | _, _ => false
       end |}.

(** *** Mutations *)

(** What a mutation shows of itself. *)
Record MutationResult := {
  isPending : bool;
  mutation_isError : bool;
  mutation_error : option JSError
}.

Definition idleMutation : MutationResult :=
  {| isPending := false; mutation_isError := false; mutation_error := None |}.

(** A settled mutation: [onSuccess] runs when the mutation function
    resolved, and only then. *)
Definition settleMutation {A} (r : Promise A JSError)
    (onSuccess : gmap QueryKey QueryState -> gmap QueryKey QueryState)
    (c : gmap QueryKey QueryState) : gmap QueryKey QueryState * MutationResult :=
  match r with
  | Resolved _ => (onSuccess c, idleMutation)
  | Rejected e =>
      (c, {| isPending := false; mutation_isError := true; mutation_error := Some e |})
  end.

End Cache.

End Query.

(** ** [App.tsx] *)

Module App.
Import Query.

(** [new QueryClient({ defaultOptions: { queries: { retry: 1, staleTime: 30_000 } } })] *)
Definition queryClient : DefaultOptions :=
  {| queries := Some {| retry := Some (RetryNumber 1); staleTime := Some 30000 |};
     mutations := None |}.

End App.

(** ** [CreateJobForm.tsx] *)

Module CreateJobForm.
Import JS Types Api Query.

Record State := {
  name : text;
  validationError : string
}.

Definition initial : State := {| name := []; validationError := "" |}.

(** [handleSubmit]: the new state, and the variables [mutation.mutate] is
    called with, if it is called; [mutate] is what invokes [createJob]. *)
Definition handleSubmit (st : State) : State * option CreateJobPayload :=
  if negb (truthy (trim (name st))) then
    ({| name := name st; validationError := "Job name cannot be empty" |}, None)
  else
    ({| name := name st; validationError := "" |},
     Some {| payload_name := trim (name st) |}).

(** [onChange] of the input *)
Definition onChange (value : text) (st : State) : State :=
  {| name := value;
     validationError :=
       if bool_decide (validationError st <> "") then "" else validationError st |}.

Section Mutation.
Context `{Platform}.

(** [onSuccess] of the create mutation *)
Definition onSuccess (c : gmap QueryKey QueryState) : gmap QueryKey QueryState :=
  invalidateQueries [KStr "jobs"] c.

Definition onSuccess_state (st : State) : State :=
  {| name := []; validationError := "" |}.

End Mutation.

End CreateJobForm.

(** ** [JobCard.tsx] *)

Module JobCard.
Import JS Types Api Query.

Definition STATUS_COLORS (s : StatusType) : string :=
  match s with
  | PENDING => "bg-yellow-100 text-yellow-800"
  | RUNNING => "bg-blue-100   text-blue-800"
  | COMPLETED => "bg-green-100  text-green-800"
  | FAILED => "bg-red-100    text-red-800"
  end.

Record Badge := {
  badge_class : string;
  badge_label : string
}.

Inductive HistoryPanel :=
| HistoryLoading                               (* 'Loading history...' *)
| HistoryList (entries : list JobStatusEntry)  (* the [<ol>], top to bottom *)
| NoStatusChanges.                             (* 'No status changes yet.' *)

Record View := {
  view_name : text;
  badge : option Badge;
  (** the options of the select after its disabled placeholder *)
  options : list StatusType;
  controls_disabled : bool;
  history_button : string;
  delete_button : string;
  update_error : option JSError;
  delete_error : option JSError;
  (** [None]: the panel is not rendered *)
  history_panel : option HistoryPanel
}.

Section Component.
Context `{Platform}.
Variable fetch : Request -> Promise Response JSError.
Variable asHistory : JSON -> list JobStatusEntry.

Definition historyKey (job : Job) : QueryKey :=
  [KStr "jobs"; KNum (id job); KStr "history"].

(** The options of [useQuery] *)
Definition historyQuery (job : Job) (showHistory : bool) : QueryOptions :=
  {| plain_queryKey := historyKey job;
     plain_queryFn := fetchJobHistory fetch asHistory (id job);
     enabled := showHistory |}.

(** [onSuccess] of the update and of the delete mutation *)
Definition update_onSuccess (c : gmap QueryKey QueryState) : gmap QueryKey QueryState :=
  invalidateQueries [KStr "jobs"] c.

Definition delete_onSuccess (c : gmap QueryKey QueryState) : gmap QueryKey QueryState :=
  invalidateQueries [KStr "jobs"] c.

Definition render_history (showHistory : bool) (history : QueryResult)
  : option HistoryPanel :=
  if showHistory then
    Some (if query_isLoading history then HistoryLoading
          else match query_data history with
               | Some h =>
                   if bool_decide (0 < List.length (drop 1 h))%nat
                   then HistoryList (reverse (drop 1 h))
                   else NoStatusChanges
               | None => NoStatusChanges
               end)
  else None.

Definition render (job : Job) (showHistory : bool) (history : QueryResult)
    (updateMutation deleteMutation : MutationResult) : View :=
  let isLoading := isPending updateMutation || isPending deleteMutation in
  {| view_name := name job;
     badge :=
       match current_status job with
       | Some s => Some {| badge_class := STATUS_COLORS s; badge_label := STATUS_LABELS s |}
       | None => None
       end;
     options :=
       List.filter (fun s => negb (bool_decide (Some s = current_status job))) ALL_STATUSES;
     controls_disabled := isLoading;
     history_button := if showHistory then "Hide History" else "History";
     delete_button := if isPending deleteMutation then "Deleting..." else "Delete";
     update_error :=
       if mutation_isError updateMutation then mutation_error updateMutation else None;
     delete_error :=
       if mutation_isError deleteMutation then mutation_error deleteMutation else None;
     history_panel := render_history showHistory history |}.

(** The component as mounted over the cache. *)
Definition JobCard (job : Job) (showHistory : bool) (c : gmap QueryKey QueryState)
    (updateMutation deleteMutation : MutationResult) : View :=
  render job showHistory (useQuery (historyQuery job showHistory) c)
    updateMutation deleteMutation.

End Component.

End JobCard.

(** ** [JobList.tsx]

    What the two revisions of the component share: the filter and sort
    values, [getNextPageParam], and the shape of what is rendered. *)

Module JobList.
Import JS Types Api Query.

(** ['ALL' | StatusType] *)
Inductive FilterValue := ALL | Only (s : StatusType).

Inductive SortValue := newest | oldest | name_asc | name_desc.

Global Instance FilterValue_eq_dec : EqDecision FilterValue.
Proof. solve_decision. Defined.

Global Instance SortValue_eq_dec : EqDecision SortValue.
Proof. solve_decision. Defined.

(** The strings behind the two types. *)
Definition FilterValue_str (f : FilterValue) : string :=
  match f with
  | ALL => "ALL"
  | Only s => StatusType_str s
  end.

Definition SortValue_str (s : SortValue) : string :=
  match s with
  | newest => "newest"
  | oldest => "oldest"
  | name_asc => "name_asc"
  | name_desc => "name_desc"
  end.

(** [STATUS_LABELS[filter as StatusType]]: [undefined] for ['ALL'] *)
Definition filter_label (f : FilterValue) : option string :=
  match f with
  | ALL => None
  | Only s => Some (STATUS_LABELS s)
  end.

Record State := {
  filter : FilterValue;
  sort : SortValue
}.

Global Instance State_eq_dec : EqDecision State.
Proof. solve_decision. Defined.

Definition initial : State := {| filter := ALL; sort := newest |}.

Definition setFilter (f : FilterValue) (st : State) : State :=
  {| filter := f; sort := sort st |}.

Definition setSort (s : SortValue) (st : State) : State :=
  {| filter := filter st; sort := s |}.

Inductive Header :=
| JobsOfTotal (shown total : Z)                              (* 'Jobs (n of total)' *)
| JobsWithStatusOfTotal (shown : Z) (label : option string) (total : Z)
                                                             (* 'Jobs (n Label of total)' *)
| JobsWithStatusOfLoaded (shown : Z) (label : option string) (loaded : Z).
                                                             (* 'Jobs (n Label of m loaded)' *)

Inductive Listing :=
| NoJobsYet                                   (* 'No jobs yet. Create one above.' *)
| NoJobsWithStatus (label : option string)    (* 'No jobs with status <Label>.' *)
| Cards (jobs : list Job).                    (* one [JobCard] per job, in order *)

Record LoadMore := {
  loadMore_disabled : bool;
  (** 'Loading...' when [None], else 'Load more (n remaining)' *)
  loadMore_remaining : option Z
}.

Inductive View :=
| LoadingJobs                                 (* 'Loading jobs...' *)
| FailedToLoad (e : option JSError)           (* 'Failed to load jobs: ...' *)
| Empty                                       (* 'No jobs yet. Create one above.' alone *)
| Listed (h : Header) (l : Listing) (more : option LoadMore).

(** What a view shows as job cards. *)
Definition cards (v : View) : list Job :=
  match v with
  | Listed _ (Cards jobs) _ => jobs
  | _ => []
  end.

(** The Load More button of a view, if it is rendered. *)
Definition loadMore (v : View) : option LoadMore :=
  match v with
  | Listed _ _ more => more
  | _ => None
  end.

Section Shared.
Context `{Platform}.

Definition getNextPageParam (lastPage : Page) : option JSNumber :=
  match next lastPage with
  | None => None
  | Some url => Some (Number_ (params_get "page" (searchParams url)))
  end.

(** [data?.pages.flatMap((page) => page.results) ?? []] *)
Definition jobs_of (r : InfiniteQueryResult) : list Job :=
  match result_pages r with
  | Some pages => flat_map results pages
  | None => []
  end.

(** [data?.pages[0]?.count ?? 0] *)
Definition totalCount_of (r : InfiniteQueryResult) : Z :=
  match result_pages r with
  | Some (p :: _) => count p
  | _ => 0
  end.

Definition loadMore_button (r : InfiniteQueryResult) : option LoadMore :=
  if result_hasNextPage r then
    Some {| loadMore_disabled := isFetchingNextPage r;
            loadMore_remaining :=
              if isFetchingNextPage r then None
              else Some (totalCount_of r - Z.of_nat (List.length (jobs_of r))) |}
  else None.

End Shared.

End JobList.

(** *** The earlier revision, which filters and sorts in memory

    Its query key is [['jobs']] and it hands [fetchJobs] itself to the query,
    so a fetch is told the page parameter and nothing of filter or sort.
    The [api/jobs.ts] this revision was written against is not among the
    sources; its fetch of one page is the variable [fetchPageOnly].  Its
    README says of it: "Filter and sort operate client-side on the loaded
    pages", and moves both to the backend as the solution, which the other
    revision does. *)

Module JobListMem.
Import JS Types Api Query JobList.

Section Component.
Context `{Platform}.
Variable fetchPageOnly : JSNumber -> Promise Page JSError.

Definition options (st : State) : InfiniteOptions :=
  {| queryKey := [KStr "jobs"];
     queryFn := fetchPageOnly;
     initialPageParam := num1;
     Query.getNextPageParam := JobList.getNextPageParam |}.

(** The comparator handed to [sort] *)
Definition comparator (s : SortValue) (a b : Job) : Z :=
  match s with
  | oldest => Date_getTime (created_at a) - Date_getTime (created_at b)
  | name_asc => localeCompare (name a) (name b)
  | name_desc => localeCompare (name b) (name a)
  | newest => Date_getTime (created_at b) - Date_getTime (created_at a)
  end.

Definition filtered (f : FilterValue) (jobs : list Job) : list Job :=
  match f with
  | ALL => jobs
  | Only s => List.filter (fun j => bool_decide (current_status j = Some s)) jobs
  end.

Definition sorted (s : SortValue) (jobs : list Job) : list Job :=
  ArraySort.sort (comparator s) jobs.

Definition render (st : State) (r : InfiniteQueryResult) : View :=
  let jobs := jobs_of r in
  if isLoading r then LoadingJobs
  else if isError r then FailedToLoad (result_error r)
  else match jobs with
  | [] => Empty
  | _ =>
    let filtered := filtered (filter st) jobs in
    let sorted := sorted (sort st) filtered in
    Listed
      (match filter st with
       | ALL => JobsOfTotal (Z.of_nat (List.length jobs)) (totalCount_of r)
       | _ => JobsWithStatusOfLoaded (Z.of_nat (List.length filtered))
                (filter_label (filter st)) (Z.of_nat (List.length jobs))
       end)
      (match sorted with
       | [] => NoJobsWithStatus (filter_label (filter st))
       | _ => Cards sorted
       end)
      (loadMore_button r)
  end.

Definition JobList (st : State) (c : gmap QueryKey QueryState) : View :=
  render st (useInfiniteQuery (options st) c).

End Component.

End JobListMem.

(** *** The revision that sends filter and sort to the backend *)

Module JobListSrv.
Import JS Types Api Query JobList.

Section Component.
Context `{Platform}.
Variable fetch : Request -> Promise Response JSError.
Variable asPage : JSON -> PaginatedResponse Job.

Definition options (st : State) : InfiniteOptions :=
  {| queryKey :=
       [KStr "jobs"; KStr (FilterValue_str (filter st)); KStr (SortValue_str (sort st))];
     queryFn := fun pageParam =>
       fetchJobs fetch asPage
         {| pageParam := pageParam;
            arg_filter := FilterValue_str (filter st);
            arg_sort := SortValue_str (sort st) |};
     initialPageParam := num1;
     Query.getNextPageParam := JobList.getNextPageParam |}.

Definition render (st : State) (r : InfiniteQueryResult) : View :=
  let jobs := jobs_of r in
  if isLoading r then LoadingJobs
  else if isError r then FailedToLoad (result_error r)
  else
    Listed
      (match filter st with
       | ALL => JobsOfTotal (Z.of_nat (List.length jobs)) (totalCount_of r)
       | _ => JobsWithStatusOfTotal (Z.of_nat (List.length jobs))
                (filter_label (filter st)) (totalCount_of r)
       end)
      (match jobs with
       | [] => match filter st with
               | ALL => NoJobsYet
               | _ => NoJobsWithStatus (filter_label (filter st))
               end
       | _ => Cards jobs
       end)
      (loadMore_button r).

Definition JobList (st : State) (c : gmap QueryKey QueryState) : View :=
  render st (useInfiniteQuery (options st) c).

End Component.

End JobListSrv.

(** ** The three mutations of the client and what each does on success *)

Module Mutations.
Import Query.

Inductive Mutation := CreateJob | UpdateStatus | DeleteJob.

Section OnSuccess.
Context `{Platform}.

Definition onSuccess (m : Mutation) : gmap QueryKey QueryState -> gmap QueryKey QueryState :=
  match m with
  | CreateJob => CreateJobForm.onSuccess
  | UpdateStatus => JobCard.update_onSuccess
  | DeleteJob => JobCard.delete_onSuccess
  end.

End OnSuccess.

End Mutations.

(** ** Properties the specification words, as predicates

    These follow the sentences of the specification, not the code; the
    theorems of Part II compare the code with them. *)

Module Spec.
Import JS Types Api Query JobList.

Section Order.
Context `{Platform}.

(** "newest/oldest order by created_at (descending/ascending);
    name_asc/name_desc order by name ascending/descending": [a] may stand
    before [b]. *)
Definition in_order (s : SortValue) (a b : Job) : Prop :=
  match s with
  | newest => Date_getTime (created_at b) <= Date_getTime (created_at a)
  | oldest => Date_getTime (created_at a) <= Date_getTime (created_at b)
  | name_asc => localeCompare (name a) (name b) <= 0
  | name_desc => localeCompare (name b) (name a) <= 0
  end.

(** Two jobs "compare equal under the chosen key". *)
Definition tied (s : SortValue) (a b : Job) : bool :=
  match s with
  | newest | oldest => Date_getTime (created_at a) =? Date_getTime (created_at b)
  | name_asc | name_desc => localeCompare (name a) (name b) =? 0
  end.

(** "Ties broken by id ascending": of two tied jobs the one displayed first
    has the smaller id. *)
Definition ties_by_id (s : SortValue) (displayed : list Job) : Prop :=
  forall (i j : nat) (a b : Job),
    displayed !! i = Some a -> displayed !! j = Some b -> (i < j)%nat ->
    tied s a b = true -> id a < id b.

End Order.

(** "The client promise rejects if and only if the HTTP response is
    non-2xx." *)
Definition rejects_iff_not_ok {A} (outcome : Response -> Promise A JSError) : Prop :=
  forall res, isRejected (outcome res) = negb (ok res).

(** [body.k] "when present": the body is JSON, has the member and the member
    is not [null]. *)
Definition present (res : Response) (k : string) : option JSON :=
  match json res ≫= (fun body => opt_member body (lit k)) with
  | Some JNull | None => None
  | Some v => Some v
  end.

End Spec.

(** ** A platform and data to run the client on

    Page numbers in decimal, timestamps compared by their digits (the order
    in time of UTC timestamps of one format), names compared code unit by
    code unit. *)

Module Sample.
Import JS Types Api Query JobList.

Inductive Num := Finite (z : Z) | NaN.

Definition digit (c : Ascii.ascii) : option Z :=
  let n := Z.of_N (Ascii.N_of_ascii c) in
  if (48 <=? n) && (n <=? 57) then Some (n - 48) else None.

Fixpoint decimal (s : string) (acc : Z) : option Z :=
  match s with
  | EmptyString => Some acc
  | String c s' =>
      match digit c with
      | Some d => decimal s' (10 * acc + d)
      | None => None
      end
  end.

Definition toNumber (x : option string) : Num :=
  match x with
  | None => Finite 0
  | Some s => match decimal s 0 with Some z => Finite z | None => NaN end
  end.

Definition toString (n : Num) : string :=
  match n with
  | Finite z => pretty z
  | NaN => "NaN"
  end.

Fixpoint digits_of (s : string) (acc : Z) : Z :=
  match s with
  | EmptyString => acc
  | String c s' =>
      match digit c with
      | Some d => digits_of s' (10 * acc + d)
      | None => digits_of s' acc
      end
  end.

Fixpoint compare_text (a b : text) : Z :=
  match a, b with
  | [], [] => 0
  | [], _ :: _ => -1
  | _ :: _, [] => 1
  | x :: a', y :: b' =>
      if (x <? y)%N then -1
      else if (y <? x)%N then 1
      else compare_text a' b'
  end.

#[export] Instance platform : Platform :=
  {| JSNumber := Num;
     num1 := Finite 1;
     Number_ := toNumber;
     String_ := toString;
     Date_getTime := fun s => digits_of s 0;
     localeCompare := compare_text |}.

Definition job (i : Z) (n : string) (t : string) (s : option StatusType) : Job :=
  {| id := i; name := lit n; created_at := t; updated_at := t; current_status := s |}.

(** A link to page [n] of the list, as the backend writes it. *)
Definition link (n : Z) : URL :=
  {| href := String.append "http://backend:8000/api/jobs/?page=" (pretty n);
     searchParams := [("page", pretty n)] |}.

(** Twenty pending jobs, ids 21 down to 2: the first page of a list of 21
    jobs, newest first. *)
Definition pending_jobs : list Job :=
  map (fun k : nat => job (21 - Z.of_nat k) "Job" "2024-01-02T00:00:00Z" (Some PENDING))
      (seq 0 20).

Definition page1 : Page :=
  {| count := 21; next := Some (link 2); previous := None; results := pending_jobs |}.

(** The second page: the oldest job, which is running. *)
Definition running_job : Job := job 1 "Job" "2024-01-01T00:00:00Z" (Some RUNNING).

Definition page2 : Page :=
  {| count := 21; next := None; previous := Some (link 1); results := [running_job] |}.

(** Two jobs created in the same instant, the one with the larger id first
    in the page. *)
Definition twin_a : Job := job 2 "Twin" "2024-01-01T00:00:00Z" (Some PENDING).
Definition twin_b : Job := job 1 "Twin" "2024-01-01T00:00:00Z" (Some PENDING).

(** A backend that is down: every request fails in the network. *)
Definition offline : Request -> Promise Response JSError :=
  fun _ => Rejected NetworkError.

(** A backend that answers every request with the same response. *)
Definition answering (res : Response) : Request -> Promise Response JSError :=
  fun _ => Resolved res.

End Sample.

(** ** The create form on the screen and in use

    What [CreateJobForm] renders, and the form driven by what can happen to
    it: typing, submitting, and the create request settling.  The input and
    the button are disabled while the mutation is pending, so typing and
    submitting reach the handlers only when it is not. *)

Module CreateJobFormSession.
Import JS Types Api Query CreateJobForm.

Record View := {
  input_value : text;
  input_disabled : bool;
  (** the paragraph under the input, if rendered *)
  validation_message : option string;
  (** 'Failed to create job: ...', if rendered *)
  api_error : option JSError;
  button_disabled : bool;
  button_label : string
}.

Definition render (st : State) (mutation : MutationResult) : View :=
  {| input_value := name st;
     input_disabled := isPending mutation;
     validation_message :=
       if bool_decide (validationError st <> "") then Some (validationError st) else None;
     api_error := if mutation_isError mutation then mutation_error mutation else None;
     button_disabled := isPending mutation;
     button_label := if isPending mutation then "Creating..." else "Create Job" |}.

(** The mutation after [mutate], and after its function has failed. *)
Definition pendingMutation : MutationResult :=
  {| isPending := true; mutation_isError := false; mutation_error := None |}.

Definition failedMutation (e : JSError) : MutationResult :=
  {| isPending := false; mutation_isError := true; mutation_error := Some e |}.

Record Session := {
  form : State;
  mutation : MutationResult
}.

Inductive Event :=
| Typed (value : text)                (* [onChange] of the input *)
| Submitted                           (* [onSubmit] of the form *)
| Settled (r : Promise Job JSError).  (* [createJob] has settled *)

(** One event: the session after it and the payloads [createJob] was called
    with. *)
Definition step (e : Event) (s : Session) : Session * list CreateJobPayload :=
  match e with
  | Typed value =>
      if isPending (mutation s) then (s, [])
      else ({| form := onChange value (form s); mutation := mutation s |}, [])
  | Submitted =>
      if isPending (mutation s) then (s, [])
      else
        match handleSubmit (form s) with
        | (st, Some payload) => ({| form := st; mutation := pendingMutation |}, [payload])
        | (st, None) => ({| form := st; mutation := mutation s |}, [])
        end
  | Settled r =>
      if isPending (mutation s) then
        match r with
        | Resolved _ => ({| form := onSuccess_state (form s); mutation := idleMutation |}, [])
        | Rejected e => ({| form := form s; mutation := failedMutation e |}, [])
        end
      else (s, [])
  end.

Fixpoint run (es : list Event) (s : Session) : Session * list CreateJobPayload :=
  match es with
  | [] => (s, [])
  | e :: es' =>
      let (s1, calls1) := step e s in
      let (s2, calls2) := run es' s1 in
      (s2, calls1 ++ calls2)
  end.

Definition settled (e : Event) : bool :=
  match e with Settled _ => true | _ => false end.

Definition in_flight (s : Session) : nat :=
  if isPending (mutation s) then 1%nat else 0%nat.

End CreateJobFormSession.

(** ** The job card in use

    The handlers of [JobCard] driven by what can happen to one card.  The
    select and the delete button are disabled while either mutation is
    pending; the select holds the options that [render] gives it. *)

Module JobCardSession.
Import JS Types Api Query JobCard CreateJobFormSession.

Record Session := {
  showHistory : bool;
  updateMutation : MutationResult;
  deleteMutation : MutationResult
}.

Inductive Event :=
| StatusSelected (value : StatusType)       (* [handleStatusChange] *)
| DeleteClicked                             (* [deleteMutation.mutate()] *)
| HistoryToggled                            (* [setShowHistory((v) => !v)] *)
| UpdateSettled (r : Promise Job JSError)
| DeleteSettled (r : Promise unit JSError).

(** [updateJobStatus(job.id, { status_type })] and [deleteJob(job.id)] as
    requests *)
Definition update_request (job : Job) (value : StatusType) : Request :=
  updateJobStatus_request (id job) {| status_type := value |}.

Definition delete_request (job : Job) : Request :=
  deleteJob_request (id job).

Definition isLoading (s : Session) : bool :=
  isPending (updateMutation s) || isPending (deleteMutation s).

(** Whether [value] is among the options of the select. *)
Definition offered (job : Job) (value : StatusType) : bool :=
  bool_decide (value ∈
    List.filter (fun s => negb (bool_decide (Some s = current_status job))) ALL_STATUSES).

Definition settleUpdate {A} (r : Promise A JSError) : MutationResult :=
  match r with
  | Resolved _ => idleMutation
  | Rejected e => failedMutation e
  end.

(** One event: the session after it and the requests sent. *)
Definition step (job : Job) (e : Event) (s : Session) : Session * list Request :=
  match e with
  | StatusSelected value =>
      if isLoading s || negb (offered job value) then (s, [])
      else ({| showHistory := showHistory s;
               updateMutation := pendingMutation;
               deleteMutation := deleteMutation s |},
            [update_request job value])
  | DeleteClicked =>
      if isLoading s then (s, [])
      else ({| showHistory := showHistory s;
               updateMutation := updateMutation s;
               deleteMutation := pendingMutation |},
            [delete_request job])
  | HistoryToggled =>
      ({| showHistory := negb (showHistory s);
          updateMutation := updateMutation s;
          deleteMutation := deleteMutation s |}, [])
  | UpdateSettled r =>
      if isPending (updateMutation s)
      then ({| showHistory := showHistory s;
               updateMutation := settleUpdate r;
               deleteMutation := deleteMutation s |}, [])
      else (s, [])
  | DeleteSettled r =>
      if isPending (deleteMutation s)
      then ({| showHistory := showHistory s;
               updateMutation := updateMutation s;
               deleteMutation := settleUpdate r |}, [])
      else (s, [])
  end.

Fixpoint run (job : Job) (es : list Event) (s : Session) : Session * list Request :=
  match es with
  | [] => (s, [])
  | e :: es' =>
      let (s1, sent1) := step job e s in
      let (s2, sent2) := run job es' s1 in
      (s2, sent1 ++ sent2)
  end.

Definition settled (e : Event) : bool :=
  match e with UpdateSettled _ | DeleteSettled _ => true | _ => false end.

Definition in_flight (s : Session) : nat :=
  ((if isPending (updateMutation s) then 1 else 0) +
   (if isPending (deleteMutation s) then 1 else 0))%nat.

End JobCardSession.

(** ** The cache as the client fills it

    The caches the client can reach from the empty one: the list (the
    revision that asks the backend) reads its query and loads more, a card
    reads its history, a mutation succeeds.  The backend is one function
    here: its answers do not change along the way. *)

Module Client.
Import JS Types Api Query.

Section Steps.
Context `{Platform}.
Variable fetch : Request -> Promise Response JSError.
Variable asPage : JSON -> PaginatedResponse Job.
Variable asHistory : JSON -> list JobStatusEntry.

Inductive Step : gmap QueryKey QueryState -> gmap QueryKey QueryState -> Prop :=
| read_list st now staleTime c :
    Step c (readInfiniteQuery (JobListSrv.options fetch asPage st) now staleTime c)
| load_more st now c :
    Step c (fetchNextPage (JobListSrv.options fetch asPage st) now c)
| read_history job showHistory now staleTime c :
    Step c (readQuery now staleTime
              (JobCard.historyQuery fetch asHistory job showHistory) c)
| mutation_succeeded m c :
    Step c (Mutations.onSuccess m c).

Inductive Reachable : gmap QueryKey QueryState -> Prop :=
| reach_empty : Reachable ∅
| reach_step c c' : Reachable c -> Step c c' -> Reachable c'.

End Steps.

End Client.

(** ** Reading a rendered list *)

Module JobListViews.
Import JobList.



Definition listing_of (v : View) : option Listing :=
  match v with
  | Listed _ l _ => Some l
  | _ => None
  end.

End JobListViews.

(** ** The backend behind [GET /api/jobs/]

    The list view of the Django backend is not among the sources; the
    client is its caller.  What it answers is taken from section 4.4 of the
    specification (the Query Engine) and from the wire format that
    [types.ts] documents. *)

Module QueryEngine.
Import JS Types Api Query JobList.

Section Engine.
Context `{Platform}.

(** Modelled from the spec: the fixed page size of [list(filter, sort, page,
    page_size)] ("fixed page size (20)"); the Django view is missing. *)
Definition page_size : nat := 20.

(** Modelled from the spec: "When not ALL, only jobs whose current status
    equals the filter value are included"; the Django filter is missing. *)
Definition included (f : FilterValue) (j : Job) : bool :=
  match f with
  | ALL => true
  | Only s => bool_decide (current_status j = Some s)
  end.

(** Modelled from the spec: "newest/oldest order by created_at
    (descending/ascending); name_asc/name_desc order by name (locale-aware)
    ascending/descending.  Ties broken by id ascending"; the Django ordering
    is missing.  Negative when [a] comes first. *)
Definition before (s : SortValue) (a b : Job) : Z :=
  let key :=
    match s with
    | newest => Date_getTime (created_at b) - Date_getTime (created_at a)
    | oldest => Date_getTime (created_at a) - Date_getTime (created_at b)
    | name_asc => localeCompare (name a) (name b)
    | name_desc => localeCompare (name b) (name a)
    end in
  if key =? 0 then id a - id b else key.

(** Modelled from the spec: the filtered and sorted full dataset, of which
    the pages are consecutive pieces ("the concatenation of all pages in
    order equals exactly the filtered+sorted full dataset"); the Django
    queryset is missing. *)
Definition matching (db : list Job) (f : FilterValue) (s : SortValue) : list Job :=
  ArraySort.sort (before s) (List.filter (included f) db).

(** The query of a list request, as [fetchJobs] writes it: [page], [sort]
    and, unless the filter is ['ALL'], [status]. *)
Definition list_params (f : FilterValue) (s : SortValue) (page : string)
  : list (string * string) :=
  [("page", page); ("sort", SortValue_str s)] ++
  match f with
  | ALL => []
  | Only t => [("status", StatusType_str t)]
  end.

Definition list_request (f : FilterValue) (s : SortValue) (page : string) : Request :=
  {| method := GET; path := [BASE; "jobs"]; query := list_params f s page; body := NoBody |}.

Definition query_string (ps : list (string * string)) : string :=
  String.concat "&" (map (fun p => String.append p.1 (String.append "=" p.2)) ps).

(** Modelled from the spec: the link to page [n] of a list ("next: URL of
    the next page, or null", [types.ts]); the Django paginator is missing.
    The link repeats the query of the request with the page number
    replaced. *)
Definition link (f : FilterValue) (s : SortValue) (n : Z) : URL :=
  {| href := String.append "http://localhost/api/jobs/?"
               (query_string (list_params f s (pretty n)));
     searchParams := list_params f s (pretty n) |}.

(** Modelled from the spec: page [n >= 1] of [list(filter, sort, page,
    page_size)]: [count] is the number of jobs matching the filter, there is
    a next page exactly when jobs remain behind this one, and a page beyond
    the last is empty; the Django view is missing. *)
Definition page (db : list Job) (f : FilterValue) (s : SortValue) (n : Z) : Page :=
  let all := matching db f s in
  {| count := Z.of_nat (List.length all);
     next :=
       if Z.of_nat page_size * n <? Z.of_nat (List.length all)
       then Some (link f s (n + 1)) else None;
     previous := if 1 <? n then Some (link f s (n - 1)) else None;
     results := take page_size (drop (page_size * Z.to_nat (n - 1)) all) |}.

(** Modelled from the spec: [list(filter, sort, page, page_size)], which
    "fails with ValidationError for page < 1" ([None]); the Django view is
    missing. *)
Definition list_ (db : list Job) (f : FilterValue) (s : SortValue) (n : Z) : option Page :=
  if n <? 1 then None else Some (page db f s n).

(** The pages a client can come to ask for: the first, and every page that
    the page before it links to. *)
Definition linked (db : list Job) (f : FilterValue) (s : SortValue) (n : Z) : Prop :=
  n = 1 \/
  (1 < n /\ Z.of_nat page_size * (n - 1) < Z.of_nat (List.length (matching db f s))).

Variable fetch : Request -> Promise Response JSError.
Variable asPage : JSON -> PaginatedResponse Job.

(** The backend behind [fetch] is this engine over the dataset [db]: a list
    request for a page that can be asked for is answered 2xx with that page
    of the engine (as the client reads the body). *)
Definition serves (db : list Job) (f : FilterValue) (s : SortValue) : Prop :=
  forall n, linked db f s n ->
    then_ (fetch (list_request f s (pretty n))) (handleResponse asPage) =
    Resolved (page db f s n).

(** What the client needs of [Number] and [String] on the page numbers of
    the links: [String(1)] is ["1"], and the decimal numeral of a page
    number is read and written back unchanged. *)
Definition decimal_pages (db : list Job) (f : FilterValue) (s : SortValue) : Prop :=
  String_ num1 = "1" /\
  forall n, linked db f s n -> String_ (Number_ (Some (pretty n))) = pretty n.

End Engine.

End QueryEngine.

(** ** A backend to run the client against

    The Query Engine over a table of jobs and their histories, behind HTTP
    and JSON: it reads the request, answers with a JSON body, and the client
    reads the body at its types. *)

Module Backend.
Import JS Types Api Query JobList Sample.
#[local] Existing Instance Sample.platform.

Definition unlit (t : text) : string :=
  String.string_of_list_ascii (map Ascii.ascii_of_N t).

Definition status_of_string (s : string) : option StatusType :=
  List.find (fun t => bool_decide (StatusType_str t = s)) ALL_STATUSES.

(** *** Writing JSON *)

Definition status_json (s : option StatusType) : JSON :=
  match s with
  | Some t => JStr (lit (StatusType_str t))
  | None => JNull
  end.

Definition job_json (j : Job) : JSON :=
  JObj [(lit "id", JNum (id j) 0);
        (lit "name", JStr (name j));
        (lit "created_at", JStr (lit (created_at j)));
        (lit "updated_at", JStr (lit (updated_at j)));
        (lit "current_status", status_json (current_status j))].

Definition url_json (u : option URL) : JSON :=
  match u with
  | Some u => JStr (lit (href u))
  | None => JNull
  end.

Definition page_json (p : Page) : JSON :=
  JObj [(lit "count", JNum (count p) 0);
        (lit "next", url_json (next p));
        (lit "previous", url_json (previous p));
        (lit "results", JArr (map job_json (results p)))].

Definition entry_json (e : JobStatusEntry) : JSON :=
  JObj [(lit "id", JNum (entry_id e) 0);
        (lit "status_type", status_json (Some (entry_status_type e)));
        (lit "timestamp", JStr (lit (timestamp e)))].

(** *** Reading JSON at the types of [types.ts] *)

Definition as_Z (v : option JSON) : Z :=
  match v with
  | Some (JNum m e) => m * 10 ^ e
  | _ => 0
  end.

Definition as_text (v : option JSON) : text :=
  match v with
  | Some (JStr t) => t
  | _ => []
  end.

Definition as_status (v : option JSON) : option StatusType :=
  match v with
  | Some (JStr t) => status_of_string (unlit t)
  | _ => None
  end.

(** The separators of a URL and its query: [?], [&] and [=]. *)
Definition question_mark : Ascii.ascii := Ascii.ascii_of_nat 63.
Definition ampersand : Ascii.ascii := Ascii.ascii_of_nat 38.
Definition equals_sign : Ascii.ascii := Ascii.ascii_of_nat 61.

Fixpoint split (sep : Ascii.ascii) (s : string) : list string :=
  match s with
  | EmptyString => [EmptyString]
  | String c s' =>
      if Ascii.eqb c sep then EmptyString :: split sep s'
      else match split sep s' with
           | w :: ws => String c w :: ws
           | [] => [String c EmptyString]
           end
  end.

(** [new URL(s)]: the entries of the query, the part behind the first [?]. *)
Definition parse_url (s : string) : URL :=
  {| href := s;
     searchParams :=
       match split question_mark s with
       | _ :: q :: _ =>
           map (fun kv => match split equals_sign kv with
                          | k :: v :: _ => (k, v)
                          | k :: [] => (k, EmptyString)
                          | [] => (EmptyString, EmptyString)
                          end)
               (split ampersand q)
       | _ => []
       end |}.

Definition as_url (v : option JSON) : option URL :=
  match v with
  | Some (JStr t) => Some (parse_url (unlit t))
  | _ => None
  end.

Definition asJob (v : JSON) : Job :=
  {| id := as_Z (member v (lit "id"));
     name := as_text (member v (lit "name"));
     created_at := unlit (as_text (member v (lit "created_at")));
     updated_at := unlit (as_text (member v (lit "updated_at")));
     current_status := as_status (member v (lit "current_status")) |}.

Definition asPage (v : JSON) : Page :=
  {| count := as_Z (member v (lit "count"));
     next := as_url (member v (lit "next"));
     previous := as_url (member v (lit "previous"));
     results :=
       match member v (lit "results") with
       | Some (JArr items) => map asJob items
       | _ => []
       end |}.

Definition asEntry (v : JSON) : JobStatusEntry :=
  {| entry_id := as_Z (member v (lit "id"));
     entry_status_type := default PENDING (as_status (member v (lit "status_type")));
     timestamp := unlit (as_text (member v (lit "timestamp"))) |}.

Definition asHistory (v : JSON) : list JobStatusEntry :=
  match v with
  | JArr items => map asEntry items
  | _ => []
  end.

(** *** Reading the request *)

Definition filter_of (status : option string) : option FilterValue :=
  match status with
  | None => Some ALL
  | Some s => Only <$> status_of_string s
  end.

Definition sort_of (sort : option string) : option SortValue :=
  match sort with
  | None => Some newest
  | Some s => List.find (fun v => bool_decide (SortValue_str v = s))
                [newest; oldest; name_asc; name_desc]
  end.

Definition page_number (page : option string) : option Z :=
  match page with
  | None => Some 1
  | Some s => decimal s 0
  end.

Definition answer (code : Z) (v : JSON) : Promise Response JSError :=
  Resolved {| Api.status := code; json := Some v |}.

Definition not_found : Promise Response JSError :=
  answer 404 (JObj [(lit "detail", JStr (lit "Not found."))]).

(** The table of the backend: the jobs, and the status log of each. *)
Record Table := {
  jobs : list Job;
  history : Z -> list JobStatusEntry
}.

Definition serve (t : Table) (req : Request) : Promise Response JSError :=
  match method req, path req with
  | GET, ["/api"; "jobs"] =>
      match filter_of (params_get "status" (query req)),
            sort_of (params_get "sort" (query req)),
            page_number (params_get "page" (query req)) with
      | Some f, Some s, Some n =>
          match QueryEngine.list_ (jobs t) f s n with
          | Some p => answer 200 (page_json p)
          | None => answer 400 (JObj [(lit "detail", JStr (lit "Invalid page."))])
          end
      | _, _, _ => answer 400 (JObj [(lit "detail", JStr (lit "Invalid query."))])
      end
  | GET, ["/api"; "jobs"; i; "history"] =>
      match decimal i 0 with
      | Some n =>
          if bool_decide (n ∈ map id (jobs t))
          then answer 200 (JArr (map entry_json (history t n)))
          else not_found
      | None => not_found
      end
  | _, _ => not_found
  end.

(** Twenty-one jobs: twenty pending ones and an older one that is running
    and has a status log of two entries. *)
Definition table : Table :=
  {| jobs := running_job :: pending_jobs;
     history := fun n =>
       if n =? 1
       then [ {| entry_id := 1; entry_status_type := PENDING;
                 timestamp := "2024-01-01T00:00:00Z" |};
              {| entry_id := 22; entry_status_type := RUNNING;
                 timestamp := "2024-01-03T00:00:00Z" |} ]
       else [ {| entry_id := n; entry_status_type := PENDING;
                 timestamp := "2024-01-02T00:00:00Z" |} ] |}.

End Backend.

(* ===================================================================== *)
(** * Part II. Lemmas and theorems                                        *)
(* ===================================================================== *)

(** ** Trimming *)

Section Trim.
Import JS.

Lemma trimStart_nil_iff (s : text) :
  trimStart s = [] <-> forallb isWhiteSpace s = true.
Proof.
  induction s as [|c s IH]; simpl; [tauto|].
  destruct (isWhiteSpace c); simpl; [exact IH|].
  split; discriminate.
Qed.

Lemma trimStart_head (s : text) (c : N) (s' : text) :
  trimStart s = c :: s' -> isWhiteSpace c = false.
Proof.
  induction s as [|d s IH]; simpl; [discriminate|].
  destruct (isWhiteSpace d) eqn:E; [exact IH|].
  intros [= <- _]. exact E.
Qed.

Lemma trimStart_idem (s : text) : trimStart (trimStart s) = trimStart s.
Proof.
  destruct (trimStart s) as [|c s'] eqn:E; [reflexivity|].
  simpl. by rewrite (trimStart_head _ _ _ E).
Qed.

Lemma forallb_reverse {A} (f : A -> bool) (l : list A) :
  forallb f (reverse l) = forallb f l.
Proof.
  induction l as [|x l IH]; [reflexivity|].
  rewrite reverse_cons, forallb_app, IH. simpl.
  rewrite andb_true_r. apply andb_comm.
Qed.

Lemma reverse_nil_iff {A} (l : list A) : reverse l = [] <-> l = [].
Proof.
  split; [|intros ->; reflexivity].
  intros E. apply (f_equal reverse) in E.
  by rewrite reverse_involutive in E.
Qed.

(** Trimming leaves nothing exactly when every code unit is white space. *)
Lemma trim_nil_iff (s : text) :
  trim s = [] <-> forallb isWhiteSpace s = true.
Proof.
  unfold trim, trimEnd.
  rewrite reverse_nil_iff, trimStart_nil_iff, forallb_reverse.
  rewrite <- trimStart_nil_iff, trimStart_idem.
  apply trimStart_nil_iff.
Qed.

Lemma truthy_false_iff (s : text) : truthy s = false <-> s = [].
Proof. destruct s; simpl; split; congruence. Qed.

End Trim.

(** ** The create form *)

Section CreateJobFormFacts.
Import JS Types CreateJobForm.

(** C3. Submitting the create form with a name that is empty or consists of
    white space only sets the message 'Job name cannot be empty' and does not
    call [mutate], so [createJob] is not invoked and no request is made;
    with any other name the message is cleared and [createJob] receives the
    trimmed name.  A name trims to nothing exactly when all its code units
    are white space. *)
Theorem handleSubmit_validates (st : State) :
  (trim (name st) = [] <-> forallb isWhiteSpace (name st) = true) /\
  (trim (name st) = [] ->
     handleSubmit st =
       ({| name := name st; validationError := "Job name cannot be empty" |}, None)) /\
  (trim (name st) <> [] ->
     handleSubmit st =
       ({| name := name st; validationError := "" |},
        Some {| payload_name := trim (name st) |})).
Proof.
  split; [apply trim_nil_iff|].
  unfold handleSubmit.
  destruct (truthy (trim (name st))) eqn:E; simpl.
  - split; [|reflexivity].
    intros E'. rewrite E' in E. discriminate.
  - apply truthy_false_iff in E. split; [reflexivity|congruence].
Qed.

Lemma handleSubmit_validates_witness :
  handleSubmit {| name := lit "   "; validationError := "" |} =
    ({| name := lit "   "; validationError := "Job name cannot be empty" |}, None) /\
  handleSubmit {| name := lit " Test Job "; validationError := "Job name cannot be empty" |} =
    ({| name := lit " Test Job "; validationError := "" |},
     Some {| payload_name := lit "Test Job" |}).
Proof.
  split.
  - apply (handleSubmit_validates {| name := lit "   "; validationError := "" |}).
    reflexivity.
  - apply (handleSubmit_validates
             {| name := lit " Test Job "; validationError := "Job name cannot be empty" |}).
    vm_compute. discriminate.
Defined.

(** Typing clears the message. *)
Lemma onChange_clears (v : text) (st : State) :
  validationError (onChange v st) = "".
Proof.
  unfold onChange. simpl. case_bool_decide as E; [reflexivity|].
  destruct (decide (validationError st = "")); [assumption|contradiction].
Qed.

End CreateJobFormFacts.

(** ** The job card *)

Section JobCardFacts.
Import JS Types Api Query JobCard.
Context `{Platform}.

Lemma options_spec (job : Job) (s : StatusType) showHistory history um dm :
  In s (options (render job showHistory history um dm)) <->
  Some s <> current_status job.
Proof.
  unfold render; cbn [options].
  rewrite filter_In, negb_true_iff, bool_decide_eq_false.
  split; [tauto|]. intros Hs. split; [|exact Hs].
  unfold ALL_STATUSES. destruct s; simpl; tauto.
Qed.

(** C10. For every job, also one whose [current_status] is [null], the card
    is rendered ([render] is a total function): the badge is there exactly
    when [current_status] is not [null], and the select offers exactly the
    statuses of [ALL_STATUSES] other than the current one, in the order of
    [ALL_STATUSES] and each once; all four when there is no current status,
    and never the current status itself. *)
Theorem JobCard_badge_and_options (job : Job) (showHistory : bool)
    (history : QueryResult) (um dm : MutationResult) :
  let v := render job showHistory history um dm in
  (is_Some (badge v) <-> is_Some (current_status job)) /\
  (forall s, In s (options v) <-> In s ALL_STATUSES /\ Some s <> current_status job) /\
  options v =
    List.filter (fun s => negb (bool_decide (Some s = current_status job))) ALL_STATUSES /\
  NoDup (options v) /\
  (current_status job = None -> options v = ALL_STATUSES) /\
  (forall s, current_status job = Some s -> ~ In s (options v)).
Proof.
  intros v. subst v. unfold render; cbn [options badge].
  split; [|split; [|split; [|split; [|split]]]].
  - destruct (current_status job); split; intros [x Hx]; eauto; discriminate.
  - intros s. rewrite filter_In, negb_true_iff, bool_decide_eq_false. tauto.
  - reflexivity.
  - apply NoDup_ListNoDup, List.NoDup_filter.
    unfold ALL_STATUSES. repeat constructor; simpl; intuition discriminate.
  - intros E. rewrite E. reflexivity.
  - intros s E. rewrite filter_In, negb_true_iff, bool_decide_eq_false.
    intros [_ Hne]. congruence.
Qed.

Lemma JobCard_badge_and_options_witness :
  options (render (Sample.job 1 "Fluid Dynamics" "2024-01-01T00:00:00Z" None) false
             {| query_data := None; query_isLoading := false |}
             idleMutation idleMutation) = ALL_STATUSES /\
  ~ In PENDING
      (options (render (Sample.job 1 "Fluid Dynamics" "2024-01-01T00:00:00Z" (Some PENDING))
                  false {| query_data := None; query_isLoading := false |}
                  idleMutation idleMutation)).
Proof.
  split.
  - apply (JobCard_badge_and_options
             (Sample.job 1 "Fluid Dynamics" "2024-01-01T00:00:00Z" None)).
    reflexivity.
  - apply (JobCard_badge_and_options
             (Sample.job 1 "Fluid Dynamics" "2024-01-01T00:00:00Z" (Some PENDING))
             false {| query_data := None; query_isLoading := false |}
             idleMutation idleMutation).
    reflexivity.
Defined.

Variable fetch : Request -> Promise Response JSError.
Variable asHistory : JSON -> list JobStatusEntry.

Lemma drop1_length {A} (l : list A) :
  (0 < List.length (drop 1 l))%nat <-> (1 < List.length l)%nat.
Proof. rewrite length_drop. lia. Qed.

(** C9. Of a history as the backend returns it, oldest first, the open
    panel leaves out the first entry and lists the others in reverse, newest
    first; it says 'No status changes yet.' exactly when the history has at
    most one entry.  The request for the history is made only with the panel
    open: the query is enabled by [showHistory], and a closed card reads
    nothing. *)
Theorem history_panel_lists_changes (job : Job) (h : list JobStatusEntry) :
  let fetched := {| query_data := Some h; query_isLoading := false |} in
  render_history true fetched =
    Some (if bool_decide (List.length h <= 1)%nat
          then NoStatusChanges
          else HistoryList (reverse (drop 1 h))) /\
  (render_history true fetched = Some NoStatusChanges <->
     (List.length h <= 1)%nat) /\
  (forall showHistory now staleTime c,
     shouldFetch now staleTime (historyQuery fetch asHistory job showHistory) c = true ->
     showHistory = true) /\
  (forall now staleTime c,
     readQuery now staleTime (historyQuery fetch asHistory job false) c = c).
Proof.
  intros fetched. subst fetched. unfold render_history; cbn [query_isLoading query_data].
  assert (E : bool_decide (0 < List.length (drop 1 h))%nat
              = negb (bool_decide (List.length h <= 1)%nat)).
  { rewrite length_drop. repeat case_bool_decide; simpl; try reflexivity; lia. }
  rewrite E. clear E.
  split; [|split; [|split]].
  - destruct (bool_decide (List.length h <= 1)%nat); reflexivity.
  - destruct (bool_decide (List.length h <= 1)%nat) eqn:Hle; simpl.
    + apply bool_decide_eq_true in Hle. tauto.
    + apply bool_decide_eq_false in Hle. split; [discriminate|tauto].
  - intros showHistory now staleTime c. unfold shouldFetch; cbn [enabled historyQuery].
    destruct showHistory; [reflexivity|discriminate].
  - intros now staleTime c. reflexivity.
Qed.

End JobCardFacts.

Section HistoryExample.
Import JS Types Api Query JobCard.
#[local] Existing Instance Sample.platform.

Lemma history_panel_lists_changes_witness :
  let pending_entry :=
    {| entry_id := 1; entry_status_type := PENDING; timestamp := "2024-01-01T00:00:00Z" |} in
  let running_entry :=
    {| entry_id := 2; entry_status_type := RUNNING; timestamp := "2024-01-02T00:00:00Z" |} in
  let failed_entry :=
    {| entry_id := 3; entry_status_type := FAILED; timestamp := "2024-01-03T00:00:00Z" |} in
  render_history true
    {| query_data := Some [pending_entry; running_entry; failed_entry];
       query_isLoading := false |}
    = Some (HistoryList [failed_entry; running_entry]) /\
  render_history true {| query_data := Some [pending_entry]; query_isLoading := false |}
    = Some NoStatusChanges /\
  shouldFetch 0 30000
    (historyQuery Sample.offline (fun _ => []) (Sample.job 1 "Job" "" None) true) ∅ = true.
Proof.
  intros pending_entry running_entry failed_entry.
  split; [|split].
  - exact (proj1 (history_panel_lists_changes Sample.offline (fun _ => [])
                    (Sample.job 1 "Job" "" None)
                    [pending_entry; running_entry; failed_entry])).
  - apply (history_panel_lists_changes Sample.offline (fun _ => [])
             (Sample.job 1 "Job" "" None) [pending_entry]).
    simpl. lia.
  - reflexivity.
Defined.

End HistoryExample.

(** ** The API layer *)

Section ApiFacts.
Import JS Types Api.

Lemma coalesce_present (res : Response) (k : string) (b : JSON) :
  coalesce (opt_member (default JNull (json res)) (lit k)) b =
  default b (Spec.present res k).
Proof.
  unfold Spec.present. destruct (json res) as [body|]; simpl.
  - destruct (opt_member body (lit k)) as [[]|]; reflexivity.
  - reflexivity.
Qed.

(** The message of a rejection: [body.error] when present, else
    [body.detail] when present, else the generic text ending in the status
    code. *)
Lemma error_message_spec (prefix : string) (res : Response) :
  error_message prefix res =
  match Spec.present res "error" with
  | Some v => v
  | None =>
      match Spec.present res "detail" with
      | Some v => v
      | None => JStr (lit (String.append prefix (pretty (status res))))
      end
  end.
Proof.
  unfold error_message. rewrite !coalesce_present.
  destruct (Spec.present res "error"); [reflexivity|].
  destruct (Spec.present res "detail"); reflexivity.
Qed.

(** C8, counterexample. A response with status 200 whose body is not JSON
    is 2xx, and yet the promise of [handleResponse] rejects: "rejects if and
    only if the response is non-2xx" fails. *)
Lemma handleResponse_rejects_unparsable_2xx :
  let res := {| status := 200; json := None |} in
  ok res = true /\
  handleResponse (fun v => v) res = Rejected SyntaxError_ /\
  ~ Spec.rejects_iff_not_ok (handleResponse (fun v => v)).
Proof.
  intros res. split; [reflexivity|]. split; [reflexivity|].
  intros Hiff. specialize (Hiff res). discriminate.
Qed.

(** C8, amended. For every response, the promise of [handleResponse]
    rejects if and only if the response is non-2xx or its body is not valid
    JSON, and the promise of [deleteJob] if and only if the response is
    non-2xx.  On a non-2xx response the rejection is an [Error] whose
    message is [body.error] when present, else [body.detail] when present,
    else a generic text that ends in the status code.  On a 2xx response
    [handleResponse] resolves with the parsed body (and rejects with the
    parse error when there is none) and [deleteJob] resolves with no value.
    No failure is swallowed. *)
Theorem api_promise_settles {T} (cast : JSON -> T) (res : Response) :
  (isRejected (handleResponse cast res) = true <-> ok res = false \/ json res = None) /\
  isRejected (deleteJob_response res) = negb (ok res) /\
  (ok res = false ->
     handleResponse cast res =
       Rejected (Error_ (error_message "Request failed with status " res)) /\
     deleteJob_response res =
       Rejected (Error_ (error_message "Delete failed with status " res))) /\
  (ok res = true ->
     handleResponse cast res =
       match json res with
       | Some v => Resolved (cast v)
       | None => Rejected SyntaxError_
       end /\
     deleteJob_response res = Resolved ()) /\
  (forall prefix,
     error_message prefix res =
     match Spec.present res "error" with
     | Some v => v
     | None =>
         match Spec.present res "detail" with
         | Some v => v
         | None => JStr (lit (String.append prefix (pretty (status res))))
         end
     end).
Proof.
  unfold handleResponse, deleteJob_response.
  split; [|split; [|split; [|split]]].
  - destruct (ok res); simpl.
    + destruct (json res); simpl; split; try tauto; try discriminate.
      intros [|]; discriminate.
    + split; [tauto|reflexivity].
  - destruct (ok res); reflexivity.
  - intros ->. split; reflexivity.
  - intros ->. split; reflexivity.
  - intros prefix. apply error_message_spec.
Qed.

Lemma api_promise_settles_witness :
  let not_found :=
    {| status := 404;
       json := Some (JObj [(lit "detail", JStr (lit "No Job matches the given query."))]) |} in
  handleResponse (fun v => v) not_found =
    Rejected (Error_ (JStr (lit "No Job matches the given query."))) /\
  deleteJob_response {| status := 502; json := None |} =
    Rejected (Error_ (JStr (lit "Delete failed with status 502"))) /\
  handleResponse (fun v => v) {| status := 200; json := Some (JArr []) |} =
    Resolved (JArr []).
Proof.
  intros not_found. split; [|split].
  - apply (api_promise_settles (fun v => v) not_found). reflexivity.
  - apply (api_promise_settles (fun v : JSON => v) {| status := 502; json := None |}).
    reflexivity.
  - apply (api_promise_settles (fun v => v) {| status := 200; json := Some (JArr []) |}).
    reflexivity.
Defined.

Section Calls.
Context `{Platform}.
Variable fetch : Request -> Promise Response JSError.

(** Each call answers what its handler makes of the response, and rejects
    when the network does. *)
Lemma createJob_settles asJob (p : CreateJobPayload) :
  createJob fetch asJob p =
  match fetch (createJob_request p) with
  | Resolved res => handleResponse asJob res
  | Rejected e => Rejected e
  end.
Proof. reflexivity. Qed.

Lemma deleteJob_settles (id : Z) :
  deleteJob fetch id =
  match fetch (deleteJob_request id) with
  | Resolved res => deleteJob_response res
  | Rejected e => Rejected e
  end.
Proof. reflexivity. Qed.

(** [fetchJobs] sends [status] exactly when the filter is not ['ALL'], next
    to [page] and [sort]. *)
Lemma fetchJobs_request_query (a : FetchJobsArgs) :
  query (fetchJobs_request a) =
  [("page", String_ (pageParam a)); ("sort", arg_sort a)] ++
  (if bool_decide (arg_filter a = "ALL") then [] else [("status", arg_filter a)]).
Proof.
  unfold fetchJobs_request; cbn [query].
  repeat case_bool_decide; try contradiction; reflexivity.
Qed.

End Calls.

End ApiFacts.

(** ** Sorting with a consistent comparator *)

Section SortFacts.
Import ArraySort.
Context {A : Type} (cmp : A -> A -> Z) `{!Consistent cmp}.

Lemma cmp_zero_sym (a b : A) : cmp a b = 0 -> cmp b a = 0.
Proof.
  intros E.
  pose proof (cmp_antisym a b) as H1. pose proof (cmp_antisym b a) as H2. lia.
Qed.

Lemma cmp_total (a b : A) : 0 < cmp a b -> cmp b a <= 0.
Proof. intros Hlt. apply cmp_antisym in Hlt. lia. Qed.

Lemma insert_perm (x : A) (l : list A) : Permutation (x :: l) (insert cmp x l).
Proof.
  induction l as [|y l IH]; simpl; [reflexivity|].
  destruct (0 <? cmp x y); [|reflexivity].
  rewrite <- IH. apply perm_swap.
Qed.

Lemma sort_perm (l : list A) : Permutation l (sort cmp l).
Proof.
  induction l as [|x l IH]; simpl; [reflexivity|].
  rewrite <- insert_perm. by constructor.
Qed.

Lemma insert_sorted (x : A) (l : list A) :
  StronglySorted (fun a b => cmp a b <= 0) l ->
  StronglySorted (fun a b => cmp a b <= 0) (insert cmp x l).
Proof.
  induction 1 as [|y l Hs IH Hall]; simpl.
  - repeat constructor.
  - destruct (0 <? cmp x y) eqn:E.
    + apply Z.ltb_lt in E. constructor; [exact IH|].
      rewrite <- insert_perm. constructor; [|exact Hall].
      by apply cmp_total.
    + apply Z.ltb_ge in E. constructor; [by constructor|].
      constructor; [exact E|].
      eapply List.Forall_impl; [|exact Hall].
      intros z Hz. by apply (cmp_trans x y z).
Qed.

Lemma sort_sorted (l : list A) : StronglySorted (fun a b => cmp a b <= 0) (sort cmp l).
Proof.
  induction l as [|x l IH]; simpl; [constructor|]. by apply insert_sorted.
Qed.

(** Stability: the jobs equal to [x] under the comparator stand in the
    output as they stood in the input. *)
Lemma insert_stable (x a : A) (l : list A) :
  List.filter (fun y => cmp x y =? 0) (insert cmp a l) =
  List.filter (fun y => cmp x y =? 0) (a :: l).
Proof.
  induction l as [|y l IH]; [reflexivity|].
  cbn [insert]. destruct (0 <? cmp a y) eqn:E; [|reflexivity].
  apply Z.ltb_lt in E.
  cbn [List.filter] in *. rewrite IH.
  destruct (cmp x y =? 0) eqn:Ey; destruct (cmp x a =? 0) eqn:Ea; try reflexivity.
  exfalso. apply Z.eqb_eq in Ey, Ea.
  apply cmp_zero_sym in Ea.
  assert (cmp a y <= 0) by (apply (cmp_trans a x y); lia). lia.
Qed.

Lemma sort_stable (x : A) (l : list A) :
  List.filter (fun y => cmp x y =? 0) (sort cmp l) =
  List.filter (fun y => cmp x y =? 0) l.
Proof.
  induction l as [|a l IH]; [reflexivity|].
  cbn [sort foldr]. change (foldr (insert cmp) [] l) with (sort cmp l).
  rewrite insert_stable. cbn [List.filter]. by rewrite IH.
Qed.

End SortFacts.

(** ** The list that filters and sorts in memory *)

Section JobListMemFacts.
Import JS Types Api Query JobList JobListMem.
Context `{Platform}.

Lemma localeCompare_zero_sym `{!Consistent localeCompare} (a b : text) :
  (localeCompare a b =? 0) = (localeCompare b a =? 0).
Proof.
  destruct (Z.eqb_spec (localeCompare a b) 0) as [E|E];
    destruct (Z.eqb_spec (localeCompare b a) 0) as [E'|E']; try reflexivity;
    exfalso; [apply E'|apply E]; by apply (cmp_zero_sym localeCompare).
Qed.

#[local] Instance comparator_consistent `{!Consistent localeCompare} (s : SortValue) :
  Consistent (comparator s).
Proof.
  destruct s; split; unfold comparator; intros; try lia.
  - apply cmp_antisym.
  - by apply (cmp_trans (name a) (name b) (name c)).
  - apply cmp_antisym.
  - by apply (cmp_trans (name c) (name b) (name a)).
Qed.

Lemma comparator_in_order (s : SortValue) (a b : Job) :
  comparator s a b <= 0 <-> Spec.in_order s a b.
Proof. destruct s; unfold comparator, Spec.in_order; lia. Qed.

Lemma comparator_tied `{!Consistent localeCompare} (s : SortValue) (a b : Job) :
  (comparator s a b =? 0) = Spec.tied s a b.
Proof.
  destruct s; unfold comparator, Spec.tied;
    try apply localeCompare_zero_sym; try reflexivity.
  - destruct (Z.eqb_spec (Date_getTime (created_at b) - Date_getTime (created_at a)) 0);
      destruct (Z.eqb_spec (Date_getTime (created_at a)) (Date_getTime (created_at b)));
      try reflexivity; lia.
  - destruct (Z.eqb_spec (Date_getTime (created_at a) - Date_getTime (created_at b)) 0);
      destruct (Z.eqb_spec (Date_getTime (created_at a)) (Date_getTime (created_at b)));
      try reflexivity; lia.
Qed.

(** What the component shows is the loaded jobs, filtered, then sorted. *)
Lemma render_cards (st : State) (r : InfiniteQueryResult) :
  isLoading r = false -> isError r = false ->
  cards (render st r) = sorted (sort st) (filtered (filter st) (jobs_of r)).
Proof.
  intros Hl He. unfold render. rewrite Hl, He.
  destruct (jobs_of r) as [|j jobs] eqn:Ej.
  - destruct (filter st); reflexivity.
  - cbn [cards]. destruct (sorted _ _); reflexivity.
Qed.

Lemma filtered_In (f : FilterValue) (jobs : list Job) (j : Job) :
  In j (filtered f jobs) <->
  In j jobs /\ match f with ALL => True | Only s => current_status j = Some s end.
Proof.
  destruct f as [|s]; simpl; [tauto|].
  rewrite filter_In, bool_decide_eq_true. tauto.
Qed.

(** C2, amended. The in-memory list shows the loaded jobs that pass the
    filter, rearranged: [newest] by [created_at] descending, [oldest] by
    [created_at] ascending, [name_asc] and [name_desc] by name in the order
    of [localeCompare], ascending and descending; jobs that compare equal
    under the chosen key keep the order in which they were loaded.  The
    order is thus determined by the sequence of loaded jobs (not by the
    set). *)
Theorem sorted_by_key_stable `{!Consistent localeCompare}
    (s : SortValue) (jobs : list Job) :
  Permutation jobs (sorted s jobs) /\
  StronglySorted (Spec.in_order s) (sorted s jobs) /\
  (forall x, List.filter (Spec.tied s x) (sorted s jobs) = List.filter (Spec.tied s x) jobs) /\
  (forall st r, isLoading r = false -> isError r = false ->
     cards (render st r) = sorted (sort st) (filtered (filter st) (jobs_of r))).
Proof.
  split; [|split; [|split]].
  - apply sort_perm.
  - pose proof (sort_sorted (comparator s) jobs) as Hs.
    unfold sorted. induction Hs as [|a l Hs IH Hall]; constructor; [exact IH|].
    eapply List.Forall_impl; [|exact Hall].
    intros b. apply comparator_in_order.
  - intros x. unfold sorted.
    rewrite <- (List.filter_ext _ _ (comparator_tied s x) jobs).
    rewrite <- (List.filter_ext _ _ (comparator_tied s x) (ArraySort.sort _ jobs)).
    apply sort_stable. apply _.
  - apply render_cards.
Qed.

End JobListMemFacts.

(** ** The sample platform is a platform [sort] can work with *)

Section SampleFacts.
Import JS Sample.

Lemma compare_text_antisym (a b : text) :
  compare_text a b < 0 <-> 0 < compare_text b a.
Proof.
  revert b. induction a as [|x a IH]; intros [|y b]; simpl; try lia.
  destruct (N.ltb_spec x y), (N.ltb_spec y x); try lia. apply IH.
Qed.

Lemma compare_text_trans (a b c : text) :
  compare_text a b <= 0 -> compare_text b c <= 0 -> compare_text a c <= 0.
Proof.
  revert b c. induction a as [|x a IH]; intros [|y b] [|z c]; simpl; try lia.
  destruct (N.ltb_spec x y), (N.ltb_spec y x), (N.ltb_spec y z), (N.ltb_spec z y),
    (N.ltb_spec x z), (N.ltb_spec z x); try lia.
  apply IH.
Qed.

#[local] Instance compare_text_consistent : Consistent compare_text.
Proof. split; [apply compare_text_antisym|apply compare_text_trans]. Qed.

End SampleFacts.

Section JobListMemExamples.
Import JS Types Api Query JobList JobListMem Sample.
#[local] Existing Instance Sample.platform.
#[local] Existing Instance compare_text_consistent.

(** C2, counterexample. Two jobs created in the same instant arrive with
    the larger id first; sorted [newest], they are shown in that order, so
    the tie is not broken by id ascending. *)
Lemma ties_keep_loaded_order :
  Spec.tied newest twin_a twin_b = true /\
  id twin_b < id twin_a /\
  sorted newest [twin_a; twin_b] = [twin_a; twin_b] /\
  ~ Spec.ties_by_id newest (sorted newest [twin_a; twin_b]).
Proof.
  split; [reflexivity|]. split; [reflexivity|]. split; [reflexivity|].
  intros Hties.
  specialize (Hties 0%nat 1%nat twin_a twin_b eq_refl eq_refl).
  assert (id twin_a < id twin_b) as Hlt by (apply Hties; [lia|reflexivity]).
  vm_compute in Hlt. discriminate.
Qed.

Lemma sorted_by_key_stable_witness :
  let alpha := job 1 "alpha" "2024-01-01T00:00:00Z" (Some PENDING) in
  let beta := job 2 "beta" "2024-01-03T00:00:00Z" (Some RUNNING) in
  let gamma := job 3 "gamma" "2024-01-02T00:00:00Z" (Some FAILED) in
  Permutation [alpha; beta; gamma] (sorted newest [alpha; beta; gamma]) /\
  StronglySorted (Spec.in_order name_desc) (sorted name_desc [alpha; beta; gamma]) /\
  sorted newest [alpha; beta; gamma] = [beta; gamma; alpha] /\
  sorted name_desc [alpha; beta; gamma] = [gamma; beta; alpha].
Proof.
  intros alpha beta gamma.
  split; [|split; [|split]].
  - apply (sorted_by_key_stable newest [alpha; beta; gamma]).
  - apply (sorted_by_key_stable name_desc [alpha; beta; gamma]).
  - reflexivity.
  - reflexivity.
Defined.

End JobListMemExamples.

(** ** The query cache *)

Section QueryFacts.
Import JS Types Api Query.
Context `{Platform}.

Lemma partialMatchKey_prefix (key filterKey : QueryKey) :
  partialMatchKey key filterKey = true <-> exists rest, key = filterKey ++ rest.
Proof.
  revert key. induction filterKey as [|f fk IH]; intros key; simpl.
  - split; [intros _; by exists key|reflexivity].
  - destruct key as [|k key]; simpl.
    + split; [discriminate|]. intros [rest [=]].
    + rewrite andb_true_iff, bool_decide_eq_true, IH. split.
      * intros [-> [rest ->]]. eauto.
      * intros [rest [= -> ->]]. eauto.
Qed.

Lemma lookup_invalidateQueries (filterKey : QueryKey) (c : gmap QueryKey QueryState)
    (k : QueryKey) :
  invalidateQueries filterKey c !! k =
  (fun q => if partialMatchKey k filterKey then invalidate q else q) <$> (c !! k).
Proof.
  unfold invalidateQueries. rewrite map_lookup_imap.
  destruct (c !! k); reflexivity.
Qed.

Lemma entry_insert_eq (c : gmap QueryKey QueryState) (k : QueryKey) (q : QueryState) :
  entry (<[k := q]> c) k = q.
Proof. unfold entry. by rewrite lookup_insert_eq. Qed.

Lemma entry_eq (c c' : gmap QueryKey QueryState) (k : QueryKey) :
  c' !! k = c !! k -> entry c' k = entry c k.
Proof. unfold entry. by intros ->. Qed.

Lemma loaded_invalidateQueries (filterKey : QueryKey) (c : gmap QueryKey QueryState)
    (k : QueryKey) :
  loaded (entry (invalidateQueries filterKey c) k) = loaded (entry c k).
Proof.
  unfold entry. rewrite lookup_invalidateQueries.
  destruct (c !! k) as [q|]; [|reflexivity].
  destruct (partialMatchKey k filterKey); reflexivity.
Qed.

Lemma isStale_invalidate (now staleTime : Z) (q : QueryState) :
  isStale now staleTime (invalidate q) = true.
Proof. reflexivity. Qed.

(** A query that was never invalidated and holds data is served from the
    cache until [staleTime] has passed. *)
Lemma isStale_fresh_data (now staleTime : Z) (d : Data) (t : Z) :
  now < t + staleTime -> isStale now staleTime (setData t d) = false.
Proof. intros Hlt. unfold isStale; simpl. apply Z.leb_gt. lia. Qed.

Section InfiniteFacts.
Variable opts : InfiniteOptions.

Lemma fetchPage_resolved acc p r :
  fetchPage opts acc p = Resolved r ->
  exists page, queryFn opts p = Resolved page /\ r = (acc.1 ++ [page], acc.2 ++ [p]).
Proof.
  unfold fetchPage. destruct (queryFn opts p) as [page|e]; simpl; [|discriminate].
  intros [= <-]. eauto.
Qed.

Lemma fetchPage_fresh acc p r :
  fresh opts acc -> fetchPage opts acc p = Resolved r -> fresh opts r.
Proof.
  intros Hf Hr. apply fetchPage_resolved in Hr as (page & Hq & ->).
  unfold fresh in *; simpl. apply Forall2_app; [exact Hf|]. by repeat constructor.
Qed.

Lemma fetchRemaining_fresh n acc r :
  fresh opts acc -> fetchRemaining opts n acc = Resolved r ->
  fresh opts r /\ exists more, r.2 = acc.2 ++ more.
Proof.
  revert acc. induction n as [|n IH]; intros acc Hf; simpl.
  - intros [= <-]. split; [exact Hf|]. exists []. by rewrite app_nil_r.
  - destruct (nextPageParam opts acc.1) as [p|].
    + destruct (fetchPage opts acc p) as [acc'|e] eqn:E; simpl; [|discriminate].
      intros Hr. pose proof (fetchPage_fresh _ _ _ Hf E) as Hf'.
      destruct (IH _ Hf' Hr) as [Hfr [more Hmore]]. split; [exact Hfr|].
      apply fetchPage_resolved in E as (page & _ & ->). simpl in Hmore.
      exists (p :: more). by rewrite Hmore, <- app_assoc.
    + intros [= <-]. split; [exact Hf|]. exists []. by rewrite app_nil_r.
Qed.

(** A refetch builds its result from answers of the backend alone, the
    first of them to the first page parameter. *)
Lemma refetchAll_fresh old pages params :
  refetchAll opts old = Resolved (pages, params) ->
  fresh opts (pages, params) /\
  head params = Some (default (initialPageParam opts) (head old.2)).
Proof.
  unfold refetchAll.
  destruct (fetchPage opts ([], []) _) as [acc|e] eqn:E; simpl; [|discriminate].
  intros Hr.
  assert (fresh opts acc) as Hf by (eapply fetchPage_fresh; [|exact E]; constructor).
  destruct (fetchRemaining_fresh _ _ _ Hf Hr) as [Hfr [more Hmore]].
  split; [exact Hfr|].
  apply fetchPage_resolved in E as (page & _ & ->). simpl in Hmore. by rewrite Hmore.
Qed.

(** Load More puts the answer to the next page parameter behind the pages
    already merged. *)
Lemma fetchNext_resolved acc p page :
  nextPageParam opts acc.1 = Some p -> queryFn opts p = Resolved page ->
  fetchNext opts acc = Resolved (acc.1 ++ [page], acc.2 ++ [p]).
Proof. intros Hn Hq. unfold fetchNext, fetchPage. by rewrite Hn, Hq. Qed.

Lemma loaded_setData now pages params :
  loaded (setData now (InfiniteData pages params)) = (pages, params).
Proof. reflexivity. Qed.

Lemma loaded_invalidate q : loaded (invalidate q) = loaded q.
Proof. reflexivity. Qed.

(** The operations on an infinite query touch the entry of its own key and
    no other. *)
Lemma fetchInfiniteQuery_other now c k :
  k <> queryKey opts -> fetchInfiniteQuery opts now c !! k = c !! k.
Proof. intros Hne. unfold fetchInfiniteQuery. by rewrite lookup_insert_ne. Qed.

Lemma fetchNextPage_other now c k :
  k <> queryKey opts -> fetchNextPage opts now c !! k = c !! k.
Proof. intros Hne. unfold fetchNextPage. by rewrite lookup_insert_ne. Qed.

Lemma readInfiniteQuery_other now staleTime c k :
  k <> queryKey opts -> readInfiniteQuery opts now staleTime c !! k = c !! k.
Proof.
  intros Hne. unfold readInfiniteQuery.
  destruct (isStale _ _ _); [by apply fetchInfiniteQuery_other|reflexivity].
Qed.

(** A key that was never loaded is loaded from the first page on, and that
    page alone. *)
Lemma readInfiniteQuery_absent now staleTime c :
  c !! queryKey opts = None ->
  readInfiniteQuery opts now staleTime c !! queryKey opts =
  Some (match queryFn opts (initialPageParam opts) with
        | Resolved page => setData now (InfiniteData [page] [initialPageParam opts])
        | Rejected e => setError e newQuery
        end).
Proof.
  intros Habs. unfold readInfiniteQuery, fetchInfiniteQuery, entry. rewrite Habs. simpl.
  rewrite lookup_insert_eq. unfold refetchAll, fetchPage. simpl.
  destruct (queryFn opts (initialPageParam opts)); reflexivity.
Qed.

(** The fetch operations keep the first page first. *)
Lemma starts_at_first_page_new : starts_at_first_page opts newQuery.
Proof. split; reflexivity. Qed.

Lemma starts_at_first_page_invalidate q :
  starts_at_first_page opts q -> starts_at_first_page opts (invalidate q).
Proof. intros Hq. exact Hq. Qed.

Lemma starts_at_first_page_refetch now q :
  starts_at_first_page opts q ->
  starts_at_first_page opts (settle now q (refetchAll opts (loaded q))).
Proof.
  intros [Hlen Hhead].
  destruct (refetchAll opts (loaded q)) as [[pages params]|e] eqn:E; simpl.
  - apply refetchAll_fresh in E as [Hf Hh]. split; simpl.
    + apply (Forall2_length _ _ _ Hf).
    + rewrite Hh. simpl. exact Hhead.
  - split; assumption.
Qed.

Lemma starts_at_first_page_next now q :
  starts_at_first_page opts q ->
  starts_at_first_page opts (settle now q (fetchNext opts (loaded q))).
Proof.
  intros [Hlen Hhead]. unfold fetchNext.
  destruct (loaded q) as [pages params] eqn:El. simpl in *.
  destruct (nextPageParam opts pages) as [p|] eqn:En; simpl.
  - unfold fetchPage. destruct (queryFn opts p) as [page|e]; simpl.
    + split; simpl.
      * rewrite !length_app, Hlen. reflexivity.
      * destruct params as [|p0 params]; [|exact Hhead].
        destruct pages; [discriminate En|discriminate Hlen].
    + unfold starts_at_first_page, loaded in *. simpl. unfold loaded in El.
      rewrite El. split; assumption.
  - split; assumption.
Qed.

(** A fetch without direction asks for the first stored page parameter
    first, and builds on the answer alone. *)
Lemma refetchAll_from_first old :
  refetchAll opts old =
  then_ (queryFn opts (default (initialPageParam opts) (head old.2)))
    (fun page =>
       fetchRemaining opts (pred (List.length old.1))
         ([page], [default (initialPageParam opts) (head old.2)])).
Proof.
  unfold refetchAll, fetchPage.
  destruct (queryFn opts _); reflexivity.
Qed.

Lemma chained_one page p : chained opts ([page], [p]).
Proof. intros [|i] pg q; simpl; [discriminate|]. by destruct i. Qed.

Lemma chained_snoc acc page p :
  List.length acc.1 = List.length acc.2 -> chained opts acc ->
  nextPageParam opts acc.1 = Some p ->
  chained opts (acc.1 ++ [page], acc.2 ++ [p]).
Proof.
  destruct acc as [pages params]; simpl. intros Hlen Hc Hn i pg q Hpg Hq. simpl in *.
  destruct (decide (S i < List.length params)%nat) as [Hlt|Hge].
  - rewrite lookup_app_l in Hq by exact Hlt.
    rewrite lookup_app_l in Hpg by lia. by apply (Hc i pg q).
  - apply lookup_lt_Some in Hq as Hi. rewrite length_app in Hi. simpl in Hi.
    assert (S i = List.length params) as Ei by lia.
    rewrite Ei, list_lookup_middle in Hq by reflexivity. injection Hq as <-.
    rewrite lookup_app_l in Hpg by lia.
    unfold nextPageParam in Hn. rewrite last_lookup, Hlen, <- Ei in Hn. simpl in Hn.
    rewrite Hpg in Hn. exact Hn.
Qed.

Lemma fetchPage_chained acc p r :
  List.length acc.1 = List.length acc.2 -> chained opts acc ->
  nextPageParam opts acc.1 = Some p -> fetchPage opts acc p = Resolved r ->
  chained opts r /\ List.length r.1 = List.length r.2.
Proof.
  intros Hlen Hc Hn Hr. apply fetchPage_resolved in Hr as (page & _ & ->). split.
  - by apply chained_snoc.
  - simpl. rewrite !length_app, Hlen. reflexivity.
Qed.

Lemma fetchRemaining_chained n acc r :
  List.length acc.1 = List.length acc.2 -> chained opts acc ->
  fetchRemaining opts n acc = Resolved r ->
  chained opts r /\ List.length r.1 = List.length r.2.
Proof.
  revert acc. induction n as [|n IH]; intros acc Hlen Hc; simpl.
  - intros [= <-]. by split.
  - destruct (nextPageParam opts acc.1) as [p|] eqn:En.
    + destruct (fetchPage opts acc p) as [acc'|e] eqn:E; simpl; [|discriminate].
      destruct (fetchPage_chained _ _ _ Hlen Hc En E) as [Hc' Hlen'].
      by apply IH.
    + intros [= <-]. by split.
Qed.

Lemma fetchRemaining_extends n acc r :
  fetchRemaining opts n acc = Resolved r ->
  exists pages params, r = (acc.1 ++ pages, acc.2 ++ params).
Proof.
  revert acc. induction n as [|n IH]; intros acc; simpl.
  - intros [= <-]. exists [], []. rewrite !app_nil_r. by destruct acc.
  - destruct (nextPageParam opts acc.1) as [p|].
    + destruct (fetchPage opts acc p) as [acc'|e] eqn:E; simpl; [|discriminate].
      intros Hr. destruct (IH _ Hr) as (ps & qs & ->).
      apply fetchPage_resolved in E as (page & _ & ->). simpl.
      exists (page :: ps), (p :: qs). by rewrite <- !app_assoc.
    + intros [= <-]. exists [], []. rewrite !app_nil_r. by destruct acc.
Qed.

(** The pages a refetch loads: as many as were loaded before, fewer only
    when the backend's last answer links to no further page, and one when
    none was loaded. *)
Lemma fetchRemaining_length n acc r :
  fetchRemaining opts n acc = Resolved r ->
  (List.length acc.1 <= List.length r.1 <= List.length acc.1 + n)%nat /\
  ((List.length r.1 < List.length acc.1 + n)%nat -> nextPageParam opts r.1 = None).
Proof.
  revert acc. induction n as [|n IH]; intros acc; simpl.
  - intros [= <-]. split; lia.
  - destruct (nextPageParam opts acc.1) as [p|] eqn:En.
    + destruct (fetchPage opts acc p) as [acc'|e] eqn:E; simpl; [|discriminate].
      intros Hr. destruct (IH _ Hr) as [Hb Hl].
      apply fetchPage_resolved in E as (page & _ & ->). simpl in *.
      rewrite length_app in Hb, Hl. simpl in *. split; [lia|].
      intros Hlt. apply Hl. lia.
    + intros [= <-]. split; [lia|]. by intros _.
Qed.

Lemma refetchAll_chained old r :
  refetchAll opts old = Resolved r ->
  chained opts r /\ List.length r.1 = List.length r.2 /\
  (1 <= List.length r.1 <= Nat.max 1 (List.length old.1))%nat /\
  ((List.length r.1 < List.length old.1)%nat -> nextPageParam opts r.1 = None).
Proof.
  rewrite refetchAll_from_first.
  destruct (queryFn opts _) as [page|e]; simpl; [|discriminate].
  intros Hr.
  destruct (fetchRemaining_chained _ ([page], [_]) _ eq_refl (chained_one page _) Hr)
    as [Hc Hlen].
  destruct (fetchRemaining_length _ _ _ Hr) as [Hb Hl]. simpl in Hb, Hl.
  split; [exact Hc|]. split; [exact Hlen|]. split; [lia|].
  intros Hlt. apply Hl. lia.
Qed.

Lemma fetchNext_chained acc r :
  List.length acc.1 = List.length acc.2 -> chained opts acc ->
  fetchNext opts acc = Resolved r ->
  chained opts r /\ List.length r.1 = List.length r.2.
Proof.
  intros Hlen Hc. unfold fetchNext.
  destruct (nextPageParam opts acc.1) as [p|] eqn:En.
  - by apply fetchPage_chained.
  - intros [= <-]. by split.
Qed.

Lemma well_loaded_nil : well_loaded opts ([], []).
Proof.
  split; [constructor|]. split; [reflexivity|]. split; [reflexivity|].
  intros i page p Hp. by destruct i.
Qed.

Lemma refetchAll_well_loaded old r :
  default (initialPageParam opts) (head old.2) = initialPageParam opts ->
  refetchAll opts old = Resolved r -> well_loaded opts r.
Proof.
  intros Hhead Hr. destruct r as [pages params].
  destruct (refetchAll_fresh _ _ _ Hr) as [Hf Hh].
  destruct (refetchAll_chained _ _ Hr) as (Hc & Hlen & _).
  split; [exact Hf|]. split; [exact Hlen|]. split; [|exact Hc].
  simpl. rewrite Hh. exact Hhead.
Qed.

Lemma fetchNext_well_loaded acc r :
  well_loaded opts acc -> fetchNext opts acc = Resolved r -> well_loaded opts r.
Proof.
  intros (Hf & Hlen & Hhead & Hc) Hr.
  destruct (fetchNext_chained _ _ Hlen Hc Hr) as [Hc' Hlen'].
  unfold fetchNext in Hr.
  destruct (nextPageParam opts acc.1) as [p|] eqn:En.
  - split; [by eapply fetchPage_fresh|]. split; [exact Hlen'|]. split; [|exact Hc'].
    apply fetchPage_resolved in Hr as (page & _ & ->). simpl.
    destruct acc as [pages [|p0 params]]; simpl in *; [|exact Hhead].
    destruct pages; [discriminate En|discriminate Hlen].
  - injection Hr as <-. by repeat split.
Qed.

Lemma settle_well_loaded now q r :
  well_loaded opts (loaded q) ->
  (forall res, r = Resolved res -> well_loaded opts res) ->
  well_loaded opts (loaded (settle now q r)).
Proof.
  intros Hq Hr. destruct r as [[pages params]|e]; simpl; [|exact Hq].
  by apply Hr.
Qed.

(** A stale query that is read is fetched again, from its first page
    parameter on. *)
Lemma readInfiniteQuery_stale now staleTime c :
  isStale now staleTime (entry c (queryKey opts)) = true ->
  default (initialPageParam opts) (head (loaded (entry c (queryKey opts))).2) =
    initialPageParam opts ->
  readInfiniteQuery opts now staleTime c !! queryKey opts =
  Some (settle now (entry c (queryKey opts))
          (then_ (queryFn opts (initialPageParam opts))
             (fun page =>
                fetchRemaining opts
                  (pred (List.length (loaded (entry c (queryKey opts))).1))
                  ([page], [initialPageParam opts])))).
Proof.
  intros Hs Hhead. unfold readInfiniteQuery. rewrite Hs.
  unfold fetchInfiniteQuery. rewrite lookup_insert_eq, refetchAll_from_first, Hhead.
  reflexivity.
Qed.

(** What is loaded after a fetch has settled: the result of the fetch, or
    what was loaded before when the fetch failed. *)
Lemma loaded_settle now q r :
  loaded (settle now q r) =
  match r with
  | Resolved res => res
  | Rejected _ => loaded q
  end.
Proof. by destruct r as [[pages params]|e]. Qed.

End InfiniteFacts.

End QueryFacts.

(** ** Mutations and invalidation *)

Section MutationFacts.
Import JS Types Api Query Mutations.
Context `{Platform}.

Lemma onSuccess_invalidates (m : Mutation) (c : gmap QueryKey QueryState) :
  onSuccess m c = invalidateQueries [KStr "jobs"] c.
Proof. destruct m; reflexivity. Qed.

(** Both revisions of the list ask for their first page with the page
    parameter 1. *)
Lemma initialPageParam_is_1 fetch asPage fetchPageOnly (st : JobList.State) :
  initialPageParam (JobListSrv.options fetch asPage st) = num1 /\
  initialPageParam (JobListMem.options fetchPageOnly st) = num1.
Proof. split; reflexivity. Qed.

End MutationFacts.


(** ** The list that sends filter and sort to the backend *)

Section JobListSrvFacts.
Import JS Types Api Query JobList JobListSrv.
Context `{Platform}.
Variable fetch : Request -> Promise Response JSError.
Variable asPage : JSON -> PaginatedResponse Job.

Lemma getNextPageParam_None (lastPage : Page) :
  getNextPageParam lastPage = None <-> next lastPage = None.
Proof.
  unfold getNextPageParam. destruct (next lastPage); split; congruence.
Qed.

Lemma getNextPageParam_Some (lastPage : Page) (n : JSNumber) :
  getNextPageParam lastPage = Some n <->
  exists url, next lastPage = Some url /\
              n = Number_ (params_get "page" (searchParams url)).
Proof.
  unfold getNextPageParam. destruct (next lastPage) as [url|]; split.
  - intros [= <-]. eauto.
  - intros (? & [= <-] & ->). reflexivity.
  - discriminate.
  - intros (? & [=] & _).
Qed.

Lemma hasNextPage_true (opts : InfiniteOptions) (d : option Data) :
  Query.getNextPageParam opts = getNextPageParam ->
  hasNextPage opts d = true <->
  exists pages params lastPage url,
    d = Some (InfiniteData pages params) /\ last pages = Some lastPage /\
    next lastPage = Some url.
Proof.
  intros Hg. unfold hasNextPage, nextPageParam. rewrite Hg. split.
  - destruct d as [[pages params|h]|]; try discriminate.
    rewrite bool_decide_eq_true. intros [n Hn].
    destruct (last pages) as [lastPage|] eqn:Hlast; [|discriminate]. simpl in Hn.
    apply getNextPageParam_Some in Hn as (url & Hurl & _).
    by exists pages, params, lastPage, url.
  - intros (pages & params & lastPage & url & -> & Hlast & Hurl).
    rewrite bool_decide_eq_true, Hlast. simpl.
    unfold getNextPageParam. rewrite Hurl. eauto.
Qed.

Lemma loadMore_rendered (st : State) (r : InfiniteQueryResult) (button : LoadMore) :
  loadMore (render st r) = Some button ->
  result_hasNextPage r = true /\ loadMore_disabled button = isFetchingNextPage r.
Proof.
  unfold render. destruct (isLoading r); [discriminate|].
  destruct (isError r); [discriminate|].
  cbn [loadMore]. unfold loadMore_button.
  destruct (result_hasNextPage r); [|discriminate].
  intros [= <-]. split; reflexivity.
Qed.

(** The component shows the pages as the backend sent them, in the order in
    which they were merged: it neither filters nor sorts. *)
Lemma render_cards_srv (st : State) (r : InfiniteQueryResult) :
  isLoading r = false -> isError r = false ->
  cards (render st r) = jobs_of r.
Proof.
  intros Hl He. unfold render. rewrite Hl, He. cbn [cards].
  destruct (jobs_of r); [destruct (filter st)|]; reflexivity.
Qed.

(** Filter and sort can be read back from the key. *)
Lemma queryKey_inj (st st' : State) :
  queryKey (options fetch asPage st) = queryKey (options fetch asPage st') -> st = st'.
Proof.
  destruct st as [f s], st' as [f' s']. cbn.
  intros [= Hf Hs]. f_equal.
  - destruct f as [|[]], f' as [|[]]; simpl in Hf; congruence.
  - destruct s, s'; simpl in Hs; congruence.
Qed.

(** Every request of the view carries its sort, and its filter as [status]
    unless the filter is ['ALL']. *)
Lemma queryFn_request (st : State) (p : JSNumber) :
  queryFn (options fetch asPage st) p =
    then_ (fetch
             {| method := GET; path := [BASE; "jobs"];
                query :=
                  [("page", String_ p); ("sort", SortValue_str (sort st))] ++
                  match filter st with
                  | ALL => []
                  | Only s => [("status", StatusType_str s)]
                  end;
                body := NoBody |})
          (handleResponse asPage).
Proof.
  cbn [queryFn options]. unfold fetchJobs. f_equal.
  unfold fetchJobs_request. cbn [arg_filter arg_sort pageParam].
  destruct (filter st) as [|[]]; reflexivity.
Qed.

(** C6. The Load More button is rendered only when the last page that was
    fetched carries a next link ([getNextPageParam] is [undefined] exactly
    when [next] is [null]), and it is disabled while the next page is being
    fetched.  A click sends one request: a GET of the list whose [page] is
    the number read from that link and whose [sort] and [status] are those
    of the view.  When it is answered with a page, the results of that page
    are put behind the jobs merged so far under the key of the view, the
    pages merged before staying as they are; when it fails the merged pages
    stay and the query is in error.  No other key changes. *)
Theorem load_more_appends_next_page (st : State) (c : gmap QueryKey QueryState) :
  let opts := options fetch asPage st in
  (forall lastPage, getNextPageParam lastPage = None <-> next lastPage = None) /\
  (forall button,
     loadMore (JobList fetch asPage st c) = Some button ->
     (exists pages params lastPage url,
        data (entry c (queryKey opts)) = Some (InfiniteData pages params) /\
        last pages = Some lastPage /\ next lastPage = Some url) /\
     loadMore_disabled button = isFetchingNextPage (useInfiniteQuery opts c)) /\
  (forall pages params lastPage url now,
     data (entry c (queryKey opts)) = Some (InfiniteData pages params) ->
     last pages = Some lastPage -> next lastPage = Some url ->
     let n := Number_ (params_get "page" (searchParams url)) in
     let answer :=
       then_ (fetch
                {| method := GET; path := [BASE; "jobs"];
                   query :=
                     [("page", String_ n); ("sort", SortValue_str (sort st))] ++
                     match filter st with
                     | ALL => []
                     | Only s => [("status", StatusType_str s)]
                     end;
                   body := NoBody |})
             (handleResponse asPage) in
     let c' := fetchNextPage opts now c in
     (forall page, answer = Resolved page ->
        c' !! queryKey opts =
          Some (setData now (InfiniteData (pages ++ [page]) (params ++ [n]))) /\
        jobs_of (useInfiniteQuery opts c') =
          jobs_of (useInfiniteQuery opts c) ++ results page) /\
     (forall e, answer = Rejected e ->
        c' !! queryKey opts = Some (setError e (entry c (queryKey opts))) /\
        jobs_of (useInfiniteQuery opts c') = jobs_of (useInfiniteQuery opts c)) /\
     (forall k, k <> queryKey opts -> c' !! k = c !! k)).
Proof.
  intros opts. split; [apply getNextPageParam_None|]. split.
  - intros button Hb. apply loadMore_rendered in Hb as [Hn Hd].
    split; [|exact Hd].
    apply (hasNextPage_true opts); [reflexivity|exact Hn].
  - intros pages params lastPage url now Hdata Hlast Hurl n answer c'.
    assert (loaded (entry c (queryKey opts)) = (pages, params)) as Hloaded.
    { unfold loaded. by rewrite Hdata. }
    assert (c' !! queryKey opts =
            Some (settle now (entry c (queryKey opts))
                    (then_ answer
                       (fun page => Resolved (pages ++ [page], params ++ [n]))))) as Hc'.
    { assert (nextPageParam opts pages = Some n) as Hn.
      { unfold nextPageParam. rewrite Hlast. simpl.
        unfold getNextPageParam. by rewrite Hurl. }
      subst c' answer. unfold fetchNextPage. rewrite lookup_insert_eq, Hloaded.
      unfold fetchNext. cbn [fst snd]. rewrite Hn. unfold fetchPage. cbn [fst snd].
      unfold opts at 2. rewrite queryFn_request. reflexivity. }
    split; [|split].
    + intros page Hpage. rewrite Hpage in Hc'. split; [exact Hc'|].
      unfold jobs_of, useInfiniteQuery; cbn [result_pages].
      unfold entry at 1. rewrite Hc', Hdata. simpl.
      rewrite flat_map_app. simpl. by rewrite app_nil_r.
    + intros e He. rewrite He in Hc'. split; [exact Hc'|].
      unfold jobs_of, useInfiniteQuery; cbn [result_pages].
      unfold entry at 1. rewrite Hc'. reflexivity.
    + intros k Hk. by apply fetchNextPage_other.
Qed.

(** After a change of filter or sort the view reads another entry of the
    cache; what was merged under the old key stays under the old key, and a
    key never read before is loaded from page 1. *)
Lemma change_of_key (st st' : State) (c : gmap QueryKey QueryState) now staleTime :
  st <> st' ->
  let opts' := options fetch asPage st' in
  let c' := readInfiniteQuery opts' now staleTime c in
  queryKey opts' <> queryKey (options fetch asPage st) /\
  c' !! queryKey (options fetch asPage st) = c !! queryKey (options fetch asPage st) /\
  (c !! queryKey opts' = None ->
   c' !! queryKey opts' =
     Some (match queryFn opts' num1 with
           | Resolved page => setData now (InfiniteData [page] [num1])
           | Rejected e => setError e newQuery
           end)).
Proof.
  intros Hne opts' c'.
  assert (queryKey opts' <> queryKey (options fetch asPage st)) as Hk.
  { intros E. apply Hne. symmetry. by apply queryKey_inj. }
  split; [exact Hk|]. split.
  - apply readInfiniteQuery_other. congruence.
  - intros Habs. by apply readInfiniteQuery_absent.
Qed.

(** The pages merged under the key of a view are answers to requests with
    the filter and sort of that view: the operations of a view with other
    settings do not touch them, and its own operations only add or replace
    pages by answers to its own query function. *)
Lemma merged_pages_are_own (st : State) (c : gmap QueryKey QueryState) :
  let opts := options fetch asPage st in
  fresh opts (loaded (entry c (queryKey opts))) ->
  (forall st' now staleTime,
     fresh opts (loaded (entry (readInfiniteQuery (options fetch asPage st') now staleTime c)
                           (queryKey opts)))) /\
  (forall st' now,
     fresh opts (loaded (entry (fetchNextPage (options fetch asPage st') now c)
                           (queryKey opts)))) /\
  (forall m, fresh opts (loaded (entry (Mutations.onSuccess m c) (queryKey opts)))).
Proof.
  intros opts Hf.
  assert (forall q r, fresh opts (loaded q) ->
            (forall res, r = Resolved res -> fresh opts res) ->
            fresh opts (loaded (settle 0 q r)) /\
            forall now, loaded (settle now q r) = loaded (settle 0 q r)) as Hsettle.
  { intros q [[pages params]|e] Hq Hr; simpl; split; try reflexivity; try exact Hq.
    by apply Hr. }
  assert (forall st', st' = st \/ queryKey (options fetch asPage st') <> queryKey opts) as Hcase.
  { intros st'. destruct (decide (st' = st)) as [->|Hne]; [by left|right].
    intros E. by apply queryKey_inj in E. }
  split; [|split].
  - intros st' now staleTime. destruct (Hcase st') as [->|Hne].
    + unfold readInfiniteQuery. fold opts.
      destruct (isStale _ _ _); [|exact Hf].
      unfold fetchInfiniteQuery. rewrite entry_insert_eq.
      destruct (Hsettle (entry c (queryKey opts))
                  (refetchAll opts (loaded (entry c (queryKey opts)))) Hf) as [H1 H2].
      { intros [pages params] Hr. by apply refetchAll_fresh in Hr as [Hr _]. }
      by rewrite H2.
    + rewrite (entry_eq c); [exact Hf|].
      apply readInfiniteQuery_other. congruence.
  - intros st' now. destruct (Hcase st') as [->|Hne].
    + unfold fetchNextPage. fold opts. rewrite entry_insert_eq.
      destruct (Hsettle (entry c (queryKey opts))
                  (fetchNext opts (loaded (entry c (queryKey opts)))) Hf) as [H1 H2].
      { intros res Hr. unfold fetchNext in Hr.
        destruct (nextPageParam opts _); [by eapply fetchPage_fresh|].
        by injection Hr as <-. }
      by rewrite H2.
    + rewrite (entry_eq c); [exact Hf|].
      apply fetchNextPage_other. congruence.
  - intros m. by rewrite onSuccess_invalidates, loaded_invalidateQueries.
Qed.

End JobListSrvFacts.

(** ** The list against its backend *)

Section ChunkFacts.

Lemma flat_map_chunks {A} (l : list A) (m k : nat) :
  flat_map (fun i => take m (drop (m * i) l)) (seq 0 k) = take (m * k) l.
Proof.
  induction k as [|k IH].
  - by rewrite Nat.mul_0_r.
  - rewrite seq_S, flat_map_app, IH. simpl. rewrite app_nil_r, take_take_drop.
    f_equal. lia.
Qed.

Lemma flat_map_fmap {A B C} (f : A -> B) (g : B -> list C) (l : list A) :
  flat_map g (map f l) = flat_map (fun a => g (f a)) l.
Proof. induction l as [|a l IH]; simpl; [reflexivity|]. by rewrite IH. Qed.

End ChunkFacts.

Section ReachableFacts.
Import JS Types Api Query JobList JobListSrv.
Context `{Platform}.
Variable fetch : Request -> Promise Response JSError.
Variable asPage : JSON -> PaginatedResponse Job.
Variable asHistory : JSON -> list JobStatusEntry.

(** Every page request of a view carries the sort of the view and, unless
    the filter is ['ALL'], its filter as [status]. *)
Lemma queryFn_list_request (st : State) (p : JSNumber) :
  queryFn (options fetch asPage st) p =
  then_ (fetch (QueryEngine.list_request (filter st) (sort st) (String_ p)))
        (handleResponse asPage).
Proof. apply queryFn_request. Qed.

(** In every cache the client can reach, what is merged under the key of a
    view was loaded by that view, page after page from the first. *)
Lemma reachable_well_loaded (c : gmap QueryKey QueryState) (st : State) :
  Client.Reachable fetch asPage asHistory c ->
  well_loaded (options fetch asPage st)
    (loaded (entry c (queryKey (options fetch asPage st)))).
Proof.
  set (opts := options fetch asPage st).
  induction 1 as [|c c' Hreach IH Hstep].
  - apply well_loaded_nil.
  - assert (forall st', st' = st \/ queryKey (options fetch asPage st') <> queryKey opts)
      as Hcase.
    { intros st'. destruct (decide (st' = st)) as [->|Hne]; [by left|right].
      intros E. by apply queryKey_inj in E. }
    destruct Hstep as [st' now staleTime c|st' now c|job showHistory now staleTime c|m c].
    + destruct (Hcase st') as [->|Hne].
      * unfold readInfiniteQuery. fold opts.
        destruct (isStale _ _ _); [|exact IH].
        unfold fetchInfiniteQuery. rewrite entry_insert_eq.
        apply settle_well_loaded; [exact IH|].
        intros res Hres. eapply refetchAll_well_loaded; [|exact Hres].
        by destruct IH as (_ & _ & Hhead & _).
      * rewrite (entry_eq c); [exact IH|].
        apply readInfiniteQuery_other. congruence.
    + destruct (Hcase st') as [->|Hne].
      * unfold fetchNextPage. fold opts. rewrite entry_insert_eq.
        apply settle_well_loaded; [exact IH|].
        intros res Hres. by eapply fetchNext_well_loaded.
      * rewrite (entry_eq c); [exact IH|].
        apply fetchNextPage_other. congruence.
    + rewrite (entry_eq c); [exact IH|].
      unfold readQuery. destruct (shouldFetch _ _ _ _); [|reflexivity].
      unfold fetchQuery. by rewrite lookup_insert_ne.
    + by rewrite onSuccess_invalidates, loaded_invalidateQueries.
Qed.

End ReachableFacts.

Section EngineFacts.
Import JS Types Api Query JobList JobListSrv.
Context `{Platform}.
Variable fetch : Request -> Promise Response JSError.
Variable asPage : JSON -> PaginatedResponse Job.
Variable asHistory : JSON -> list JobStatusEntry.
Variable db : list Job.

(** The jobs the engine lists are the jobs of the dataset that pass the
    filter. *)
Lemma matching_In (f : FilterValue) (s : SortValue) (j : Job) :
  In j (QueryEngine.matching db f s) <->
  In j db /\ match f with ALL => True | Only t => current_status j = Some t end.
Proof.
  unfold QueryEngine.matching.
  rewrite <- !list_elem_of_In, <- (sort_perm (QueryEngine.before s)).
  rewrite !list_elem_of_In, filter_In. unfold QueryEngine.included.
  destruct f as [|t]; [tauto|]. by rewrite bool_decide_eq_true.
Qed.

Lemma page_results (f : FilterValue) (s : SortValue) (i : nat) :
  results (QueryEngine.page db f s (Z.of_nat (S i))) =
  take QueryEngine.page_size
    (drop (QueryEngine.page_size * i) (QueryEngine.matching db f s)).
Proof.
  unfold QueryEngine.page; cbn [results]. do 3 f_equal. lia.
Qed.

Lemma page_next (f : FilterValue) (s : SortValue) (n : Z) :
  getNextPageParam (QueryEngine.page db f s n) =
  if Z.of_nat QueryEngine.page_size * n
       <? Z.of_nat (List.length (QueryEngine.matching db f s))
  then Some (Number_ (Some (pretty (n + 1))))
  else None.
Proof.
  unfold getNextPageParam, QueryEngine.page; cbn [next].
  destruct (_ <? _); reflexivity.
Qed.

(** With the engine as backend, the pages a view has loaded are the pages
    1, 2, ... of the engine for the filter and sort of the view. *)
Lemma well_loaded_engine (f : FilterValue) (s : SortValue)
    (pages : list Page) (params : list JSNumber) :
  QueryEngine.serves fetch asPage db f s ->
  QueryEngine.decimal_pages db f s ->
  well_loaded (options fetch asPage {| filter := f; sort := s |}) (pages, params) ->
  forall i, (i < List.length pages)%nat ->
    pages !! i = Some (QueryEngine.page db f s (Z.of_nat (S i))) /\
    QueryEngine.linked db f s (Z.of_nat (S i)) /\
    exists p, params !! i = Some p /\ String_ p = pretty (Z.of_nat (S i)).
Proof.
  intros Hserves [Hone Hdec] (Hf & Hlen & Hhead & Hc).
  unfold fresh in Hf. cbn [fst snd initialPageParam options] in Hf, Hlen, Hhead.
  assert (forall i page p, pages !! i = Some page -> params !! i = Some p ->
            QueryEngine.linked db f s (Z.of_nat (S i)) ->
            String_ p = pretty (Z.of_nat (S i)) ->
            page = QueryEngine.page db f s (Z.of_nat (S i))) as Hanswer.
  { intros i page p Hpage Hp Hlinked Hstr.
    pose proof (Forall2_lookup_lr _ _ _ _ _ _ Hf Hpage Hp) as Hq. cbv beta in Hq.
    rewrite queryFn_list_request in Hq. cbn [filter sort] in Hq.
    rewrite Hstr, (Hserves _ Hlinked) in Hq. by injection Hq as <-. }
  induction i as [|i IH]; intros Hi.
  - destruct (lookup_lt_is_Some_2 pages 0%nat Hi) as [page Hpage].
    destruct (lookup_lt_is_Some_2 params 0%nat) as [p Hp]; [lia|].
    assert (p = num1) as ->.
    { rewrite head_lookup, Hp in Hhead. exact Hhead. }
    assert (QueryEngine.linked db f s (Z.of_nat 1)) as Hlinked by (by left).
    split; [|split; [exact Hlinked|by exists num1]].
    rewrite Hpage. f_equal. by apply (Hanswer 0%nat page num1).
  - destruct IH as (Hprev & Hlprev & _); [lia|].
    destruct (lookup_lt_is_Some_2 pages (S i) Hi) as [page Hpage].
    destruct (lookup_lt_is_Some_2 params (S i)) as [p Hp]; [lia|].
    pose proof (Hc i _ p Hprev Hp) as Hnext. cbn [Query.getNextPageParam options] in Hnext.
    rewrite page_next in Hnext.
    destruct (Z.ltb_spec (Z.of_nat QueryEngine.page_size * Z.of_nat (S i))
                (Z.of_nat (List.length (QueryEngine.matching db f s)))) as [Hlt|Hge];
      [|discriminate].
    injection Hnext as <-.
    assert (QueryEngine.linked db f s (Z.of_nat (S (S i)))) as Hlinked.
    { right. split; [lia|]. replace (Z.of_nat (S (S i)) - 1) with (Z.of_nat (S i)) by lia.
      exact Hlt. }
    replace (Z.of_nat (S i) + 1) with (Z.of_nat (S (S i))) in * by lia.
    pose proof (Hdec _ Hlinked) as Hstr.
    split; [|split; [exact Hlinked|eauto]].
    rewrite Hpage. f_equal. by eapply Hanswer.
Qed.

(** So the jobs of the loaded pages, one page after the other, are the
    first jobs of the filtered and sorted dataset. *)
Lemma well_loaded_jobs (f : FilterValue) (s : SortValue)
    (pages : list Page) (params : list JSNumber) :
  QueryEngine.serves fetch asPage db f s ->
  QueryEngine.decimal_pages db f s ->
  well_loaded (options fetch asPage {| filter := f; sort := s |}) (pages, params) ->
  flat_map results pages =
  take (QueryEngine.page_size * List.length pages) (QueryEngine.matching db f s).
Proof.
  intros Hserves Hdec Hw.
  pose proof (well_loaded_engine f s pages params Hserves Hdec Hw) as Hpages.
  assert (pages = map (fun i => QueryEngine.page db f s (Z.of_nat (S i)))
                      (seq 0 (List.length pages))) as E.
  { apply list_eq. intros i. rewrite list_lookup_fmap.
    destruct (decide (i < List.length pages)%nat) as [Hi|Hi].
    - rewrite lookup_seq_lt by exact Hi. simpl. by apply Hpages.
    - rewrite lookup_seq_ge by lia. apply lookup_ge_None. lia. }
  rewrite E at 1. rewrite flat_map_fmap.
  rewrite <- flat_map_chunks. apply flat_map_ext. intros i. apply page_results.
Qed.

Lemma jobs_of_loaded (opts : InfiniteOptions) (c : gmap QueryKey QueryState) :
  jobs_of (useInfiniteQuery opts c) =
  flat_map results (loaded (entry c (queryKey opts))).1.
Proof.
  unfold jobs_of, useInfiniteQuery, loaded; cbn [result_pages].
  by destruct (data (entry c (queryKey opts))) as [[pages params|h]|].
Qed.

Lemma render_listed (st : State) (r : InfiniteQueryResult) h l more :
  render st r = Listed h l more ->
  isLoading r = false /\ isError r = false /\
  cards (render st r) = jobs_of r /\
  (forall jobs, l = Cards jobs -> jobs = jobs_of r /\ jobs <> []) /\
  (forall label, l = NoJobsWithStatus label -> jobs_of r = []) /\
  (more = None -> result_hasNextPage r = false) /\
  h = match filter st with
      | ALL => JobsOfTotal (Z.of_nat (List.length (jobs_of r))) (totalCount_of r)
      | _ => JobsWithStatusOfTotal (Z.of_nat (List.length (jobs_of r)))
               (filter_label (filter st)) (totalCount_of r)
      end.
Proof.
  intros Hv.
  assert (isLoading r = false /\ isError r = false) as [Hl He].
  { unfold render in Hv. destruct (isLoading r); [discriminate|].
    destruct (isError r); [discriminate|]. by split. }
  split; [exact Hl|]. split; [exact He|]. split; [by apply render_cards_srv|].
  unfold render in Hv. rewrite Hl, He in Hv. injection Hv as <- <- <-.
  split; [|split; [|split; [|reflexivity]]].
  - intros jobs. destruct (jobs_of r); [by destruct (filter st)|]. by intros [= <-].
  - intros label. by destruct (jobs_of r).
  - unfold loadMore_button. by destruct (result_hasNextPage r).
Qed.

(** C1. The list sends its filter to the backend with every page it asks
    for and shows the pages as they come.  With the Query Engine of the
    specification behind the network, and in every cache the client can
    reach: the jobs listed under a status filter are the first jobs of the
    full dataset that have that status, in the engine's order, none left
    out between them; the header counts against the number of jobs of the
    full dataset with that status; once no Load More button is offered the
    jobs listed are exactly the jobs of the dataset with that status; and
    the list says that there is no job with the status only if the dataset
    holds none. *)
Theorem filter_reaches_the_full_dataset (s : StatusType) (srt : SortValue)
    (c : gmap QueryKey QueryState) :
  let st := {| filter := Only s; sort := srt |} in
  let opts := options fetch asPage st in
  let all := QueryEngine.matching db (Only s) srt in
  let view := JobList fetch asPage st c in
  QueryEngine.serves fetch asPage db (Only s) srt ->
  QueryEngine.decimal_pages db (Only s) srt ->
  Client.Reachable fetch asPage asHistory c ->
  (forall j, In j all <-> In j db /\ current_status j = Some s) /\
  (forall p,
     queryFn opts p =
       then_ (fetch (QueryEngine.list_request (Only s) srt (String_ p)))
             (handleResponse asPage) /\
     params_get "status" (query (QueryEngine.list_request (Only s) srt (String_ p))) =
       Some (StatusType_str s)) /\
  (exists k, cards view = take (QueryEngine.page_size * k) all) /\
  (forall j, In j (cards view) -> In j db /\ current_status j = Some s) /\
  (forall h jobs, view = Listed h (Cards jobs) None -> jobs = all) /\
  (forall h l more page pages,
     view = Listed h l more ->
     result_pages (useInfiniteQuery opts c) = Some (page :: pages) ->
     h = JobsWithStatusOfTotal (Z.of_nat (List.length (cards view)))
           (Some (STATUS_LABELS s)) (Z.of_nat (List.length all)) /\
     (forall label, l = NoJobsWithStatus label -> all = [])).
Proof.
  intros st opts all view Hserves Hdec Hreach.
  pose proof (reachable_well_loaded fetch asPage asHistory c st Hreach) as Hw.
  fold opts in Hw.
  destruct (loaded (entry c (queryKey opts))) as [pages params] eqn:Eloaded.
  pose proof (well_loaded_jobs (Only s) srt pages params Hserves Hdec Hw) as Hjobs.
  fold all in Hjobs.
  assert (jobs_of (useInfiniteQuery opts c) =
          take (QueryEngine.page_size * List.length pages) all) as Hshown.
  { by rewrite jobs_of_loaded, Eloaded. }
  assert (exists k, cards view = take (QueryEngine.page_size * k) all) as Hprefix.
  { subst view. unfold JobList. fold opts.
    destruct (isLoading (useInfiniteQuery opts c)) eqn:El;
      [exists 0%nat; unfold render; by rewrite El|].
    destruct (isError (useInfiniteQuery opts c)) eqn:Ee;
      [exists 0%nat; unfold render; by rewrite El, Ee|].
    exists (List.length pages). by rewrite render_cards_srv. }
  split; [intros j; apply (matching_In (Only s))|].
  split; [intros p; split; [apply queryFn_list_request|reflexivity]|].
  split; [exact Hprefix|]. split; [|split].
  - intros j Hin. destruct Hprefix as [k Hk]. rewrite Hk in Hin.
    apply (matching_In (Only s) srt).
    apply list_elem_of_In. apply list_elem_of_In, elem_of_take in Hin as (i & Hi & _).
    by eapply list_elem_of_lookup_2.
  - intros h jobs Hview. subst view. unfold JobList in Hview. fold opts in Hview.
    apply render_listed in Hview as (_ & _ & _ & Hcards & _ & Hmore & _).
    destruct (Hcards jobs eq_refl) as [Ej Hne]. specialize (Hmore eq_refl).
    rewrite Ej, Hshown in Hne. rewrite Ej, Hshown. apply take_ge.
    assert (nextPageParam opts pages = None) as Hnone.
    { unfold useInfiniteQuery in Hmore; cbn [result_hasNextPage] in Hmore.
      unfold loaded in Eloaded.
      destruct (data (entry c (queryKey opts))) as [[pages' params'|hd]|];
        injection Eloaded as <- <-; try reflexivity.
      cbn [hasNextPage] in Hmore. apply bool_decide_eq_false in Hmore.
      destruct (nextPageParam opts pages'); [|reflexivity].
      destruct Hmore. eauto. }
    destruct (decide (List.length pages = 0%nat)) as [E0|Hpos].
    { rewrite E0, Nat.mul_0_r in Hne. by destruct Hne. }
    destruct (well_loaded_engine (Only s) srt pages params Hserves Hdec Hw
                (pred (List.length pages))) as (Hlast & _); [lia|].
    unfold nextPageParam in Hnone. rewrite last_lookup, Hlast in Hnone.
    cbn [mbind option_bind Query.getNextPageParam opts options] in Hnone.
    rewrite page_next in Hnone. fold all in Hnone.
    destruct (Z.ltb_spec (Z.of_nat QueryEngine.page_size *
                            Z.of_nat (S (pred (List.length pages))))
                (Z.of_nat (List.length all))) as [Hlt|Hge]; [discriminate|].
    unfold QueryEngine.page_size in *. lia.
  - intros h l more page0 pages0 Hview Hpages.
    assert (pages = page0 :: pages0) as Epages.
    { unfold useInfiniteQuery in Hpages; cbn [result_pages] in Hpages.
      unfold loaded in Eloaded.
      destruct (data (entry c (queryKey opts))) as [[pages' params'|hd]|];
        [|discriminate|discriminate].
      injection Eloaded as <- <-. by injection Hpages as <-. }
    subst view. unfold JobList in *. fold opts in Hview |- *.
    apply render_listed in Hview as (_ & _ & Hcards & _ & Hnone & _ & Hh).
    destruct (well_loaded_engine (Only s) srt pages params Hserves Hdec Hw 0%nat)
      as (Hfirst & _); [rewrite Epages; simpl; lia|].
    rewrite Epages in Hfirst. injection Hfirst as Hfirst.
    split.
    + rewrite Hh, Hcards. cbn [filter st filter_label]. f_equal.
      unfold totalCount_of. rewrite Hpages, Hfirst. reflexivity.
    + intros label ->. specialize (Hnone label eq_refl).
      rewrite Hshown, Epages in Hnone. destruct all as [|j all']; [reflexivity|].
      discriminate Hnone.
Qed.

End EngineFacts.

(** ** Changing filter or sort, and reading after a mutation *)

Section ReadFacts.
Import JS Types Api Query JobList JobListSrv Mutations.
Context `{Platform}.
Variable fetch : Request -> Promise Response JSError.
Variable asPage : JSON -> PaginatedResponse Job.
Variable asHistory : JSON -> list JobStatusEntry.

(** What a stale list entry becomes when it is read: the first request is
    for page 1 with the sort and status of the view; if it fails the entry
    is in error with the data it had, else the result is built on the
    answer. *)
Lemma read_stale_list (st : State) (c : gmap QueryKey QueryState) (now staleTime : Z) :
  let opts := options fetch asPage st in
  let q := entry c (queryKey opts) in
  isStale now staleTime q = true ->
  default num1 (head (loaded q).2) = num1 ->
  readInfiniteQuery opts now staleTime c !! queryKey opts =
  Some (match then_ (fetch (QueryEngine.list_request (filter st) (sort st) (String_ num1)))
                    (handleResponse asPage) with
        | Rejected e => setError e q
        | Resolved page =>
            settle now q
              (fetchRemaining opts (pred (List.length (loaded q).1)) ([page], [num1]))
        end).
Proof.
  intros opts q Hs Hhead.
  rewrite (readInfiniteQuery_stale opts now staleTime c Hs Hhead).
  cbn [initialPageParam opts options]. fold opts.
  unfold opts at 2. rewrite queryFn_list_request. fold opts q.
  by destruct (then_ (fetch _) _).
Qed.

(** The outcome of such a read, said without the fetch loop. *)
Lemma read_stale_list_outcome (st : State) (c : gmap QueryKey QueryState)
    (now staleTime : Z) :
  let opts := options fetch asPage st in
  let q := entry c (queryKey opts) in
  let request := fun p : JSNumber =>
    QueryEngine.list_request (filter st) (sort st) (String_ p) in
  let c' := readInfiniteQuery opts now staleTime c in
  isStale now staleTime q = true ->
  default num1 (head (loaded q).2) = num1 ->
  (forall e, then_ (fetch (request num1)) (handleResponse asPage) = Rejected e ->
     c' !! queryKey opts = Some (setError e q)) /\
  (forall page, then_ (fetch (request num1)) (handleResponse asPage) = Resolved page ->
     ((List.length (loaded q).1 <= 1)%nat ->
      c' !! queryKey opts = Some (setData now (InfiniteData [page] [num1]))) /\
     ((exists e, c' !! queryKey opts = Some (setError e q)) \/
      (exists pages params,
         c' !! queryKey opts =
           Some (setData now (InfiniteData (page :: pages) (num1 :: params))) /\
         Forall2 (fun pg p =>
                    then_ (fetch (request p)) (handleResponse asPage) = Resolved pg)
           (page :: pages) (num1 :: params) /\
         chained opts (page :: pages, num1 :: params) /\
         (List.length (page :: pages) <= Nat.max 1 (List.length (loaded q).1))%nat /\
         ((List.length (page :: pages) < List.length (loaded q).1)%nat ->
          nextPageParam opts (page :: pages) = None)))).
Proof.
  intros opts q request c' Hs Hhead.
  pose proof (read_stale_list st c now staleTime Hs Hhead) as Hread.
  fold opts q c' in Hread. split.
  - intros e He. subst request. cbv beta in He. by rewrite He in Hread.
  - intros page Hpage. subst request. cbv beta in Hpage. rewrite Hpage in Hread.
    split.
    + intros Hone. rewrite Hread.
      destruct (List.length (loaded q).1) as [|[|n]]; [reflexivity|reflexivity|lia].
    + destruct (fetchRemaining opts (pred (List.length (loaded q).1)) ([page], [num1]))
        as [[pages' params']|e] eqn:Er; [|left; by exists e].
      right.
      assert (fresh opts ([page], [num1])) as Hf1.
      { unfold fresh. repeat constructor. unfold opts. by rewrite queryFn_list_request. }
      destruct (fetchRemaining_fresh opts _ _ _ Hf1 Er) as [Hf _].
      destruct (fetchRemaining_extends opts _ _ _ Er) as (ps & qs & E).
      destruct (fetchRemaining_chained opts _ ([page], [num1]) _ eq_refl
                  (chained_one opts page num1) Er) as [Hc Hlen].
      destruct (fetchRemaining_length opts _ _ _ Er) as [Hb Hl].
      injection E as -> ->. exists ps, qs. cbn [fst snd app List.length] in *.
      split; [exact Hread|]. split; [|split; [exact Hc|split; [lia|]]].
      * eapply Forall2_impl; [exact Hf|]. intros pg p Hq. cbv beta in Hq.
        unfold opts in Hq. by rewrite queryFn_list_request in Hq.
      * intros Hlt. apply Hl. lia.
Qed.

(** C4. The success handler of each mutation (create, status update,
    delete), which runs only when the mutation resolved, invalidates every
    cached query whose key starts with ['jobs']: the list under either
    revision's key and the history of every job.  An invalidated query is
    stale whatever its age, so the next read fetches it from the server.
    For a list the first request is for page 1, with the sort and status of
    the view: if it fails the entry is in error (with the data it had, still
    marked), and otherwise the entry is rebuilt from the answers alone: the
    answer to page 1 first, each further page the answer to the page number
    read off the link of the page before, as many pages as were merged
    before unless the backend has fewer.  For a history whose panel is open
    the request is the GET of that job's history, and its answer replaces
    what was cached and is what the panel shows; while the panel is closed
    nothing is fetched. *)
Theorem mutation_success_invalidates_jobs (m : Mutation) (c : gmap QueryKey QueryState) :
  let request := fun (st : State) (p : JSNumber) =>
    {| method := GET; path := [BASE; "jobs"];
       query :=
         [("page", String_ p); ("sort", SortValue_str (sort st))] ++
         match filter st with
         | ALL => []
         | Only s => [("status", StatusType_str s)]
         end;
       body := NoBody |} in
  (forall A (r : Promise A JSError),
     (settleMutation r (onSuccess m) c).1 = if isRejected r then c else onSuccess m c) /\
  (forall st,
     partialMatchKey (queryKey (options fetch asPage st)) [KStr "jobs"] = true) /\
  (forall fetchPageOnly st,
     partialMatchKey (queryKey (JobListMem.options fetchPageOnly st)) [KStr "jobs"] = true) /\
  (forall job, partialMatchKey (JobCard.historyKey job) [KStr "jobs"] = true) /\
  (forall k q,
     c !! k = Some q -> partialMatchKey k [KStr "jobs"] = true ->
     onSuccess m c !! k = Some (invalidate q) /\
     (forall now staleTime, isStale now staleTime (entry (onSuccess m c) k) = true)) /\
  (forall st q now staleTime,
     let opts := options fetch asPage st in
     let c' := readInfiniteQuery opts now staleTime (onSuccess m c) in
     c !! queryKey opts = Some q -> starts_at_first_page opts q ->
     (forall e,
        then_ (fetch (request st num1)) (handleResponse asPage) = Rejected e ->
        c' !! queryKey opts = Some (setError e (invalidate q))) /\
     (forall page,
        then_ (fetch (request st num1)) (handleResponse asPage) = Resolved page ->
        ((List.length (loaded q).1 <= 1)%nat ->
         c' !! queryKey opts = Some (setData now (InfiniteData [page] [num1]))) /\
        ((exists e, c' !! queryKey opts = Some (setError e (invalidate q))) \/
         (exists pages params,
            c' !! queryKey opts =
              Some (setData now (InfiniteData (page :: pages) (num1 :: params))) /\
            Forall2 (fun pg p =>
                       then_ (fetch (request st p)) (handleResponse asPage) = Resolved pg)
              (page :: pages) (num1 :: params) /\
            chained opts (page :: pages, num1 :: params) /\
            (List.length (page :: pages) <= Nat.max 1 (List.length (loaded q).1))%nat /\
            ((List.length (page :: pages) < List.length (loaded q).1)%nat ->
             nextPageParam opts (page :: pages) = None))))) /\
  (forall job q now staleTime,
     let answer :=
       then_ (fetch (fetchJobHistory_request (id job))) (handleResponse asHistory) in
     let c' := readQuery now staleTime (JobCard.historyQuery fetch asHistory job true)
                 (onSuccess m c) in
     c !! JobCard.historyKey job = Some q ->
     (forall h, answer = Resolved h ->
        c' !! JobCard.historyKey job = Some (setData now (HistoryData h)) /\
        forall u d,
          JobCard.history_panel (JobCard.JobCard fetch asHistory job true c' u d) =
          JobCard.render_history true {| query_data := Some h; query_isLoading := false |}) /\
     (forall e, answer = Rejected e ->
        c' !! JobCard.historyKey job = Some (setError e (invalidate q))) /\
     readQuery now staleTime (JobCard.historyQuery fetch asHistory job false)
       (onSuccess m c) = onSuccess m c).
Proof.
  intros request.
  assert (forall k q, c !! k = Some q -> partialMatchKey k [KStr "jobs"] = true ->
            onSuccess m c !! k = Some (invalidate q) /\
            entry (onSuccess m c) k = invalidate q) as Hmark.
  { intros k q Hk Hmatch.
    assert (onSuccess m c !! k = Some (invalidate q)) as Hinv.
    { rewrite onSuccess_invalidates, lookup_invalidateQueries, Hk, Hmatch.
      reflexivity. }
    split; [exact Hinv|]. unfold entry. by rewrite Hinv. }
  split; [intros A [a|e]; reflexivity|].
  split; [reflexivity|]. split; [reflexivity|]. split; [reflexivity|].
  split; [|split].
  - intros k q Hk Hmatch. destruct (Hmark k q Hk Hmatch) as [Hinv Hentry].
    split; [exact Hinv|]. intros now staleTime. by rewrite Hentry.
  - intros st q now staleTime opts c' Hk [_ Hhead].
    destruct (Hmark (queryKey opts) q Hk eq_refl) as [_ Hentry].
    destruct (read_stale_list_outcome st (onSuccess m c) now staleTime) as [Hfail Hok].
    { fold opts. by rewrite Hentry. }
    { fold opts. rewrite Hentry. exact Hhead. }
    fold opts c' in Hfail, Hok. rewrite Hentry in Hfail, Hok. split.
    + intros e He. by apply Hfail.
    + intros page Hpage. by apply Hok.
  - intros job q now staleTime answer c' Hk.
    destruct (Hmark (JobCard.historyKey job) q Hk eq_refl) as [_ Hentry].
    assert (c' !! JobCard.historyKey job =
            Some match answer with
                 | Resolved h => setData now (HistoryData h)
                 | Rejected e => setError e (invalidate q)
                 end) as Hc'.
    { subst c'. unfold readQuery, shouldFetch.
      cbn [enabled plain_queryKey JobCard.historyQuery]. rewrite Hentry. cbn [andb isStale
        isInvalidated invalidate orb]. unfold fetchQuery.
      cbn [plain_queryKey plain_queryFn JobCard.historyQuery].
      rewrite lookup_insert_eq, Hentry. reflexivity. }
    split; [|split].
    + intros h Hh. rewrite Hh in Hc'. split; [exact Hc'|].
      intros u d. unfold JobCard.JobCard, JobCard.render; cbn [JobCard.history_panel].
      f_equal. unfold useQuery, entry.
      cbn [plain_queryKey JobCard.historyQuery]. by rewrite Hc'.
    + intros e He. by rewrite He in Hc'.
    + reflexivity.
Qed.


End ReadFacts.

(** ** The client against the sample backend *)

Section BackendExamples.
Import JS Types Api Query JobList Mutations Sample Backend.
#[local] Existing Instance Sample.platform.

Lemma filter_reaches_the_full_dataset_witness :
  let fetch := serve table in
  let st := {| filter := Only RUNNING; sort := newest |} in
  let c := readInfiniteQuery (JobListSrv.options fetch asPage st) 0 30000 ∅ in
  JobListSrv.JobList fetch asPage st c =
    Listed (JobsWithStatusOfTotal 1 (Some "Running") 1) (Cards [running_job]) None /\
  QueryEngine.matching (jobs table) (Only RUNNING) newest = [running_job].
Proof.
  intros fetch st c.
  assert (List.length (QueryEngine.matching (jobs table) (Only RUNNING) newest) = 1%nat)
    as Hlen by (vm_compute; reflexivity).
  assert (JobListSrv.JobList fetch asPage st c =
          Listed (JobsWithStatusOfTotal 1 (Some "Running") 1) (Cards [running_job]) None)
    as Hview by (vm_compute; reflexivity).
  split; [exact Hview|]. symmetry.
  destruct (filter_reaches_the_full_dataset fetch asPage asHistory (jobs table)
              RUNNING newest c) as (_ & _ & _ & _ & Hall & _).
  - intros n [->|[Hgt Hlt]]; [vm_compute; reflexivity|].
    rewrite Hlen in Hlt. unfold QueryEngine.page_size in Hlt. lia.
  - split; [reflexivity|].
    intros n [->|[Hgt Hlt]]; [vm_compute; reflexivity|].
    rewrite Hlen in Hlt. unfold QueryEngine.page_size in Hlt. lia.
  - eapply Client.reach_step; [apply Client.reach_empty|apply Client.read_list].
  - exact (Hall _ _ Hview).
Defined.

Lemma mutation_success_invalidates_jobs_witness :
  let fetch := serve table in
  let listKey := [KStr "jobs"; KStr "ALL"; KStr "newest"] in
  let stale := setData 0 (InfiniteData [page1] [Finite 1]) in
  let log := setData 0 (HistoryData (take 1 (history table 1))) in
  let c : gmap QueryKey QueryState :=
    {[ listKey := stale; JobCard.historyKey running_job := log ]} in
  let c' := onSuccess UpdateStatus c in
  c' !! listKey = Some (invalidate stale) /\
  readInfiniteQuery (JobListSrv.options fetch asPage initial) 7 30000 c' !! listKey =
    Some (setData 7 (InfiniteData [QueryEngine.page (jobs table) ALL newest 1] [Finite 1])) /\
  readQuery 7 30000 (JobCard.historyQuery fetch asHistory running_job true) c'
    !! JobCard.historyKey running_job =
    Some (setData 7 (HistoryData (history table 1))).
Proof.
  intros fetch listKey stale log c c'.
  destruct (mutation_success_invalidates_jobs fetch asPage asHistory UpdateStatus c)
    as (_ & _ & _ & _ & Hmark & Hlist & Hhistory).
  split; [|split].
  - apply (Hmark listKey stale); [vm_compute; reflexivity|reflexivity].
  - destruct (Hlist initial stale 7 30000) as [_ Hok].
    + vm_compute. reflexivity.
    + split; reflexivity.
    + destruct (Hok (QueryEngine.page (jobs table) ALL newest 1)) as [Hone _].
      * vm_compute. reflexivity.
      * apply Hone. simpl. lia.
  - destruct (Hhistory running_job log 7 30000) as [Hok _].
    + vm_compute. reflexivity.
    + apply (Hok (history table 1)). vm_compute. reflexivity.
Defined.


Lemma load_more_appends_next_page_witness :
  let fetch := serve table in
  let opts := JobListSrv.options fetch asPage initial in
  let first := QueryEngine.page (jobs table) ALL newest 1 in
  let pages := [first] in
  let params := [Finite 1] in
  let c : gmap QueryKey QueryState :=
    {[ queryKey opts := setData 0 (InfiniteData pages params) ]} in
  jobs_of (useInfiniteQuery opts (fetchNextPage opts 5 c)) =
    results first ++ [running_job] /\
  fetchNextPage opts 5 c !! queryKey opts =
    Some (setData 5 (InfiniteData
                       [first; QueryEngine.page (jobs table) ALL newest 2]
                       [Finite 1; Finite 2])).
Proof.
  intros fetch opts first pages params c.
  destruct (load_more_appends_next_page fetch asPage initial c) as (_ & _ & Hclick).
  destruct (Hclick pages params first (QueryEngine.link ALL newest 2) 5)
    as (Hok & _ & _).
  - vm_compute. reflexivity.
  - reflexivity.
  - vm_compute. reflexivity.
  - destruct (Hok (QueryEngine.page (jobs table) ALL newest 2)) as [Hentry Hjobs].
    + vm_compute. reflexivity.
    + split; [|exact Hentry].
      refine (eq_trans Hjobs _). vm_compute. reflexivity.
Defined.

(** After a mutation a list of two merged pages is read: both pages are
    fetched again, the first with page 1. *)
Example refetch_of_two_pages :
  let fetch := serve table in
  let opts := JobListSrv.options fetch asPage initial in
  let c : gmap QueryKey QueryState :=
    {[ queryKey opts := setData 0 (InfiniteData [page1; page2] [Finite 1; Finite 2]) ]} in
  readInfiniteQuery opts 7 30000 (onSuccess DeleteJob c) !! queryKey opts =
    Some (setData 7 (InfiniteData [QueryEngine.page (jobs table) ALL newest 1;
                                   QueryEngine.page (jobs table) ALL newest 2]
                                  [Finite 1; Finite 2])).
Proof. vm_compute. reflexivity. Qed.

(** The sample backend tells its requests apart. *)
Example backend_answers_by_request :
  results (QueryEngine.page (jobs table) ALL newest 2) = [running_job] /\
  results (QueryEngine.page (jobs table) ALL oldest 1) <>
    results (QueryEngine.page (jobs table) ALL newest 1) /\
  then_ (serve table (QueryEngine.list_request ALL newest "2")) (handleResponse asPage) =
    Resolved (QueryEngine.page (jobs table) ALL newest 2) /\
  then_ (serve table (QueryEngine.list_request (Only FAILED) newest "1"))
        (handleResponse asPage) =
    Resolved {| count := 0; next := None; previous := None; results := [] |}.
Proof.
  split; [vm_compute; reflexivity|]. split; [vm_compute; discriminate|].
  split; vm_compute; reflexivity.
Qed.

End BackendExamples.

(** ** Retries *)

Section RetryFacts.
Import JS Types Api Query.

(** The shared client retries a failed query once and a failed mutation
    not at all: a query function is called at most twice, a second time
    exactly when the first call failed, and a mutation function once. *)
Lemma retry_policy {A} (fn : nat -> Promise A JSError) :
  queryRetry App.queryClient = 1%nat /\
  mutationRetry App.queryClient = 0%nat /\
  createRetryer fn (queryRetry App.queryClient) =
    match fn 0%nat with
    | Resolved a => (Resolved a, 1%nat)
    | Rejected _ => (fn 1%nat, 2%nat)
    end /\
  createRetryer fn (mutationRetry App.queryClient) = (fn 0%nat, 1%nat).
Proof.
  split; [reflexivity|]. split; [reflexivity|]. split.
  - unfold createRetryer. simpl. destruct (fn 0%nat); [reflexivity|].
    destruct (fn 1%nat); reflexivity.
  - unfold createRetryer. simpl. destruct (fn 0%nat); reflexivity.
Qed.

(** The retryer makes [retry + 1] calls at most, and rejects only with the
    failure of its last call. *)
Lemma run_calls {A E} (fn : nat -> Promise A E) (failureCount remaining : nat) :
  (S failureCount <= (run fn failureCount remaining).2 <= S (failureCount + remaining))%nat.
Proof.
  revert failureCount. induction remaining as [|r IH]; intros k; simpl.
  - destruct (fn k); simpl; lia.
  - destruct (fn k); simpl; [lia|]. specialize (IH (S k)). lia.
Qed.

Context `{Platform}.

(** A list whose fetch has failed shows the failure in place of the jobs,
    in either revision. *)
Lemma failed_list_fetch_is_shown (st : JobList.State) (r : InfiniteQueryResult) :
  isLoading r = false -> isError r = true ->
  JobListSrv.render st r = JobList.FailedToLoad (result_error r) /\
  JobListMem.render st r = JobList.FailedToLoad (result_error r).
Proof.
  intros Hl He. unfold JobListSrv.render, JobListMem.render.
  by rewrite Hl, He.
Qed.

End RetryFacts.

(** ** The components at work *)

Section Examples.
Import JS Types Api Query JobList Sample.
#[local] Existing Instance Sample.platform.

(** The earlier revision, which filters in memory, with the first page of
    21 jobs loaded and the filter on RUNNING: the only running job is on the
    second page, which was not fetched, so the list shows no job at all and
    says that there is none with that status among the 20 loaded.  (The
    README of that revision names this as its known limitation.) *)
Example in_memory_filter_sees_loaded_jobs_only :
  let fetchPageOnly : JSNumber -> Promise Page JSError := fun _ => Rejected NetworkError in
  let q := setData 0 (InfiniteData [page1] [Finite 1]) in
  let c : gmap QueryKey QueryState := {[ [KStr "jobs"] := q ]} in
  let st := {| filter := Only RUNNING; sort := newest |} in
  JobListMem.JobList fetchPageOnly st c =
    Listed (JobsWithStatusOfLoaded 0 (Some "Running") 20)
           (NoJobsWithStatus (Some "Running"))
           (Some {| loadMore_disabled := false; loadMore_remaining := Some 1 |}) /\
  current_status running_job = Some RUNNING /\
  In running_job (results page2) /\
  ~ In running_job (cards (JobListMem.JobList fetchPageOnly st c)).
Proof.
  intros fetchPageOnly q c st.
  assert (JobListMem.JobList fetchPageOnly st c =
          Listed (JobsWithStatusOfLoaded 0 (Some "Running") 20)
            (NoJobsWithStatus (Some "Running"))
            (Some {| loadMore_disabled := false; loadMore_remaining := Some 1 |})) as E
    by (vm_compute; reflexivity).
  split; [exact E|]. split; [reflexivity|]. split; [by left|].
  rewrite E. simpl. tauto.
Qed.

(** The earlier revision, with two pages merged: after a change of filter
    and of sort the key is still [['jobs']], nothing is fetched, and the
    view filters and sorts the same two merged pages. *)
Example in_memory_list_has_one_key :
  let fetchPageOnly : JSNumber -> Promise Page JSError := fun _ => Rejected NetworkError in
  let q := setData 0 (InfiniteData [page1; page2] [Finite 1; Finite 2]) in
  let c : gmap QueryKey QueryState := {[ [KStr "jobs"] := q ]} in
  let st := JobList.initial in
  let st' := setSort name_asc (setFilter (Only RUNNING) st) in
  queryKey (JobListMem.options fetchPageOnly st') =
    queryKey (JobListMem.options fetchPageOnly st) /\
  readInfiniteQuery (JobListMem.options fetchPageOnly st') 10 30000 c = c /\
  result_pages (useInfiniteQuery (JobListMem.options fetchPageOnly st') c) =
    Some [page1; page2].
Proof.
  intros fetchPageOnly q c st st'.
  split; [reflexivity|]. split.
  - unfold readInfiniteQuery.
    replace (isStale 10 30000 (entry c (queryKey (JobListMem.options fetchPageOnly st'))))
      with false by (vm_compute; reflexivity).
    reflexivity.
  - vm_compute. reflexivity.
Qed.

(** C7. The backend is down and the history panel of a job is opened: the
    fetch is tried twice and the query ends in its error state, yet the
    panel says 'No status changes yet.' and shows no error. *)
Theorem failed_history_fetch_is_not_shown :
  let job := Sample.job 1 "Fluid Dynamics" "2024-01-01T00:00:00Z" (Some PENDING) in
  let asHistory := fun _ : JSON => @nil JobStatusEntry in
  let c := readQuery 0 (queryStaleTime App.queryClient)
             (JobCard.historyQuery offline asHistory job true) ∅ in
  createRetryer (fun _ => fetchJobHistory offline asHistory (id job))
    (queryRetry App.queryClient) = (Rejected NetworkError, 2%nat) /\
  failure (entry c (JobCard.historyKey job)) = Some NetworkError /\
  status (entry c (JobCard.historyKey job)) = error /\
  JobCard.history_panel
    (JobCard.JobCard offline asHistory job true c idleMutation idleMutation) =
    Some JobCard.NoStatusChanges.
Proof.
  intros job asHistory c.
  split; [reflexivity|].
  split; [vm_compute; reflexivity|].
  split; vm_compute; reflexivity.
Qed.

End Examples.

(** ** More on the list that filters in memory *)

Section JobListMemMore.
Import JS Types Api Query JobList JobListMem.
Context `{Platform}.
Variable fetchPageOnly : JSNumber -> Promise Page JSError.

(** Neither filter nor sort reaches the query: its options are the same
    for every state of the view. *)
Lemma options_ignore_state (st st' : State) :
  options fetchPageOnly st = options fetchPageOnly st'.
Proof. reflexivity. Qed.

(** The jobs shown are loaded jobs: the filter ranges over the pages that
    were fetched. *)
Lemma cards_are_loaded (st : State) (r : InfiniteQueryResult) (j : Job) :
  In j (cards (render st r)) ->
  In j (jobs_of r) /\
  match filter st with ALL => True | Only s => current_status j = Some s end.
Proof.
  unfold render. destruct (isLoading r); [intros []|].
  destruct (isError r); [intros []|].
  destruct (jobs_of r) as [|j0 jobs]; [intros []|].
  cbn [cards].
  destruct (sorted (sort st) (filtered (filter st) (j0 :: jobs))) as [|x l] eqn:E;
    [intros []|].
  cbn [cards]. rewrite <- E. unfold sorted. intros Hin.
  apply filtered_In.
  eapply Permutation_in; [|exact Hin].
  symmetry. apply sort_perm.
Qed.

End JobListMemMore.

(** ** The definitions on small inputs *)

Section Checks.
Import JS Types Api Query JobList Sample.
#[local] Existing Instance Sample.platform.

Example trim_spaces : trim (lit "  Fluid  Dynamics ") = lit "Fluid  Dynamics".
Proof. reflexivity. Qed.

Example trim_unicode : trim [160; 97; 8232; 65279]%N = [97]%N.
Proof. reflexivity. Qed.

Example request_with_filter :
  query (fetchJobs_request
           {| pageParam := Finite 1; arg_filter := "RUNNING"; arg_sort := "newest" |}) =
  [("page", "1"); ("sort", "newest"); ("status", "RUNNING")].
Proof. vm_compute. reflexivity. Qed.

Example request_without_filter :
  query (fetchJobs_request
           {| pageParam := Finite 2; arg_filter := "ALL"; arg_sort := "name_asc" |}) =
  [("page", "2"); ("sort", "name_asc")].
Proof. vm_compute. reflexivity. Qed.

Example next_of_first_page : getNextPageParam page1 = Some (Finite 2).
Proof. vm_compute. reflexivity. Qed.

Example next_of_last_page : getNextPageParam page2 = None.
Proof. reflexivity. Qed.

Example message_from_detail :
  error_message "Request failed with status "
    {| Api.status := 404;
       json := Some (JObj [(lit "error", JNull); (lit "detail", JStr (lit "Not found."))]) |} =
  JStr (lit "Not found.").
Proof. reflexivity. Qed.

Example message_generic :
  error_message "Request failed with status " {| Api.status := 502; json := None |} =
  JStr (lit "Request failed with status 502").
Proof. vm_compute. reflexivity. Qed.

Example options_of_pending_job :
  JobCard.options
    (JobCard.render (job 1 "Fluid Dynamics" "2024-01-01T00:00:00Z" (Some PENDING)) false
       {| query_data := None; query_isLoading := false |} idleMutation idleMutation) =
  [RUNNING; COMPLETED; FAILED].
Proof. reflexivity. Qed.

Example keys_of_the_views :
  queryKey (JobListSrv.options offline (fun _ => page1)
              {| filter := Only FAILED; sort := oldest |}) =
    [KStr "jobs"; KStr "FAILED"; KStr "oldest"] /\
  queryKey (JobListMem.options (fun _ => Rejected NetworkError)
              {| filter := Only FAILED; sort := oldest |}) = [KStr "jobs"] /\
  JobCard.historyKey running_job = [KStr "jobs"; KNum 1; KStr "history"].
Proof. repeat split. Qed.

Example retry_then_success :
  createRetryer
    (fun k => match k with
              | O => Rejected NetworkError
              | _ => Resolved [running_job]
              end)
    (queryRetry App.queryClient) = (Resolved [running_job], 2%nat).
Proof. reflexivity. Qed.

Example mutation_not_retried :
  createRetryer
    (fun k => match k with
              | O => Rejected NetworkError
              | _ => Resolved running_job
              end)
    (mutationRetry App.queryClient) = (Rejected NetworkError, 1%nat).
Proof. reflexivity. Qed.

End Checks.

(* ===================================================================== *)
(** * Part III. More of the client                                        *)
(* ===================================================================== *)

(** ** What [trim] leaves *)

Section TrimMore.
Import JS.

Lemma trimStart_split (s : text) :
  exists pre, s = pre ++ trimStart s /\ forallb isWhiteSpace pre = true.
Proof.
  induction s as [|c s (pre & E & Hpre)]; simpl.
  - by exists [].
  - destruct (isWhiteSpace c) eqn:Ec.
    + exists (c :: pre). simpl. rewrite Ec, Hpre. split; [by f_equal|reflexivity].
    + by exists [].
Qed.

Lemma trimEnd_split (t : text) :
  exists post, t = trimEnd t ++ post /\ forallb isWhiteSpace post = true.
Proof.
  destruct (trimStart_split (reverse t)) as (pre & E & Hpre).
  exists (reverse pre). split.
  - unfold trimEnd. rewrite <- reverse_app, <- E. by rewrite reverse_involutive.
  - by rewrite forallb_reverse.
Qed.

Lemma trim_split (s : text) :
  exists pre post,
    s = pre ++ trim s ++ post /\
    forallb isWhiteSpace pre = true /\ forallb isWhiteSpace post = true.
Proof.
  destruct (trimStart_split s) as (pre & E & Hpre).
  destruct (trimEnd_split (trimStart s)) as (post & E' & Hpost).
  exists pre, post. unfold trim. by rewrite <- E', <- E.
Qed.

Lemma trim_head (s : text) (c : N) :
  head (trim s) = Some c -> isWhiteSpace c = false.
Proof.
  unfold trim. destruct (trimEnd_split (trimStart s)) as (post & E & _).
  destruct (trimEnd (trimStart s)) as [|d r]; [discriminate|].
  intros [= ->]. simpl in E. by apply trimStart_head in E.
Qed.

Lemma trim_last (s : text) (c : N) :
  last (trim s) = Some c -> isWhiteSpace c = false.
Proof.
  unfold trim, trimEnd. rewrite last_reverse.
  destruct (trimStart (reverse (trimStart s))) as [|d r] eqn:E; [discriminate|].
  intros [= ->]. by apply trimStart_head in E.
Qed.

Lemma trimStart_fixed (s : text) :
  (forall c, head s = Some c -> isWhiteSpace c = false) -> trimStart s = s.
Proof.
  destruct s as [|c s]; [reflexivity|]. intros Hc. simpl. by rewrite (Hc c).
Qed.

Lemma trim_fixed (s : text) :
  (forall c, head s = Some c -> isWhiteSpace c = false) ->
  (forall c, last s = Some c -> isWhiteSpace c = false) ->
  trim s = s.
Proof.
  intros Hh Hl. unfold trim, trimEnd. rewrite (trimStart_fixed s Hh).
  rewrite trimStart_fixed; [apply reverse_involutive|].
  intros c. rewrite head_reverse. apply Hl.
Qed.

Lemma trim_idem (s : text) : trim (trim s) = trim s.
Proof. apply trim_fixed; [apply trim_head|apply trim_last]. Qed.

End TrimMore.

(** ** The create form in use *)

Section CreateJobFormMore.
Import JS Types Api Query CreateJobForm CreateJobFormSession.

Lemma handleSubmit_payload (st st' : State) (p : CreateJobPayload) :
  handleSubmit st = (st', Some p) ->
  payload_name p = trim (name st) /\ trim (name st) <> [] /\ name st' = name st.
Proof.
  unfold handleSubmit. destruct (truthy (trim (name st))) eqn:E; simpl.
  - intros [= <- <-]. simpl. split; [reflexivity|]. split; [|reflexivity].
    intros E'. rewrite E' in E. discriminate.
  - discriminate.
Qed.

(** X1. Whenever a submit calls [createJob], the name it sends is not
    empty, neither begins nor ends with white space, is what was typed
    without a run of white space at either end, and is left alone by
    another trim; the typed text itself stays in the input. *)
Theorem submitted_name_is_trimmed (st st' : State) (p : CreateJobPayload) :
  handleSubmit st = (st', Some p) ->
  payload_name p <> [] /\
  (forall c, head (payload_name p) = Some c -> isWhiteSpace c = false) /\
  (forall c, last (payload_name p) = Some c -> isWhiteSpace c = false) /\
  (exists pre post,
     name st = pre ++ payload_name p ++ post /\
     forallb isWhiteSpace pre = true /\ forallb isWhiteSpace post = true) /\
  trim (payload_name p) = payload_name p /\
  name st' = name st.
Proof.
  intros Hs. apply handleSubmit_payload in Hs as (-> & Hne & Hname).
  split; [exact Hne|]. split; [apply trim_head|]. split; [apply trim_last|].
  split; [apply trim_split|]. split; [apply trim_idem|exact Hname].
Qed.

Lemma submitted_name_is_trimmed_witness :
  let st := {| name := lit "  Fluid  Dynamics "; validationError := "" |} in
  payload_name {| payload_name := lit "Fluid  Dynamics" |} <> [] /\
  trim (lit "Fluid  Dynamics") = lit "Fluid  Dynamics".
Proof.
  intros st.
  destruct (submitted_name_is_trimmed st st {| payload_name := lit "Fluid  Dynamics" |})
    as (Hne & _ & _ & _ & Hfix & _).
  - reflexivity.
  - split; [exact Hne|exact Hfix].
Defined.

Lemma step_calls (e : Event) (s : Session) :
  (List.length (step e s).2 + in_flight s =
     (if settled e && isPending (mutation s) then 1 else 0) + in_flight (step e s).1)%nat /\
  Forall (fun p => payload_name p <> [] /\ trim (payload_name p) = payload_name p)
    (step e s).2.
Proof.
  unfold step, in_flight.
  destruct e as [v| |r]; destruct (isPending (mutation s)) eqn:Ep; simpl;
    try rewrite Ep; simpl; try (split; [reflexivity|constructor]).
  - destruct (handleSubmit (form s)) as [st [p|]] eqn:Eh; simpl.
    + split; [reflexivity|]. repeat constructor.
      * apply handleSubmit_payload in Eh as (-> & Hne & _). exact Hne.
      * apply handleSubmit_payload in Eh as (-> & _). apply trim_idem.
    + rewrite Ep. split; [reflexivity|constructor].
  - destruct r; simpl; split; try reflexivity; constructor.
Qed.

(** X2. Over any sequence of typing, submitting and settling, a new create
    request is only sent once the one before has settled: the requests sent
    plus the one in flight at the start never exceed the settlements plus
    the one in flight at the end.  Every name sent is non-empty and
    trimmed. *)
Theorem create_requests_wait_for_settlement (es : list Event) (s : Session) :
  (List.length (run es s).2 + in_flight s <=
     List.length (List.filter settled es) + in_flight (run es s).1)%nat /\
  Forall (fun p => payload_name p <> [] /\ trim (payload_name p) = payload_name p)
    (run es s).2.
Proof.
  revert s. induction es as [|e es IH]; intros s; simpl.
  - split; [lia|constructor].
  - destruct (step_calls e s) as [Hn Hf].
    destruct (step e s) as [s1 calls1]. simpl in Hn, Hf.
    specialize (IH s1). destruct (run es s1) as [s2 calls2]. simpl in *.
    destruct IH as [IHn IHf]. split.
    + rewrite length_app.
      destruct (settled e); simpl in *;
        destruct (isPending (mutation s)); simpl in *; lia.
    + apply Forall_app. by split.
Qed.

(** X3. The message of a failed create stays on the screen while the user
    types and when a blank name is submitted (then beside the validation
    message); it goes away when the next create request is sent, which also
    disables the input and the button. *)
Theorem create_error_stays_until_next_request (st : State) (e : JSError) :
  let s := {| form := st; mutation := failedMutation e |} in
  let view := fun s' : Session => render (form s') (mutation s') in
  (forall value,
     api_error (view (step (Typed value) s).1) = Some e /\
     validation_message (view (step (Typed value) s).1) = None /\
     input_value (view (step (Typed value) s).1) = value) /\
  (trim (name st) = [] ->
     api_error (view (step Submitted s).1) = Some e /\
     validation_message (view (step Submitted s).1) = Some "Job name cannot be empty" /\
     (step Submitted s).2 = []) /\
  (trim (name st) <> [] ->
     api_error (view (step Submitted s).1) = None /\
     validation_message (view (step Submitted s).1) = None /\
     input_disabled (view (step Submitted s).1) = true /\
     button_disabled (view (step Submitted s).1) = true /\
     button_label (view (step Submitted s).1) = "Creating..." /\
     (step Submitted s).2 = [{| payload_name := trim (name st) |}]).
Proof.
  intros s view. subst s view. split; [|split].
  - intros value. unfold step, render; cbn -[onChange].
    rewrite onChange_clears. repeat split.
  - intros Hblank. unfold step, handleSubmit; simpl.
    rewrite Hblank. repeat split.
  - intros Hname. unfold step, handleSubmit; simpl.
    destruct (trim (name st)) as [|c r] eqn:E; [contradiction|].
    repeat split.
Qed.

End CreateJobFormMore.

(** ** The requests the API layer makes *)

Section ApiMore.
Import JS Types Api.
Context `{Platform}.

(** X4. The request of [fetchJobs] is a GET of [/api/jobs/] whose query
    holds [page] and [sort] and, unless the filter is 'ALL', [status], each
    once and in that order; read back, they are the page parameter as a
    string, the sort and the filter. *)
Theorem fetchJobs_request_params (a : FetchJobsArgs) :
  let req := fetchJobs_request a in
  method req = GET /\ path req = [BASE; "jobs"] /\ body req = NoBody /\
  map fst (query req) =
    ["page"; "sort"] ++ (if bool_decide (arg_filter a = "ALL") then [] else ["status"]) /\
  params_get "page" (query req) = Some (String_ (pageParam a)) /\
  params_get "sort" (query req) = Some (arg_sort a) /\
  params_get "status" (query req) =
    (if bool_decide (arg_filter a = "ALL") then None else Some (arg_filter a)).
Proof.
  intros req. subst req. rewrite fetchJobs_request_query.
  split; [reflexivity|]. split; [reflexivity|]. split; [reflexivity|].
  case_bool_decide; repeat split.
Qed.

Lemma job_path_inj (id id' : Z) (rest rest' : list string) :
  [BASE; "jobs"; show_int id] ++ rest = [BASE; "jobs"; show_int id'] ++ rest' ->
  id = id' /\ rest = rest'.
Proof.
  intros [= E ->]. split; [|reflexivity]. by apply (inj pretty) in E.
Qed.

(** X5. The requests that act on one job name that job: two status
    updates, two deletes or two history fetches are the same request only
    for the same id (and the same new status), and no request of one kind
    is a request of another kind. *)
Theorem requests_name_their_job (id id' : Z) (p p' : UpdateJobStatusPayload)
    (c : CreateJobPayload) :
  (updateJobStatus_request id p = updateJobStatus_request id' p' <-> id = id' /\ p = p') /\
  (deleteJob_request id = deleteJob_request id' <-> id = id') /\
  (fetchJobHistory_request id = fetchJobHistory_request id' <-> id = id') /\
  updateJobStatus_request id p <> deleteJob_request id' /\
  updateJobStatus_request id p <> fetchJobHistory_request id' /\
  deleteJob_request id <> fetchJobHistory_request id' /\
  createJob_request c <> updateJobStatus_request id p /\
  createJob_request c <> deleteJob_request id /\
  createJob_request c <> fetchJobHistory_request id.
Proof.
  unfold updateJobStatus_request, deleteJob_request, fetchJobHistory_request,
    createJob_request.
  split; [|split; [|split]].
  - split.
    + intros [= E ->]. apply (inj pretty) in E. by split.
    + intros [-> ->]. reflexivity.
  - split.
    + intros [= E]. by apply (inj pretty) in E.
    + intros ->. reflexivity.
  - split.
    + intros [= E]. by apply (inj pretty) in E.
    + intros ->. reflexivity.
  - repeat split; discriminate.
Qed.

Lemma requests_name_their_job_witness :
  deleteJob_request 1 <> deleteJob_request 2 /\
  updateJobStatus_request 7 {| status_type := RUNNING |} <>
    updateJobStatus_request 7 {| status_type := FAILED |}.
Proof.
  split.
  - intros E.
    apply (requests_name_their_job 1 2 {| status_type := RUNNING |}
             {| status_type := RUNNING |} {| payload_name := [] |}) in E.
    discriminate.
  - intros E.
    apply (requests_name_their_job 7 7 {| status_type := RUNNING |}
             {| status_type := FAILED |} {| payload_name := [] |}) in E.
    destruct E as [_ E]. discriminate.
Defined.

Variable fetch : Request -> Promise Response JSError.

Lemma then_handleResponse {T} (cast : JSON -> T) (req : Request) (x : T) :
  then_ (fetch req) (handleResponse cast) = Resolved x <->
  exists res v,
    fetch req = Resolved res /\ ok res = true /\ json res = Some v /\ x = cast v.
Proof.
  unfold then_, handleResponse. split.
  - destruct (fetch req) as [res|e]; [|discriminate].
    destruct (ok res) eqn:Eok; simpl; [|discriminate].
    destruct (json res) as [v|] eqn:Ej; [|discriminate].
    intros [= <-]. by exists res, v.
  - intros (res & v & -> & -> & -> & ->). reflexivity.
Qed.

(** X6. A call of the API layer resolves only in one way: the network
    delivered a response, the response is 2xx and (but for delete) its body
    is JSON; the value is that body.  When [fetch] rejects, the call rejects
    with the same error and the response handler does not run. *)
Theorem api_calls_resolve_on_2xx_only
    (asPage : JSON -> PaginatedResponse Job) (asJob : JSON -> Job)
    (asHistory : JSON -> list JobStatusEntry) :
  (forall a page,
     fetchJobs fetch asPage a = Resolved page <->
     exists res v, fetch (fetchJobs_request a) = Resolved res /\
                   ok res = true /\ json res = Some v /\ page = asPage v) /\
  (forall p job,
     createJob fetch asJob p = Resolved job <->
     exists res v, fetch (createJob_request p) = Resolved res /\
                   ok res = true /\ json res = Some v /\ job = asJob v) /\
  (forall id p job,
     updateJobStatus fetch asJob id p = Resolved job <->
     exists res v, fetch (updateJobStatus_request id p) = Resolved res /\
                   ok res = true /\ json res = Some v /\ job = asJob v) /\
  (forall id h,
     fetchJobHistory fetch asHistory id = Resolved h <->
     exists res v, fetch (fetchJobHistory_request id) = Resolved res /\
                   ok res = true /\ json res = Some v /\ h = asHistory v) /\
  (forall id,
     deleteJob fetch id = Resolved () <->
     exists res, fetch (deleteJob_request id) = Resolved res /\ ok res = true) /\
  (forall e,
     (forall a, fetch (fetchJobs_request a) = Rejected e ->
                fetchJobs fetch asPage a = Rejected e) /\
     (forall p, fetch (createJob_request p) = Rejected e ->
                createJob fetch asJob p = Rejected e) /\
     (forall id p, fetch (updateJobStatus_request id p) = Rejected e ->
                   updateJobStatus fetch asJob id p = Rejected e) /\
     (forall id, fetch (fetchJobHistory_request id) = Rejected e ->
                 fetchJobHistory fetch asHistory id = Rejected e) /\
     (forall id, fetch (deleteJob_request id) = Rejected e ->
                 deleteJob fetch id = Rejected e)).
Proof.
  split; [intros; apply then_handleResponse|].
  split; [intros; apply then_handleResponse|].
  split; [intros; apply then_handleResponse|].
  split; [intros; apply then_handleResponse|].
  split.
  - intros id. unfold deleteJob, then_, deleteJob_response. split.
    + destruct (fetch (deleteJob_request id)) as [res|e]; [|discriminate].
      destruct (ok res) eqn:Eok; simpl; [|discriminate]. by exists res.
    + intros (res & -> & ->). reflexivity.
  - intros e.
    unfold fetchJobs, createJob, updateJobStatus, fetchJobHistory, deleteJob.
    repeat split; intros; by rewrite H0.
Qed.

End ApiMore.

Section ApiMessages.
Import JS Types Api.

Lemma coalesce_not_null (a : option JSON) (b : JSON) :
  b <> JNull -> coalesce a b <> JNull.
Proof. destruct a as [[]|]; simpl; congruence. Qed.

(** X7. The message of a rejection is never [null]: it is the generic text
    with the status code whenever the body of the response is not JSON, is
    JSON but not an object, or is an object whose [error] and [detail] are
    both missing or [null]; and [error], when it is there and not [null],
    wins whatever [detail] holds. *)
Theorem error_message_fallbacks (prefix : string) (res : Response) :
  error_message prefix res <> JNull /\
  (json res = None -> error_message prefix res = generic_message prefix res) /\
  (forall v, json res = Some v -> (forall ms, v <> JObj ms) ->
     error_message prefix res = generic_message prefix res) /\
  (forall ms, json res = Some (JObj ms) ->
     (member (JObj ms) (lit "error") = None \/ member (JObj ms) (lit "error") = Some JNull) ->
     (member (JObj ms) (lit "detail") = None \/ member (JObj ms) (lit "detail") = Some JNull) ->
     error_message prefix res = generic_message prefix res) /\
  (forall ms e, json res = Some (JObj ms) ->
     member (JObj ms) (lit "error") = Some e -> e <> JNull ->
     error_message prefix res = e).
Proof.
  unfold error_message. split; [|split; [|split; [|split]]].
  - apply coalesce_not_null, coalesce_not_null. discriminate.
  - intros ->. reflexivity.
  - intros v -> Hv. destruct v; try reflexivity. by destruct (Hv members).
  - intros ms -> He Hd.
    change (default JNull (Some (JObj ms))) with (JObj ms).
    change (opt_member (JObj ms)) with (member (JObj ms)).
    destruct He as [-> | ->], Hd as [-> | ->]; reflexivity.
  - intros ms e -> He Hne.
    change (default JNull (Some (JObj ms))) with (JObj ms).
    change (opt_member (JObj ms)) with (member (JObj ms)). rewrite He.
    destruct e; try reflexivity. contradiction.
Qed.

Lemma error_message_fallbacks_witness :
  error_message "Request failed with status "
    {| status := 500; json := Some (JStr (lit "Internal Server Error")) |} =
    JStr (lit "Request failed with status 500") /\
  error_message "Request failed with status "
    {| status := 400;
       json := Some (JObj [(lit "detail", JStr (lit "d")); (lit "error", JStr (lit "e"))]) |} =
    JStr (lit "e").
Proof.
  split.
  - destruct (error_message_fallbacks "Request failed with status "
                {| status := 500; json := Some (JStr (lit "Internal Server Error")) |})
      as (_ & _ & Hv & _).
    rewrite (Hv (JStr (lit "Internal Server Error"))); [|reflexivity|discriminate].
    vm_compute. reflexivity.
  - apply (error_message_fallbacks "Request failed with status "
             {| status := 400;
                json := Some (JObj [(lit "detail", JStr (lit "d"));
                                    (lit "error", JStr (lit "e"))]) |}
          ) with (ms := [(lit "detail", JStr (lit "d")); (lit "error", JStr (lit "e"))]).
    + reflexivity.
    + reflexivity.
    + discriminate.
Defined.

End ApiMessages.

(** ** The job card in use *)

Section JobCardMore.
Import JS Types Api Query JobCard JobCardSession.

Lemma offered_spec (job : Job) (value : StatusType) :
  offered job value = true <-> Some value <> current_status job.
Proof.
  unfold offered. rewrite bool_decide_eq_true, list_elem_of_In, filter_In.
  rewrite negb_true_iff, bool_decide_eq_false. split; [tauto|].
  intros Hne. split; [|exact Hne]. unfold ALL_STATUSES. destruct value; simpl; tauto.
Qed.

Lemma card_step (job : Job) (e : Event) (s : Session) :
  (List.length (step job e s).2 + in_flight s <=
     (if settled e then 1 else 0) + in_flight (step job e s).1)%nat /\
  (in_flight (step job e s).1 <= Nat.max 1 (in_flight s))%nat /\
  Forall (fun r => r = delete_request job \/
                   exists value, r = update_request job value /\
                                 Some value <> current_status job)
    (step job e s).2.
Proof.
  unfold step, in_flight, isLoading.
  destruct e as [value| | |r|r];
    destruct (isPending (updateMutation s)) eqn:Eu;
    destruct (isPending (deleteMutation s)) eqn:Ed; simpl;
    try destruct (offered job value) eqn:Eo; try destruct r; simpl;
    rewrite ?Eu, ?Ed; simpl;
    (split; [lia|split; [lia|]]);
    try apply List.Forall_nil; (apply List.Forall_cons; [|apply List.Forall_nil]).
  - right. exists value. split; [reflexivity|]. by apply offered_spec.
  - by left.
Qed.

(** X8. Whatever happens to a card, every request it sends is a DELETE of
    its own job or a PATCH of its own job to a status other than the one
    the job has; a request is only sent when none is in flight, so the
    requests sent never exceed the settlements by more than one, and a card
    that starts with at most one mutation pending never has two. *)
Theorem card_requests_are_its_own_and_one_at_a_time
    (job : Job) (es : list Event) (s : Session) :
  (List.length (run job es s).2 + in_flight s <=
     List.length (List.filter settled es) + in_flight (run job es s).1)%nat /\
  (in_flight (run job es s).1 <= Nat.max 1 (in_flight s))%nat /\
  Forall (fun r => r = delete_request job \/
                   exists value, r = update_request job value /\
                                 Some value <> current_status job)
    (run job es s).2.
Proof.
  revert s. induction es as [|e es IH]; intros s; simpl.
  - split; [lia|]. split; [lia|constructor].
  - destruct (card_step job e s) as (Hn & Hm & Hf).
    destruct (step job e s) as [s1 sent1]. simpl in Hn, Hm, Hf.
    specialize (IH s1). destruct (run job es s1) as [s2 sent2]. simpl in *.
    destruct IH as (IHn & IHm & IHf). split; [|split].
    + rewrite length_app. destruct (settled e); simpl in *; lia.
    + lia.
    + apply Forall_app. by split.
Qed.

(** X19. The two messages of a card are kept apart.  A status update that
    fails shows its message and gives the controls back; the message stays
    while the history is toggled and while the job's delete is sent and
    settles, and goes away when the next status update is sent.  The same
    holds for a failed delete.  Sending either request disables the select
    and the delete button. *)
Theorem card_messages_are_kept_apart (job : Job) (h : QueryResult) (s : Session) :
  let view := fun s' : Session =>
    render job (showHistory s') h (updateMutation s') (deleteMutation s') in
  (forall e, isPending (updateMutation s) = true ->
     let s' := (step job (UpdateSettled (Rejected e)) s).1 in
     update_error (view s') = Some e /\
     delete_error (view s') = delete_error (view s) /\
     controls_disabled (view s') = isPending (deleteMutation s)) /\
  (forall e, isPending (deleteMutation s) = true ->
     let s' := (step job (DeleteSettled (Rejected e)) s).1 in
     delete_error (view s') = Some e /\
     update_error (view s') = update_error (view s) /\
     delete_button (view s') = "Delete" /\
     controls_disabled (view s') = isPending (updateMutation s)) /\
  (forall ev, (forall value, ev <> StatusSelected value) ->
     (forall r, ev <> UpdateSettled r) ->
     update_error (view (step job ev s).1) = update_error (view s)) /\
  (forall ev, ev <> DeleteClicked -> (forall r, ev <> DeleteSettled r) ->
     delete_error (view (step job ev s).1) = delete_error (view s)) /\
  (forall value, (step job (StatusSelected value) s).2 <> [] ->
     let s' := (step job (StatusSelected value) s).1 in
     update_error (view s') = None /\
     delete_error (view s') = delete_error (view s) /\
     controls_disabled (view s') = true) /\
  ((step job DeleteClicked s).2 <> [] ->
     let s' := (step job DeleteClicked s).1 in
     delete_error (view s') = None /\
     update_error (view s') = update_error (view s) /\
     delete_button (view s') = "Deleting..." /\
     controls_disabled (view s') = true).
Proof.
  intros view. subst view. unfold step, isLoading.
  split; [|split; [|split; [|split; [|split]]]].
  - intros e ->. simpl. repeat split.
  - intros e ->. simpl. repeat split. apply orb_false_r.
  - intros ev Hsel Hset. destruct ev as [value| | |r|r].
    + by destruct (Hsel value).
    + by destruct (isPending (updateMutation s) || isPending (deleteMutation s)).
    + reflexivity.
    + by destruct (Hset r).
    + by destruct (isPending (deleteMutation s)).
  - intros ev Hdel Hset. destruct ev as [value| | |r|r].
    + by destruct (isPending (updateMutation s) || isPending (deleteMutation s)
                   || negb (offered job value)).
    + by destruct Hdel.
    + reflexivity.
    + by destruct (isPending (updateMutation s)).
    + by destruct (Hset r).
  - intros value.
    destruct (isPending (updateMutation s) || isPending (deleteMutation s)
              || negb (offered job value)); simpl; [by intros []|].
    intros _. repeat split.
  - destruct (isPending (updateMutation s) || isPending (deleteMutation s)) eqn:El;
      simpl; [by intros []|].
    intros _. repeat split. apply orb_true_r.
Qed.

End JobCardMore.

(** ** Keys and entries of the cache *)

Section CacheMore.
Import JS Types Api Query JobList.
Context `{Platform}.
Variable fetch : Request -> Promise Response JSError.
Variable asPage : JSON -> PaginatedResponse Job.
Variable asHistory : JSON -> list JobStatusEntry.

Lemma readQuery_other now staleTime (o : QueryOptions) c k :
  k <> plain_queryKey o -> readQuery now staleTime o c !! k = c !! k.
Proof.
  intros Hne. unfold readQuery. destruct (shouldFetch _ _ _ _); [|reflexivity].
  unfold fetchQuery. by rewrite lookup_insert_ne.
Qed.

Lemma historyKey_not_list (job : Job) (st : State) :
  JobCard.historyKey job <> queryKey (JobListSrv.options fetch asPage st).
Proof. discriminate. Qed.

(** X9. The history of a job is cached under a key of its own: two jobs
    share it only if they have the same id, and it is the key of no list
    view.  So reading a history leaves every list and every other history
    as they are, and reading a list or loading more leaves every history as
    it is. *)
Theorem history_is_cached_apart (job job' : Job) (st : State)
    (c : gmap QueryKey QueryState) :
  (JobCard.historyKey job = JobCard.historyKey job' <-> id job = id job') /\
  JobCard.historyKey job <> queryKey (JobListSrv.options fetch asPage st) /\
  JobCard.historyKey job <> [KStr "jobs"] /\
  (forall showHistory now staleTime,
     readQuery now staleTime (JobCard.historyQuery fetch asHistory job showHistory) c
       !! queryKey (JobListSrv.options fetch asPage st) =
     c !! queryKey (JobListSrv.options fetch asPage st)) /\
  (forall showHistory now staleTime,
     id job <> id job' ->
     readQuery now staleTime (JobCard.historyQuery fetch asHistory job showHistory) c
       !! JobCard.historyKey job' = c !! JobCard.historyKey job') /\
  (forall now staleTime,
     readInfiniteQuery (JobListSrv.options fetch asPage st) now staleTime c
       !! JobCard.historyKey job = c !! JobCard.historyKey job) /\
  (forall now,
     fetchNextPage (JobListSrv.options fetch asPage st) now c
       !! JobCard.historyKey job = c !! JobCard.historyKey job).
Proof.
  split; [|split; [|split; [|split; [|split; [|split]]]]].
  - unfold JobCard.historyKey. split; [by intros [= ->]|by intros ->].
  - discriminate.
  - discriminate.
  - intros showHistory now staleTime. apply readQuery_other. discriminate.
  - intros showHistory now staleTime Hne. apply readQuery_other.
    cbn. intros [= E]. by apply Hne.
  - intros now staleTime. apply readInfiniteQuery_other. discriminate.
  - intros now. apply fetchNextPage_other. discriminate.
Qed.

(** X10. The list that asks the backend keeps one cache entry for each
    pair of filter and sort: different pairs have different keys, reading or
    loading more under one pair leaves the entries of all others as they
    are, and a pair that was never read is loaded by one request, for page
    1 with the sort and the status of that pair. *)
Theorem server_list_is_cached_per_filter_and_sort (st st' : State)
    (c : gmap QueryKey QueryState) (now staleTime : Z) :
  let key := fun s => queryKey (JobListSrv.options fetch asPage s) in
  (key st = key st' <-> st = st') /\
  (st <> st' ->
     readInfiniteQuery (JobListSrv.options fetch asPage st') now staleTime c !! key st =
       c !! key st /\
     fetchNextPage (JobListSrv.options fetch asPage st') now c !! key st = c !! key st) /\
  (c !! key st' = None ->
     readInfiniteQuery (JobListSrv.options fetch asPage st') now staleTime c !! key st' =
     Some (match
             then_ (fetch
                      {| method := GET; path := [BASE; "jobs"];
                         query :=
                           [("page", String_ num1); ("sort", SortValue_str (sort st'))] ++
                           match filter st' with
                           | ALL => []
                           | Only s => [("status", StatusType_str s)]
                           end;
                         body := NoBody |})
                   (handleResponse asPage)
           with
           | Resolved page => setData now (InfiniteData [page] [num1])
           | Rejected e => setError e newQuery
           end)).
Proof.
  intros key. subst key. split; [|split].
  - split; [apply queryKey_inj|by intros ->].
  - intros Hne.
    assert (queryKey (JobListSrv.options fetch asPage st) <>
            queryKey (JobListSrv.options fetch asPage st')) as Hk.
    { intros E. by apply queryKey_inj in E. }
    split; [by apply readInfiniteQuery_other|by apply fetchNextPage_other].
  - intros Habs. rewrite readInfiniteQuery_absent by exact Habs.
    rewrite queryFn_request. reflexivity.
Qed.

(** X11. In every cache the client can reach while the backend's answers
    stay the same, what is merged under the key of a filter and sort is a
    sequence of pages that are, one by one, the backend's answers to that
    filter and sort for the page parameters stored beside them, and the
    first of them was asked for with page parameter 1. *)
Theorem reachable_pages_answer_their_view (c : gmap QueryKey QueryState) (st : State) :
  Client.Reachable fetch asPage asHistory c ->
  let opts := JobListSrv.options fetch asPage st in
  fresh opts (loaded (entry c (queryKey opts))) /\
  starts_at_first_page opts (entry c (queryKey opts)).
Proof.
  intros Hreach opts. induction Hreach as [|c c' Hreach [Hf Hs] Hstep].
  - split; [constructor|apply starts_at_first_page_new].
  - destruct (merged_pages_are_own fetch asPage st c Hf) as (Hread & Hmore & Hmut).
    destruct Hstep as [st' now staleTime c|st' now c|job showHistory now staleTime c|m c].
    + split; [apply Hread|].
      destruct (decide (st' = st)) as [->|Hne].
      * unfold readInfiniteQuery. fold opts.
        destruct (isStale _ _ _); [|exact Hs].
        unfold fetchInfiniteQuery. rewrite entry_insert_eq.
        by apply starts_at_first_page_refetch.
      * rewrite (entry_eq c); [exact Hs|]. apply readInfiniteQuery_other.
        intros E. apply Hne. symmetry. by apply queryKey_inj in E.
    + split; [apply Hmore|].
      destruct (decide (st' = st)) as [->|Hne].
      * unfold fetchNextPage. fold opts. rewrite entry_insert_eq.
        by apply starts_at_first_page_next.
      * rewrite (entry_eq c); [exact Hs|]. apply fetchNextPage_other.
        intros E. apply Hne. symmetry. by apply queryKey_inj in E.
    + rewrite (entry_eq c); [by split|].
      apply readQuery_other. discriminate.
    + split; [apply Hmut|].
      unfold starts_at_first_page.
      rewrite onSuccess_invalidates, loaded_invalidateQueries. exact Hs.
Qed.

End CacheMore.

(** ** What the list shows *)

Section ListViewsMore.
Import JS Types Api Query JobList JobListViews.
Context `{Platform}.

Lemma sort_length {A} (cmp : A -> A -> Z) (l : list A) :
  List.length (ArraySort.sort cmp l) = List.length l.
Proof. symmetry. apply Permutation_length, sort_perm. Qed.


(** X13. What the list shows when there is nothing to show.  While the
    query loads or after it failed, both revisions show no card and no Load
    More button, whatever is cached.  With no job loaded, the revision that
    filters in memory shows 'No jobs yet' alone, without header, filter
    tabs or Load More, under every filter; the other says 'No jobs yet' under
    the filter 'ALL' and 'No jobs with status ...' under any other.  With jobs
    loaded, the revision that filters in memory says 'No jobs with status
    ...' exactly when no loaded job has the status of the filter. *)
Theorem empty_states (st : State) (r : InfiniteQueryResult) :
  (isLoading r = true \/ isError r = true ->
     cards (JobListSrv.render st r) = [] /\ loadMore (JobListSrv.render st r) = None /\
     cards (JobListMem.render st r) = [] /\ loadMore (JobListMem.render st r) = None) /\
  (isLoading r = false -> isError r = false -> jobs_of r = [] ->
     JobListMem.render st r = Empty /\
     listing_of (JobListSrv.render st r) =
       Some (match filter st with
             | ALL => NoJobsYet
             | Only s => NoJobsWithStatus (Some (STATUS_LABELS s))
             end)) /\
  (isLoading r = false -> isError r = false -> jobs_of r <> [] ->
     listing_of (JobListSrv.render st r) = Some (Cards (jobs_of r)) /\
     (listing_of (JobListMem.render st r) = Some (NoJobsWithStatus (filter_label (filter st)))
      <-> exists s, filter st = Only s /\
                    forall j, In j (jobs_of r) -> current_status j <> Some s)).
Proof.
  split; [|split].
  - unfold JobListSrv.render, JobListMem.render.
    intros [-> | He]; [by repeat split|].
    destruct (isLoading r); [by repeat split|]. rewrite He. by repeat split.
  - intros Hl He Hj. unfold JobListSrv.render, JobListMem.render.
    rewrite Hl, He, Hj. split; [reflexivity|]. cbn. by destruct (filter st).
  - intros Hl He Hj. unfold JobListSrv.render, JobListMem.render.
    rewrite Hl, He. destruct (jobs_of r) as [|j0 l] eqn:Ej; [contradiction|].
    split; [reflexivity|]. cbn [listing_of].
    set (shown := JobListMem.sorted (sort st) (JobListMem.filtered (filter st) (j0 :: l))).
    assert (shown = [] <-> JobListMem.filtered (filter st) (j0 :: l) = []) as Hnil.
    { subst shown. unfold JobListMem.sorted. split.
      - intros E. apply (f_equal (@List.length Job)) in E.
        rewrite sort_length in E. by destruct (JobListMem.filtered _ _).
      - intros ->. reflexivity. }
    split.
    + destruct shown as [|x xs] eqn:Es; [|discriminate]. intros _.
      destruct Hnil as [Hnil _]. specialize (Hnil eq_refl).
      destruct (filter st) as [|s] eqn:Ef; [discriminate|].
      exists s. split; [reflexivity|]. intros j Hin Hst.
      assert (In j (JobListMem.filtered (Only s) (j0 :: l))) as Hf.
      { apply filtered_In. by split. }
      rewrite Hnil in Hf. destruct Hf.
    + intros (s & Ef & Hnone).
      destruct Hnil as [_ Hnil]. rewrite Hnil; [reflexivity|].
      rewrite Ef. destruct (JobListMem.filtered (Only s) (j0 :: l)) as [|x xs] eqn:E;
        [reflexivity|].
      assert (In x (JobListMem.filtered (Only s) (j0 :: l))) as Hx by (rewrite E; by left).
      apply filtered_In in Hx as [Hin Hst]. by destruct (Hnone x Hin).
Qed.

Variable fetch : Request -> Promise Response JSError.
Variable asPage : JSON -> PaginatedResponse Job.

(** X14. When Load More fails, the query goes into its error state with
    the pages it had: the list then shows the failure in place of the jobs
    that were on the screen, and no Load More button, although the pages are
    still in the cache. *)
Theorem failed_load_more_replaces_the_list (st : State) (c : gmap QueryKey QueryState)
    (pages : list Page) (params : list JSNumber) (lastPage : Page) (url : URL)
    (e : JSError) (now : Z) :
  let opts := JobListSrv.options fetch asPage st in
  data (entry c (queryKey opts)) = Some (InfiniteData pages params) ->
  last pages = Some lastPage -> next lastPage = Some url ->
  fetchJobs fetch asPage
    {| pageParam := Number_ (params_get "page" (searchParams url));
       arg_filter := FilterValue_str (filter st);
       arg_sort := SortValue_str (sort st) |} = Rejected e ->
  let c' := fetchNextPage opts now c in
  JobListSrv.JobList fetch asPage st c' = FailedToLoad (Some e) /\
  cards (JobListSrv.JobList fetch asPage st c') = [] /\
  loadMore (JobListSrv.JobList fetch asPage st c') = None /\
  data (entry c' (queryKey opts)) = Some (InfiniteData pages params).
Proof.
  intros opts Hdata Hlast Hurl Hfetch c'.
  assert (entry c' (queryKey opts) = setError e (entry c (queryKey opts))) as Hentry.
  { subst c'. unfold fetchNextPage. rewrite entry_insert_eq.
    unfold loaded. rewrite Hdata. unfold fetchNext, nextPageParam. cbn [fst].
    rewrite Hlast. cbn. unfold getNextPageParam. rewrite Hurl.
    unfold fetchPage. cbn [queryFn opts JobListSrv.options]. rewrite Hfetch.
    reflexivity. }
  assert (JobListSrv.JobList fetch asPage st c' = FailedToLoad (Some e)) as Hview.
  { unfold JobListSrv.JobList, JobListSrv.render, useInfiniteQuery. fold opts.
    rewrite Hentry. reflexivity. }
  rewrite Hview, Hentry. repeat split. exact Hdata.
Qed.

End ListViewsMore.

(** ** More on sorting in memory *)

Section SortMore.
Import JS Types Api Query JobList JobListMem.
Context `{Platform}.

Lemma sort_sorted_fixed {A} (cmp : A -> A -> Z) (l : list A) :
  StronglySorted (fun a b => cmp a b <= 0) l -> ArraySort.sort cmp l = l.
Proof.
  induction 1 as [|x l Hs IH Hall]; [reflexivity|].
  cbn [ArraySort.sort foldr]. change (foldr (ArraySort.insert cmp) [] l) with (ArraySort.sort cmp l).
  rewrite IH. destruct l as [|y l']; [reflexivity|].
  cbn [ArraySort.insert]. inversion_clear Hall as [|? ? Hxy _].
  destruct (Z.ltb_spec 0 (cmp x y)); [lia|reflexivity].
Qed.

(** X15. Jobs that are loaded in the order of the chosen sort are shown in
    the order in which they were loaded: sorting in memory changes nothing
    then.  Hence sorting twice is sorting once. *)
Theorem sorted_keeps_an_ordered_list (s : SortValue) (jobs : list Job) :
  (StronglySorted (Spec.in_order s) jobs -> sorted s jobs = jobs) /\
  (Consistent localeCompare -> sorted s (sorted s jobs) = sorted s jobs).
Proof.
  assert (forall l, StronglySorted (Spec.in_order s) l -> sorted s l = l) as Hfix.
  { intros l Hs. apply sort_sorted_fixed.
    induction Hs as [|x l' Hs IH Hall]; constructor; [exact IH|].
    eapply List.Forall_impl; [|exact Hall]. intros b. apply comparator_in_order. }
  split; [apply Hfix|].
  intros Hc. apply Hfix.
  pose proof (@sort_sorted Job (comparator s) (comparator_consistent s) jobs) as Hs.
  unfold sorted.
  induction Hs as [|a l Hs IH Hall]; constructor; [exact IH|].
  eapply List.Forall_impl; [|exact Hall]. intros b. apply comparator_in_order.
Qed.

End SortMore.

(** ** The shared client: retries and freshness *)

Section ClientMore.
Import JS Types Api Query.

Lemma run_result {A E} (fn : nat -> Promise A E) (k retry : nat) :
  (isRejected (run fn k retry).1 = true <->
     forall j, (j <= retry)%nat -> isRejected (fn (k + j)%nat) = true) /\
  (forall a, (run fn k retry).1 = Resolved a ->
     exists j, (j <= retry)%nat /\ fn (k + j)%nat = Resolved a /\
               (run fn k retry).2 = S (k + j) /\
               forall i, (i < j)%nat -> isRejected (fn (k + i)%nat) = true).
Proof.
  revert k. induction retry as [|r IH]; intros k; simpl.
  - destruct (fn k) as [a|e] eqn:Ek; simpl; split.
    + split; [discriminate|]. intros Hall. specialize (Hall 0%nat (le_n _)).
      rewrite Nat.add_0_r, Ek in Hall. discriminate.
    + intros a' [= <-]. exists 0%nat. rewrite Nat.add_0_r.
      repeat split; [lia|exact Ek|]. intros i Hi. lia.
    + split; [|reflexivity]. intros _ j Hj. assert (j = 0%nat) as -> by lia.
      by rewrite Nat.add_0_r, Ek.
    + discriminate.
  - destruct (fn k) as [a|e] eqn:Ek; simpl.
    + split.
      * split; [discriminate|]. intros Hall. specialize (Hall 0%nat (Nat.le_0_l _)).
        rewrite Nat.add_0_r, Ek in Hall. discriminate.
      * intros a' [= <-]. exists 0%nat. rewrite Nat.add_0_r.
        repeat split; [lia|exact Ek|]. intros i Hi. lia.
    + destruct (IH (S k)) as [IH1 IH2]. split.
      * rewrite IH1. split.
        -- intros Hall [|j] Hj.
           ++ by rewrite Nat.add_0_r, Ek.
           ++ replace (k + S j)%nat with (S k + j)%nat by lia. apply Hall. lia.
        -- intros Hall j Hj. replace (S k + j)%nat with (k + S j)%nat by lia.
           apply Hall. lia.
      * intros a Ha. destruct (IH2 a Ha) as (j & Hj & Hfn & Hn & Hbefore).
        exists (S j). replace (k + S j)%nat with (S k + j)%nat by lia.
        repeat split; [lia|exact Hfn|exact Hn|].
        intros [|i] Hi.
        -- by rewrite Nat.add_0_r, Ek.
        -- replace (k + S i)%nat with (S k + i)%nat by lia. apply Hbefore. lia.
Qed.

(** X16. With the options of the shared client a query function is called
    once or twice: a second time exactly when the first call failed, and
    the query fails exactly when both calls failed, with the error of the
    second.  A mutation function is called once and its outcome is the
    outcome of the mutation. *)
Theorem queries_are_retried_once_mutations_never {A} (fn : nat -> Promise A JSError) :
  let query := createRetryer fn (queryRetry App.queryClient) in
  let mutation := createRetryer fn (mutationRetry App.queryClient) in
  (query.2 = 1%nat \/ query.2 = 2%nat) /\
  (query.2 = 2%nat <-> isRejected (fn 0%nat) = true) /\
  (isRejected query.1 = true <->
     isRejected (fn 0%nat) = true /\ isRejected (fn 1%nat) = true) /\
  (isRejected (fn 0%nat) = true -> query.1 = fn 1%nat) /\
  (isRejected (fn 0%nat) = false -> query.1 = fn 0%nat) /\
  mutation = (fn 0%nat, 1%nat).
Proof.
  intros query mutation. subst query mutation.
  unfold createRetryer. cbn [queryRetry mutationRetry App.queryClient queries mutations
    retry mbind option_bind retryCount run].
  destruct (fn 0%nat) as [a|e] eqn:E0; simpl.
  - repeat split; try tauto; try discriminate; try (intros [? ?]; discriminate).
  - destruct (fn 1%nat) as [a|e1] eqn:E1; simpl;
      repeat split; try tauto; try discriminate; try (intros [? ?]; discriminate);
      try (right; reflexivity).
Qed.

Context `{Platform}.

(** X17. Data the client fetched at time [t] and that no mutation has
    invalidated is served from the cache until 30 seconds have passed:
    reading the list or an open history before [t + 30000] changes nothing
    in the cache, reading it from then on fetches again.  A closed history
    panel never fetches. *)
Theorem fresh_data_is_read_from_the_cache (c : gmap QueryKey QueryState)
    (k : QueryKey) (d : Data) (t now : Z) :
  c !! k = Some (setData t d) ->
  let staleTime := queryStaleTime App.queryClient in
  staleTime = 30000 /\
  (forall opts, queryKey opts = k ->
     (now < t + 30000 -> readInfiniteQuery opts now staleTime c = c) /\
     (t + 30000 <= now ->
        readInfiniteQuery opts now staleTime c = fetchInfiniteQuery opts now c)) /\
  (forall o, plain_queryKey o = k ->
     (now < t + 30000 -> readQuery now staleTime o c = c) /\
     (enabled o = false -> readQuery now staleTime o c = c) /\
     (t + 30000 <= now -> enabled o = true ->
        readQuery now staleTime o c = fetchQuery now o c)).
Proof.
  intros Hk staleTime. subst staleTime.
  assert (entry c k = setData t d) as Hentry by (unfold entry; by rewrite Hk).
  assert (forall x, isStale now 30000 (setData t d) = x <-> (t + 30000 <=? now) = x) as Hs.
  { intros x. unfold isStale. simpl. reflexivity. }
  split; [reflexivity|]. split.
  - intros opts <-. unfold readInfiniteQuery. rewrite Hentry.
    change (queryStaleTime App.queryClient) with 30000. split.
    + intros Hlt. by rewrite (proj2 (Hs false) (proj2 (Z.leb_gt _ _) Hlt)).
    + intros Hle. by rewrite (proj2 (Hs true) (proj2 (Z.leb_le _ _) Hle)).
  - intros o <-. unfold readQuery, shouldFetch. rewrite Hentry.
    change (queryStaleTime App.queryClient) with 30000. split; [|split].
    + intros Hlt. rewrite (proj2 (Hs false) (proj2 (Z.leb_gt _ _) Hlt)).
      by rewrite andb_false_r.
    + intros ->. reflexivity.
    + intros Hle ->. by rewrite (proj2 (Hs true) (proj2 (Z.leb_le _ _) Hle)).
Qed.

Import Mutations.

Lemma invalidate_idem (q : QueryState) : invalidate (invalidate q) = invalidate q.
Proof. reflexivity. Qed.

(** X18. The success handler of a mutation marks and does nothing else: it
    leaves the data of every entry as it is (so the list goes on showing the
    jobs it showed until the refetch has come back), adds and removes no
    entry, does not touch an entry whose key does not start with 'jobs', and
    running it again, for the same or another mutation, changes nothing
    more. *)
Theorem invalidation_only_marks (m m' : Mutation) (c : gmap QueryKey QueryState)
    (k : QueryKey) :
  data (entry (onSuccess m c) k) = data (entry c k) /\
  dataUpdatedAt (entry (onSuccess m c) k) = dataUpdatedAt (entry c k) /\
  (forall opts, JobList.jobs_of (useInfiniteQuery opts (onSuccess m c)) =
                JobList.jobs_of (useInfiniteQuery opts c)) /\
  (onSuccess m c !! k = None <-> c !! k = None) /\
  (partialMatchKey k [KStr "jobs"] = false -> onSuccess m c !! k = c !! k) /\
  onSuccess m (onSuccess m' c) = onSuccess m' c.
Proof.
  assert (forall k', data (entry (onSuccess m c) k') = data (entry c k') /\
                     dataUpdatedAt (entry (onSuccess m c) k') = dataUpdatedAt (entry c k'))
    as Hdata.
  { intros k'. unfold entry. rewrite onSuccess_invalidates, lookup_invalidateQueries.
    destruct (c !! k') as [q|]; [|by split].
    destruct (partialMatchKey k' [KStr "jobs"]); by split. }
  split; [apply Hdata|]. split; [apply Hdata|]. split; [|split; [|split]].
  - intros opts. unfold JobList.jobs_of, useInfiniteQuery. cbn [result_pages].
    by rewrite (proj1 (Hdata (queryKey opts))).
  - rewrite onSuccess_invalidates, lookup_invalidateQueries.
    destruct (c !! k); split; try discriminate; reflexivity.
  - intros Hno. rewrite onSuccess_invalidates, lookup_invalidateQueries, Hno.
    by destruct (c !! k).
  - apply map_eq. intros k'.
    rewrite !onSuccess_invalidates, !lookup_invalidateQueries.
    destruct (c !! k') as [q|]; [|reflexivity].
    destruct (partialMatchKey k' [KStr "jobs"]); reflexivity.
Qed.

End ClientMore.

(** ** The further properties on small inputs *)

Section MoreExamples.
Import JS Types Api Query JobList Sample.
#[local] Existing Instance Sample.platform.
#[local] Existing Instance compare_text_consistent.

Lemma create_requests_wait_for_settlement_witness :
  let s := {| CreateJobFormSession.form := CreateJobForm.initial;
              CreateJobFormSession.mutation := idleMutation |} in
  let es := [CreateJobFormSession.Typed (lit " Fluid ");
             CreateJobFormSession.Submitted;
             CreateJobFormSession.Submitted;
             CreateJobFormSession.Typed (lit "x");
             CreateJobFormSession.Settled (Rejected NetworkError);
             CreateJobFormSession.Submitted] in
  (CreateJobFormSession.run es s).2 =
    [{| payload_name := lit "Fluid" |}; {| payload_name := lit "Fluid" |}] /\
  (List.length (CreateJobFormSession.run es s).2 + CreateJobFormSession.in_flight s <=
     List.length (List.filter CreateJobFormSession.settled es) +
     CreateJobFormSession.in_flight (CreateJobFormSession.run es s).1)%nat.
Proof.
  intros s es. split; [reflexivity|].
  apply (create_requests_wait_for_settlement es s).
Defined.

Lemma create_error_stays_until_next_request_witness :
  let st := {| CreateJobForm.name := lit "  "; CreateJobForm.validationError := "" |} in
  let s := {| CreateJobFormSession.form := st;
              CreateJobFormSession.mutation :=
                CreateJobFormSession.failedMutation NetworkError |} in
  let s' := (CreateJobFormSession.step CreateJobFormSession.Submitted s).1 in
  CreateJobFormSession.api_error
    (CreateJobFormSession.render (CreateJobFormSession.form s')
       (CreateJobFormSession.mutation s')) = Some NetworkError /\
  CreateJobFormSession.validation_message
    (CreateJobFormSession.render (CreateJobFormSession.form s')
       (CreateJobFormSession.mutation s')) = Some "Job name cannot be empty".
Proof.
  intros st s s'.
  destruct (create_error_stays_until_next_request st NetworkError) as (_ & Hblank & _).
  destruct Hblank as (He & Hv & _); [reflexivity|].
  split; [exact He|exact Hv].
Defined.

Lemma fetchJobs_request_params_witness :
  let failed := {| pageParam := Finite 3; arg_filter := "FAILED"; arg_sort := "oldest" |} in
  let all := {| pageParam := Finite 3; arg_filter := "ALL"; arg_sort := "oldest" |} in
  query (fetchJobs_request failed) =
    [("page", "3"); ("sort", "oldest"); ("status", "FAILED")] /\
  params_get "status" (query (fetchJobs_request failed)) = Some "FAILED" /\
  params_get "status" (query (fetchJobs_request all)) = None.
Proof.
  intros failed all.
  destruct (fetchJobs_request_params failed) as (_ & _ & _ & _ & _ & _ & Hfailed).
  destruct (fetchJobs_request_params all) as (_ & _ & _ & _ & _ & _ & Hall).
  split; [reflexivity|]. split; [exact Hfailed|exact Hall].
Defined.

Lemma api_calls_resolve_on_2xx_only_witness :
  let fetch := answering {| Api.status := 201; json := Some JNull |} in
  createJob fetch (fun _ => running_job) {| payload_name := lit "Job" |} =
    Resolved running_job /\
  deleteJob offline 1 = Rejected NetworkError.
Proof.
  intros fetch.
  destruct (api_calls_resolve_on_2xx_only fetch (fun _ => page1) (fun _ => running_job)
              (fun _ => [])) as (_ & Hcreate & _).
  destruct (api_calls_resolve_on_2xx_only offline (fun _ => page1) (fun _ => running_job)
              (fun _ => [])) as (_ & _ & _ & _ & _ & Hreject).
  split.
  - apply Hcreate. exists {| Api.status := 201; json := Some JNull |}, JNull.
    repeat split.
  - apply (Hreject NetworkError). reflexivity.
Defined.

Lemma card_requests_are_its_own_and_one_at_a_time_witness :
  let s := {| JobCardSession.showHistory := false;
              JobCardSession.updateMutation := idleMutation;
              JobCardSession.deleteMutation := idleMutation |} in
  let es := [JobCardSession.StatusSelected RUNNING;
             JobCardSession.StatusSelected FAILED;
             JobCardSession.DeleteClicked;
             JobCardSession.UpdateSettled (Resolved running_job);
             JobCardSession.DeleteClicked] in
  (JobCardSession.run running_job es s).2 =
    [JobCardSession.update_request running_job FAILED;
     JobCardSession.delete_request running_job] /\
  (JobCardSession.in_flight (JobCardSession.run running_job es s).1 <=
     Nat.max 1 (JobCardSession.in_flight s))%nat.
Proof.
  intros s es. split; [reflexivity|].
  apply (card_requests_are_its_own_and_one_at_a_time running_job es s).
Defined.

Lemma card_messages_are_kept_apart_witness :
  let s := {| JobCardSession.showHistory := true;
              JobCardSession.updateMutation := CreateJobFormSession.pendingMutation;
              JobCardSession.deleteMutation := idleMutation |} in
  let h := {| query_data := None; query_isLoading := false |} in
  let s' := (JobCardSession.step running_job
               (JobCardSession.UpdateSettled (Rejected NetworkError)) s).1 in
  let s'' := (JobCardSession.step running_job JobCardSession.DeleteClicked s').1 in
  JobCard.update_error
    (JobCard.render running_job (JobCardSession.showHistory s') h
       (JobCardSession.updateMutation s') (JobCardSession.deleteMutation s')) =
    Some NetworkError /\
  JobCard.update_error
    (JobCard.render running_job (JobCardSession.showHistory s'') h
       (JobCardSession.updateMutation s'') (JobCardSession.deleteMutation s'')) =
    Some NetworkError /\
  JobCard.delete_button
    (JobCard.render running_job (JobCardSession.showHistory s'') h
       (JobCardSession.updateMutation s'') (JobCardSession.deleteMutation s'')) =
    "Deleting...".
Proof.
  intros s h s' s''.
  destruct (card_messages_are_kept_apart running_job h s) as (Hfail & _).
  destruct (Hfail NetworkError) as (Hmsg & _); [reflexivity|].
  destruct (card_messages_are_kept_apart running_job h s') as (_ & _ & _ & _ & _ & Hdel).
  destruct Hdel as (_ & Hkept & Hlabel & _); [discriminate|].
  split; [exact Hmsg|]. split; [|exact Hlabel].
  exact (eq_trans Hkept Hmsg).
Defined.

Lemma history_is_cached_apart_witness :
  JobCard.historyKey (job 1 "a" "" None) <> JobCard.historyKey (job 2 "a" "" None).
Proof.
  intros E.
  apply (history_is_cached_apart offline (fun _ => page1) (fun _ => [])
           (job 1 "a" "" None) (job 2 "a" "" None) initial ∅) in E.
  discriminate.
Defined.

Lemma server_list_is_cached_per_filter_and_sort_witness :
  let st := initial in
  let st' := {| filter := Only RUNNING; sort := newest |} in
  let q := setData 0 (InfiniteData [page1] [Finite 1]) in
  let c : gmap QueryKey QueryState :=
    {[ queryKey (JobListSrv.options offline (fun _ => page1) st) := q ]} in
  readInfiniteQuery (JobListSrv.options offline (fun _ => page1) st') 5 30000 c
    !! queryKey (JobListSrv.options offline (fun _ => page1) st) = Some q /\
  readInfiniteQuery (JobListSrv.options offline (fun _ => page1) st') 5 30000 c
    !! queryKey (JobListSrv.options offline (fun _ => page1) st') =
    Some (setError NetworkError newQuery).
Proof.
  intros st st' q c.
  destruct (server_list_is_cached_per_filter_and_sort offline (fun _ => page1) st st' c
              5 30000) as (_ & Hother & Hnew).
  split.
  - destruct Hother as [-> _]; [discriminate|]. vm_compute. reflexivity.
  - rewrite Hnew; [reflexivity|]. vm_compute. reflexivity.
Defined.

Lemma reachable_pages_answer_their_view_witness :
  let fetch := answering {| Api.status := 200; json := Some JNull |} in
  let opts := JobListSrv.options fetch (fun _ => page1) initial in
  let c := fetchNextPage opts 2 (readInfiniteQuery opts 1 30000 ∅) in
  fresh opts (loaded (entry c (queryKey opts))) /\
  starts_at_first_page opts (entry c (queryKey opts)).
Proof.
  intros fetch opts c.
  apply (reachable_pages_answer_their_view fetch (fun _ => page1) (fun _ => []) c initial).
  eapply Client.reach_step; [|apply Client.load_more].
  eapply Client.reach_step; [|apply Client.read_list].
  apply Client.reach_empty.
Defined.


Lemma empty_states_witness :
  let r := {| result_pages := Some [page1]; result_hasNextPage := true;
              isFetchingNextPage := false; isLoading := false; isError := true;
              result_error := Some NetworkError |} in
  cards (JobListSrv.render initial r) = [] /\
  loadMore (JobListSrv.render initial r) = None.
Proof.
  intros r.
  destruct (empty_states initial r) as (Hbusy & _).
  destruct Hbusy as (Hc & Hl & _); [right; reflexivity|].
  split; [exact Hc|exact Hl].
Defined.

Lemma failed_load_more_replaces_the_list_witness :
  let opts := JobListSrv.options offline (fun _ => page1) initial in
  let pages := [page1] in
  let params := [Finite 1] in
  let c : gmap QueryKey QueryState :=
    {[ queryKey opts := setData 0 (InfiniteData pages params) ]} in
  JobListSrv.JobList offline (fun _ => page1) initial (fetchNextPage opts 5 c) =
    FailedToLoad (Some NetworkError) /\
  data (entry (fetchNextPage opts 5 c) (queryKey opts)) = Some (InfiniteData pages params).
Proof.
  intros opts pages params c.
  destruct (failed_load_more_replaces_the_list offline (fun _ => page1) initial c
              pages params page1 (link 2) NetworkError 5)
    as (Hview & _ & _ & Hdata).
  - vm_compute. reflexivity.
  - reflexivity.
  - reflexivity.
  - reflexivity.
  - split; [exact Hview|exact Hdata].
Defined.

Lemma sorted_keeps_an_ordered_list_witness :
  let alpha := job 1 "alpha" "2024-01-01T00:00:00Z" (Some PENDING) in
  let beta := job 2 "beta" "2024-01-03T00:00:00Z" (Some RUNNING) in
  JobListMem.sorted newest [beta; alpha] = [beta; alpha] /\
  JobListMem.sorted name_asc (JobListMem.sorted name_asc [beta; alpha]) =
    JobListMem.sorted name_asc [beta; alpha].
Proof.
  intros alpha beta. split.
  - apply (sorted_keeps_an_ordered_list newest [beta; alpha]).
    repeat constructor. vm_compute. discriminate.
  - apply (sorted_keeps_an_ordered_list name_asc [beta; alpha]).
    apply compare_text_consistent.
Defined.

Lemma queries_are_retried_once_mutations_never_witness :
  let fn := fun k : nat =>
    match k with
    | O => @Rejected (list Job) JSError NetworkError
    | _ => Resolved [running_job]
    end in
  (createRetryer fn (queryRetry App.queryClient)).1 = Resolved [running_job] /\
  createRetryer fn (mutationRetry App.queryClient) = (Rejected NetworkError, 1%nat).
Proof.
  intros fn.
  destruct (queries_are_retried_once_mutations_never fn) as (_ & _ & _ & Hsecond & _ & Hm).
  split; [|exact Hm].
  rewrite Hsecond; reflexivity.
Defined.

Lemma fresh_data_is_read_from_the_cache_witness :
  let key := [KStr "jobs"; KStr "ALL"; KStr "newest"] in
  let d := InfiniteData [page1] [Finite 1] in
  let c : gmap QueryKey QueryState := {[ key := setData 0 d ]} in
  let opts := JobListSrv.options offline (fun _ => page1) initial in
  readInfiniteQuery opts 29999 (queryStaleTime App.queryClient) c = c /\
  readInfiniteQuery opts 30000 (queryStaleTime App.queryClient) c =
    fetchInfiniteQuery opts 30000 c.
Proof.
  intros key d c opts.
  destruct (fresh_data_is_read_from_the_cache c key d 0 29999)
    as (_ & Hearly & _); [vm_compute; reflexivity|].
  destruct (fresh_data_is_read_from_the_cache c key d 0 30000)
    as (_ & Hlate & _); [vm_compute; reflexivity|].
  split.
  - apply (Hearly opts); [reflexivity|lia].
  - apply (Hlate opts); [reflexivity|lia].
Defined.

Lemma invalidation_only_marks_witness :
  let key := [KStr "settings"] in
  let c : gmap QueryKey QueryState :=
    {[ key := setData 0 (InfiniteData [page1] [Finite 1]) ]} in
  Mutations.onSuccess Mutations.DeleteJob c !! key = c !! key /\
  Mutations.onSuccess Mutations.CreateJob (Mutations.onSuccess Mutations.DeleteJob c) =
    Mutations.onSuccess Mutations.DeleteJob c.
Proof.
  intros key c.
  destruct (invalidation_only_marks Mutations.CreateJob Mutations.DeleteJob c key)
    as (_ & _ & _ & _ & Hother & Hidem).
  split; [apply Hother; reflexivity|exact Hidem].
Defined.

End MoreExamples.
